(** * Batch burn of NFTs: a shallow embedding of [hooks/use-burn-nfts.ts],
      of the wallet wrapper of [components/solana/use-wallet-ui.ts] and of the
      merge step of [hooks/use-nft-enrichment.ts].

    The hooks are asynchronous and talk to an RPC node, to the Metaplex
    libraries and to a wallet.  The embedding makes that explicit:

    - every awaited call to the outside is an oracle of an environment
      [Env], a function of a hidden [World] that answers with a value or
      with a thrown error and a new world;
    - the code runs in a state-and-exception monad [M]; the state holds the
      world, the trace of the outside calls made so far, and the two arrays
      [skipped] and [prepared] that [mutateAsync] mutates in place;
    - the [while (queue.length)] loop of [sendGroups] is a fixpoint on a
      fuel; [sendGroups] supplies a fuel computed from the queue and the
      development proves that it is never exhausted.

    Every awaited call is taken to settle: an oracle always answers, with
    a value or with an error.  [console.log] diagnostics have no effect on
    any result and are left out; the [label] argument of [simulateIxs] only
    feeds them. *)

From Stdlib Require Import String Ascii List ZArith Lia Bool.
From stdpp Require Import base tactics option list gmap strings pretty.

Local Open Scope string_scope.
Local Open Scope list_scope.

(** ** JavaScript values met as errors *)

(** Thrown values and the [err] field of a simulation response
    ([TransactionError | string | null]) are nullish, strings or objects.
    For an object: [js_message] is its [message] property when present and
    not nullish, [js_json] is [JSON.stringify] of it ([None] when that
    throws), [js_str] is [String] of it. *)
Inductive JsValue : Type :=
| JsNull
| JsUndefined
| JsString (s : string)
| JsObject (js_message : option string) (js_json : option string) (js_str : string).

(** [new Error(msg)] *)
Definition mkError (msg : string) : JsValue :=
  JsObject (Some msg) (Some "{}") ("Error: " +:+ msg).

(** Truthiness of a value used as a condition. *)
Definition js_truthy (v : JsValue) : bool :=
  match v with
  | JsNull | JsUndefined => false
  | JsString s => negb (String.eqb s "")
  | JsObject _ _ _ => true
  end.

(** [String(v)] *)
Definition js_String (v : JsValue) : string :=
  match v with
  | JsNull => "null"
  | JsUndefined => "undefined"
  | JsString s => s
  | JsObject _ _ str => str
  end.

(** [e?.message] : [None] stands for [undefined]. *)
Definition js_message_of (v : JsValue) : option string :=
  match v with
  | JsObject m _ _ => m
  | _ => None
  end.

(** [s.includes(needle)] *)
Fixpoint includes (s needle : string) : bool :=
  String.prefix needle s ||
  match s with
  | EmptyString => false
  | String _ rest => includes rest needle
  end.

Definition lower_ascii (c : ascii) : ascii :=
  let n := nat_of_ascii c in
  if (65 <=? n)%nat && (n <=? 90)%nat then ascii_of_nat (n + 32) else c.

(** [s.toLowerCase()], on ASCII text. *)
Fixpoint toLowerCase (s : string) : string :=
  match s with
  | EmptyString => EmptyString
  | String c rest => String (lower_ascii c) (toLowerCase rest)
  end.

(** ** Error helpers of use-burn-nfts.ts *)

Definition stringifyErr (err : JsValue) : string :=
  match err with
  | JsNull | JsUndefined => ""
  | JsString s => s
  | JsObject m json str =>
      match m with
      | Some msg =>
          if negb (String.eqb msg "") then msg
          else match json with Some j => j | None => str end
      | None => match json with Some j => j | None => str end
      end
  end.

Definition isTooLargeErr (err : JsValue) : bool :=
  let s := stringifyErr err in
  includes s "VersionedTransaction too large" ||
  includes s "solana_transaction::versioned::VersionedTransaction too large" ||
  includes s "transaction too large" ||
  includes s "Transaction too large" ||
  includes s "packet too large" ||
  includes s "encoded/raw".

(** The phrasings [isTooLargeErr] looks for. *)
Definition too_large_needles : list string :=
  [ "VersionedTransaction too large";
    "solana_transaction::versioned::VersionedTransaction too large";
    "transaction too large";
    "Transaction too large";
    "packet too large";
    "encoded/raw" ].

(** ** Data model *)

(** A public key is identified with its base58 text. *)
Definition PublicKey : Type := string.
Definition toBase58 (k : PublicKey) : string := k.
Definition pk_equals (a b : PublicKey) : bool := String.eqb a b.

Definition TOKEN_PROGRAM_ID : PublicKey := "TokenkegQfeZyiNwAJbNbGKPFXCWuBvf9Ss623VQ5DA".
Definition TOKEN_2022_PROGRAM_ID : PublicKey := "TokenzQdBNbLqP5VEhdkAS6EPFLC1PHnBqCXEpPxuEb".
Definition ASSOCIATED_TOKEN_PROGRAM_ID : PublicKey :=
  "ATokenGPvbdGVxr1b2hvZbsiqW5xWH25efTNsLJA8knL".

Definition CB_UNITS : N := 1000000.
Definition PRIORITY_FEE_MICRO_LAMPORTS : N := 20000.

Record NftBurnItem : Type := mkItem {
  mint : PublicKey;
  tokenAccount : option PublicKey;
  isCompressed : option bool;
  isPnftHint : option bool;
  isCoreHint : option bool;
  programIdHint : option PublicKey;
  frozenHint : option bool;
  collectionMintHint : option PublicKey
}.

(** Truthiness of an optional flag. *)
Definition flag (b : option bool) : bool :=
  match b with Some true => true | _ => false end.

Inductive Kind : Type := spl | pnft | core.

Definition kind_is_spl (k : Kind) : bool :=
  match k with spl => true | _ => false end.

(** Arguments of Token Metadata's [burnV1] and [unlockV1]. *)
Record TmInput : Type := mkTmInput {
  tm_mint : PublicKey;
  tm_tokenOwner : PublicKey;
  tm_token : PublicKey;
  tm_metadata : PublicKey;
  tm_edition : option PublicKey;
  tm_tokenRecord : option PublicKey;
  tm_collectionMint : option PublicKey;
  tm_collectionMetadata : option PublicKey;
  tm_authorizationRules : option PublicKey;
  tm_splTokenProgram : option PublicKey
}.

Inductive TransactionInstruction : Type :=
| IxSetComputeUnitLimit (units : N)
| IxSetComputeUnitPrice (microLamports : N)
| IxSplBurn (account mint owner : PublicKey) (amount : N) (programId : PublicKey)
| IxSplCloseAccount (account destination authority : PublicKey) (programId : PublicKey)
| IxLibrary (program : string) (accounts : list PublicKey).

Definition createBurnInstruction (account mint owner : PublicKey) (amount : N)
    (programId : PublicKey) : TransactionInstruction :=
  IxSplBurn account mint owner amount programId.

Definition createCloseAccountInstruction (account destination authority : PublicKey)
    (programId : PublicKey) : TransactionInstruction :=
  IxSplCloseAccount account destination authority programId.

Record Group : Type := mkGroup {
  g_mint : PublicKey;
  g_ixs : list TransactionInstruction
}.

Record PreparedItem : Type := mkPrepared {
  p_mint : PublicKey;
  p_ixs : list TransactionInstruction;
  p_kind : Kind
}.

Record BurnOk : Type := mkBurnOk { ok_mint : string; ok_sig : string }.
Record BurnSkip : Type := mkBurnSkip { skip_mint : string; skip_reason : string }.
Record BurnBatchResult : Type := mkResult {
  r_ok : list BurnOk;
  r_skipped : list BurnSkip
}.

Inductive SimResult : Type :=
| SimOk
| SimFail (err : JsValue) (errStr : option string) (logs : option (list string)).

Definition sim_ok (r : SimResult) : bool :=
  match r with SimOk => true | SimFail _ _ _ => false end.

(** ** The outside world *)

Inductive Commitment : Type := Processed | Confirmed | Finalized.

Record TransactionMessage : Type := mkMessage {
  payerKey : PublicKey;
  recentBlockhash : string;
  instructions : list TransactionInstruction
}.

(** [new VersionedTransaction(msg)] wraps the compiled message. *)
Definition VersionedTransaction : Type := TransactionMessage.

Record SendTxOpts : Type := mkOpts {
  skipPreflight : option bool;
  preflightCommitment : option Commitment;
  maxRetries : option N
}.

Record AccountInfo : Type := mkAccountInfo { ai_owner : PublicKey }.
Record BlockhashCtx : Type := mkCtx { ctx_slot : N; ctx_blockhash : string }.
Record SimValue : Type := mkSimValue { sim_err : JsValue; sim_logs : option (list string) }.
Record CoreAsset : Type := mkCoreAsset { ca_key : PublicKey; ca_collection : option PublicKey }.
Record CoreCollection : Type := mkCoreCollection { cc_key : PublicKey }.
Record MaybeRpcAccount : Type := mkMaybeAccount { acc_exists : bool }.
(** [md_ruleSet] is [md?.programmableConfig?.ruleSet] stringified, when truthy. *)
Record Metadata : Type := mkMetadata { md_ruleSet : option string }.

(** What a call gives back: a value, or a thrown error. *)
Inductive Outcome (A : Type) : Type :=
| Returns (a : A)
| Throws (e : JsValue).
Arguments Returns {A} a.
Arguments Throws {A} e.

(** The calls that leave the process, as recorded in the trace. *)
Inductive Call : Type :=
| CallGetAccountInfo (addr : PublicKey) (c : Commitment)
| CallGetLatestBlockhash (c : Commitment)
| CallSimulateTransaction (tx : VersionedTransaction)
| CallSignAndSend (tx : VersionedTransaction) (minContextSlot : option N)
    (opts : option SendTxOpts)
| CallCoreFetchAsset (asset : PublicKey)
| CallCoreFetchCollection (addr : PublicKey)
| CallUmiGetAccount (addr : PublicKey)
| CallFetchMetadata (mint : PublicKey).

(** The collaborators of the hook.  Oracles that reach the network or the
    wallet thread the world; instruction builders and address derivations
    are pure but may throw. *)
Record Env (World : Type) : Type := mkEnv {
  getAccountInfo :
    PublicKey -> Commitment -> World -> Outcome (option AccountInfo) * World;
  getLatestBlockhashAndContext :
    Commitment -> World -> Outcome BlockhashCtx * World;
  simulateTransaction :
    VersionedTransaction -> World -> Outcome SimValue * World;
  walletSignAndSend :
    VersionedTransaction -> option N -> option SendTxOpts -> World ->
    Outcome string * World;
  compileError : TransactionMessage -> option JsValue;
  getAssociatedTokenAddress :
    PublicKey -> PublicKey -> PublicKey -> PublicKey -> Outcome PublicKey;
  coreFetchAsset : PublicKey -> World -> Outcome CoreAsset * World;
  coreFetchCollection : PublicKey -> World -> Outcome CoreCollection * World;
  coreBurn :
    PublicKey -> CoreAsset -> option CoreCollection ->
    Outcome (list TransactionInstruction);
  findMetadataPda : PublicKey -> PublicKey;
  findMasterEditionPda : PublicKey -> PublicKey;
  findTokenRecordPda : PublicKey -> PublicKey -> PublicKey;
  umiGetAccount : PublicKey -> World -> Outcome MaybeRpcAccount * World;
  fetchMetadata : PublicKey -> World -> Outcome Metadata * World;
  umiPk : string -> Outcome PublicKey;
  burnV1 : PublicKey -> TmInput -> Outcome (list TransactionInstruction);
  unlockV1 : PublicKey -> TmInput -> Outcome (list TransactionInstruction)
}.
Arguments getAccountInfo {World} _ _ _ _.
Arguments getLatestBlockhashAndContext {World} _ _ _.
Arguments simulateTransaction {World} _ _ _.
Arguments walletSignAndSend {World} _ _ _ _ _.
Arguments compileError {World} _ _.
Arguments getAssociatedTokenAddress {World} _ _ _ _ _.
Arguments coreFetchAsset {World} _ _ _.
Arguments coreFetchCollection {World} _ _ _.
Arguments coreBurn {World} _ _ _ _.
Arguments findMetadataPda {World} _ _.
Arguments findMasterEditionPda {World} _ _.
Arguments findTokenRecordPda {World} _ _ _.
Arguments umiGetAccount {World} _ _ _.
Arguments fetchMetadata {World} _ _ _.
Arguments umiPk {World} _ _.
Arguments burnV1 {World} _ _ _.
Arguments unlockV1 {World} _ _ _.

(** ** The monad *)

Section Monad.
Context {World : Type}.

Record St : Type := mkSt {
  world : World;
  calls : list Call;
  skipped : list BurnSkip;
  prepared : list PreparedItem
}.

(** [None]: the fuel of a loop ran out. *)
Definition M (A : Type) : Type := St -> option (Outcome A * St).

Definition ret {A} (a : A) : M A := fun st => Some (Returns a, st).

Definition throw {A} (e : JsValue) : M A := fun st => Some (Throws e, st).

Definition bind {A B} (m : M A) (k : A -> M B) : M B :=
  fun st =>
    match m st with
    | Some (Returns a, st') => k a st'
    | Some (Throws e, st') => Some (Throws e, st')
    | None => None
    end.

(** [try { m } catch (e) { h e }] *)
Definition try_catch {A} (m : M A) (h : JsValue -> M A) : M A :=
  fun st =>
    match m st with
    | Some (Returns a, st') => Some (Returns a, st')
    | Some (Throws e, st') => h e st'
    | None => None
    end.

(** A synchronous library call. *)
Definition lift {A} (o : Outcome A) : M A :=
  match o with
  | Returns a => ret a
  | Throws e => throw e
  end.

(** An awaited call to the outside: recorded, then answered by the oracle. *)
Definition call {A} (c : Call) (f : World -> Outcome A * World) : M A :=
  fun st =>
    let '(o, w) := f (world st) in
    Some (o, mkSt w (calls st ++ [c]) (skipped st) (prepared st)).

Definition push_skipped (s : BurnSkip) : M unit :=
  fun st =>
    Some (Returns tt, mkSt (world st) (calls st) (skipped st ++ [s]) (prepared st)).

Definition push_prepared (p : PreparedItem) : M unit :=
  fun st =>
    Some (Returns tt, mkSt (world st) (calls st) (skipped st) (prepared st ++ [p])).

(** [const skipped = []; const prepared = []] *)
Definition fresh_locals : M unit :=
  fun st => Some (Returns tt, mkSt (world st) (calls st) [] []).

Definition get_skipped : M (list BurnSkip) :=
  fun st => Some (Returns (skipped st), st).

Definition get_prepared : M (list PreparedItem) :=
  fun st => Some (Returns (prepared st), st).
End Monad.
Arguments St : clear implicits.
Arguments M : clear implicits.

Declare Scope burn_scope.
Delimit Scope burn_scope with burn.
Notation "'let!' x ':=' c 'in' k" := (bind c (fun x => k))
  (at level 10, x name, c at level 100, k at level 200) : burn_scope.
Open Scope burn_scope.

(** ** The wallet wrapper of use-wallet-ui.ts *)

Section Hook.
Context {World : Type}.
Variable env : Env World.

(** [{ skipPreflight: true, ...(opts ?? {}) }] *)
Definition mergedOpts (opts : option SendTxOpts) : SendTxOpts :=
  match opts with
  | None => mkOpts (Some true) None None
  | Some o =>
      mkOpts (match skipPreflight o with Some b => Some b | None => Some true end)
             (preflightCommitment o) (maxRetries o)
  end.

Definition signAndSendTransaction (tx : VersionedTransaction)
    (minContextSlot : option N) (opts : option SendTxOpts) : M World string :=
  let merged := mergedOpts opts in
  try_catch
    (call (CallSignAndSend tx minContextSlot (Some merged))
          (walletSignAndSend env tx minContextSlot (Some merged)))
    (fun _ =>
       call (CallSignAndSend tx minContextSlot None)
            (walletSignAndSend env tx minContextSlot None)).

(** ** Helpers of useBurnNfts *)

Definition getMintProgramId (mint : PublicKey) : M World PublicKey :=
  let! info := call (CallGetAccountInfo mint Processed)
                    (getAccountInfo env mint Processed) in
  match info with
  | None => throw (mkError ("Mint not found: " +:+ toBase58 mint))
  | Some i =>
      ret (if pk_equals (ai_owner i) TOKEN_2022_PROGRAM_ID
           then TOKEN_2022_PROGRAM_ID else TOKEN_PROGRAM_ID)
  end.

Definition resolveAtaByMintProgram (mint owner programId : PublicKey)
  : M World (PublicKey * PublicKey) :=
  let! ata := lift (getAssociatedTokenAddress env mint owner programId
                      ASSOCIATED_TOKEN_PROGRAM_ID) in
  ret (ata, programId).

(** [new TransactionMessage({...}).compileToV0Message()] followed by
    [new VersionedTransaction(msg)]. *)
Definition compileTx (payer : PublicKey) (blockhash : string)
    (ixs : list TransactionInstruction) : M World VersionedTransaction :=
  let msg := mkMessage payer blockhash ixs in
  match compileError env msg with
  | Some e => throw e
  | None => ret msg
  end.

Definition simulateIxs (owner : PublicKey) (ixs : list TransactionInstruction)
    (label : string) : M World SimResult :=
  try_catch
    (let! value := call (CallGetLatestBlockhash Processed)
                        (getLatestBlockhashAndContext env Processed) in
     let! tx := compileTx owner (ctx_blockhash value) ixs in
     let! sim := call (CallSimulateTransaction tx) (simulateTransaction env tx) in
     if js_truthy (sim_err sim) then
       let err := sim_err sim in
       let logs := match sim_logs sim with Some l => l | None => [] end in
       ret (SimFail err (Some (stringifyErr err)) (Some logs))
     else ret SimOk)
    (fun e =>
       let eStr := stringifyErr e in
       ret (SimFail e (Some eStr) None)).

(** The two resource-budget instructions put in front of every simulated
    or submitted sequence. *)
Definition budgetIxs : list TransactionInstruction :=
  [ IxSetComputeUnitLimit CB_UNITS;
    IxSetComputeUnitPrice PRIORITY_FEE_MICRO_LAMPORTS ].

(** ** Core (mpl-core) *)

Record CoreVariants : Type := mkCoreVariants {
  withCollection : list TransactionInstruction;
  withoutCollection : list TransactionInstruction
}.

Definition buildCoreBurnVariants (owner assetId : PublicKey) : M World CoreVariants :=
  let! asset := call (CallCoreFetchAsset assetId) (coreFetchAsset env assetId) in
  let! withoutCollection := lift (coreBurn env owner asset None) in
  let! withCollection :=
    try_catch
      (match ca_collection asset with
       | Some collAddr =>
           let! collection := call (CallCoreFetchCollection collAddr)
                                   (coreFetchCollection env collAddr) in
           lift (coreBurn env owner asset (Some collection))
       | None => ret []
       end)
      (fun _ => ret []) in
  ret (mkCoreVariants withCollection withoutCollection).

(** ** pNFT (Token Metadata) *)

Record PnftVariants : Type := mkPnftVariants {
  burnOnly : list TransactionInstruction;
  unlockThenBurn : list TransactionInstruction;
  burnOnlyWithRules : option (list TransactionInstruction);
  unlockThenBurnWithRules : option (list TransactionInstruction)
}.

Definition buildPnftVariants (owner mint tokenAccount : PublicKey)
    (collectionMint : option PublicKey) : M World (option PnftVariants) :=
  try_catch
    (let metadata := findMetadataPda env mint in
     let edition := findMasterEditionPda env mint in
     let tokenRecord := findTokenRecordPda env mint tokenAccount in
     let! trAcc :=
       try_catch
         (let! a := call (CallUmiGetAccount tokenRecord)
                         (umiGetAccount env tokenRecord) in
          ret (Some a))
         (fun _ => ret None) in
     match trAcc with
     | None => ret None
     | Some _ =>
         let collMetadataPda :=
           match collectionMint with
           | Some c => Some (findMetadataPda env c)
           | None => None
           end in
         let! ruleSetU :=
           try_catch
             (let! md := call (CallFetchMetadata mint) (fetchMetadata env mint) in
              match md_ruleSet md with
              | Some rs => let! k := lift (umiPk env rs) in ret (Some k)
              | None => ret None
              end)
             (fun _ => ret None) in
         let common (rules : option PublicKey) :=
           mkTmInput mint owner tokenAccount metadata (Some edition)
                     (Some tokenRecord) collectionMint collMetadataPda rules None in
         let makeBurn (withRules : bool) :=
           lift (burnV1 env owner (common (if withRules then ruleSetU else None))) in
         let makeUnlock := lift (unlockV1 env owner (common None)) in
         let! burnOnly := makeBurn false in
         let! u1 := makeUnlock in
         let! b1 := makeBurn false in
         let unlockThenBurn := u1 ++ b1 in
         let! burnOnlyWithRules :=
           match ruleSetU with
           | Some _ => let! b := makeBurn true in ret (Some b)
           | None => ret None
           end in
         let! unlockThenBurnWithRules :=
           match ruleSetU with
           | Some _ =>
               let! u := makeUnlock in
               let! b := makeBurn true in
               ret (Some (u ++ b))
           | None => ret None
           end in
         ret (Some (mkPnftVariants burnOnly unlockThenBurn burnOnlyWithRules
                                   unlockThenBurnWithRules))
     end)
    (fun _ => ret None).

(** ** Legacy Token Metadata NFT (not a pNFT) *)

Definition buildLegacyTmBurn (owner mint tokenAccount tokenProgramId : PublicKey)
  : M World (option (list TransactionInstruction)) :=
  try_catch
    (let mdPda := findMetadataPda env mint in
     let! mdAi := call (CallGetAccountInfo mdPda Processed)
                       (getAccountInfo env mdPda Processed) in
     match mdAi with
     | None => ret None
     | Some _ =>
         let mePda := findMasterEditionPda env mint in
         let! meAi := call (CallGetAccountInfo mePda Processed)
                           (getAccountInfo env mePda Processed) in
         let hasME := match meAi with Some _ => true | None => false end in
         let maybeSplTokenProgram :=
           if pk_equals tokenProgramId TOKEN_2022_PROGRAM_ID
           then Some TOKEN_2022_PROGRAM_ID else None in
         let! burn :=
           lift (burnV1 env owner
                   (mkTmInput mint owner tokenAccount mdPda
                      (if hasME then Some mePda else None)
                      None None None None maybeSplTokenProgram)) in
         ret (Some (burn ++
                    [createCloseAccountInstruction tokenAccount owner owner
                                                   tokenProgramId]))
     end)
    (fun _ => ret None).
(** ** Final sending *)

(** The instructions of the transaction of a group. *)
Definition finalizeIxs (group : list Group) : list TransactionInstruction :=
  budgetIxs ++ flat_map g_ixs group.

(** The test of the [catch] of [sendGroups] on
    [(e?.message ?? String(e)).toLowerCase()]. *)
Definition userDeclined (e : JsValue) : bool :=
  let msg :=
    toLowerCase (match js_message_of e with
                 | Some m => m
                 | None => js_String e
                 end) in
  includes msg "reject" || includes msg "denied" || includes msg "cancel".

(** The awaited part of the [try] block of a turn: fetch a blockhash,
    build the transaction, ask the wallet for a signature. *)
Definition submitAttempt (owner : PublicKey) (ixs : list TransactionInstruction)
  : M World string :=
  let! ctx := call (CallGetLatestBlockhash Confirmed)
                   (getLatestBlockhashAndContext env Confirmed) in
  let! tx := compileTx owner (ctx_blockhash ctx) ixs in
  signAndSendTransaction tx (Some (ctx_slot ctx)) None.

(** The [try { ... } catch] of one turn of the loop: on a signature the
    group is recorded, on an error the user's refusal is told apart. *)
Definition submitGroup (owner : PublicKey) (ok : list BurnOk) (group : list Group)
    (queue : list (list Group)) : M World (list BurnOk * list (list Group)) :=
  let ixs := finalizeIxs group in
  try_catch
    (let! sig := submitAttempt owner ixs in
     ret (ok ++ map (fun g => mkBurnOk (toBase58 (g_mint g)) sig) group, queue))
    (fun e => if userDeclined e then ret (ok, queue) else throw e).

(** One turn of [while (queue.length)], after [queue.shift()] gave
    [group] and left [queue]. *)
Definition sendGroupsTurn (owner : PublicKey) (ok : list BurnOk) (group : list Group)
    (queue : list (list Group)) : M World (list BurnOk * list (list Group)) :=
  let ixs := finalizeIxs group in
  let! simRes :=
    simulateIxs owner ixs ("batch(" +:+ pretty (length group) +:+ ")") in
  match simRes with
  | SimOk => submitGroup owner ok group queue
  | SimFail err errStr _ =>
      let tooLarge :=
        isTooLargeErr
          (JsString (match errStr with Some s => s | None => stringifyErr err end)) in
      if tooLarge then
        if (1 <? length group)%nat then
          let mid := (length group / 2)%nat in
          ret (ok, firstn mid group :: skipn mid group :: queue)
        else submitGroup owner ok group queue
      else submitGroup owner ok group queue
  end.

Fixpoint sendGroupsLoop (fuel : nat) (owner : PublicKey) (ok : list BurnOk)
    (queue : list (list Group)) : M World (list BurnOk) :=
  match queue with
  | [] => ret ok
  | group :: rest =>
      match fuel with
      | O => fun _ => None
      | S fuel' =>
          let! next := sendGroupsTurn owner ok group rest in
          sendGroupsLoop fuel' owner (fst next) (snd next)
      end
  end.

(** A bound on the number of turns a queue can need. *)
Definition groupFuel (group : list Group) : nat := S (2 * pred (length group)).
Definition queueFuel (queue : list (list Group)) : nat :=
  list_sum (map groupFuel queue).

Definition sendGroups (owner : PublicKey) (groups : list (list Group))
  : M World (list BurnOk) :=
  sendGroupsLoop (queueFuel groups) owner [] groups.

(** ** Main *)

Definition is_empty {A} (l : list A) : bool :=
  match l with [] => true | _ :: _ => false end.

(** [e?.message ?? 'unknown'] *)
Definition messageOrUnknown (e : JsValue) : string :=
  match js_message_of e with Some m => m | None => "unknown" end.

(** [a ?? b] *)
Definition nullish_or {A} (a b : option A) : option A :=
  match a with Some x => Some x | None => b end.

Record Candidate : Type := mkCandidate {
  cand_name : string;
  cand_ixs : option (list TransactionInstruction)
}.

Definition pnftOrder (variants : PnftVariants) : list Candidate :=
  [ mkCandidate "burn only (with rules)" (burnOnlyWithRules variants);
    mkCandidate "burn only (no rules)" (Some (burnOnly variants));
    mkCandidate "unlock+burn (with rules)" (unlockThenBurnWithRules variants);
    mkCandidate "unlock+burn (no rules)" (Some (unlockThenBurn variants)) ].

(** [for (const cand of order)]: the first candidate whose simulation is
    accepted, [None] when the loop ends without one. *)
Fixpoint pnftPickLoop (owner : PublicKey) (order : list Candidate)
  : M World (option (list TransactionInstruction)) :=
  match order with
  | [] => ret None
  | cand :: rest =>
      match cand_ixs cand with
      | None => pnftPickLoop owner rest
      | Some ixs =>
          if is_empty ixs then pnftPickLoop owner rest
          else
            let! sim := simulateIxs owner (budgetIxs ++ ixs)
                                    ("pnft-pick " +:+ cand_name cand) in
            if sim_ok sim then ret (Some ixs) else pnftPickLoop owner rest
      end
  end.

Definition pnftFallback (variants : PnftVariants)
  : option (list TransactionInstruction) :=
  nullish_or (burnOnlyWithRules variants)
    (nullish_or (Some (burnOnly variants))
       (nullish_or (unlockThenBurnWithRules variants)
          (Some (unlockThenBurn variants)))).

Definition pnftPick (owner : PublicKey) (variants : PnftVariants)
  : M World (option (list TransactionInstruction)) :=
  let! picked := pnftPickLoop owner (pnftOrder variants) in
  match picked with
  | Some ixs => ret (Some ixs)
  | None => ret (pnftFallback variants)
  end.

Definition splIxs (tokenAccount mint owner programId : PublicKey)
  : list TransactionInstruction :=
  [ createBurnInstruction tokenAccount mint owner 1 programId;
    createCloseAccountInstruction tokenAccount owner owner programId ].

(** [it.programIdHint ?? (await getMintProgramId(it.mint))] *)
Definition resolveProgramId (it : NftBurnItem) : M World PublicKey :=
  match programIdHint it with
  | Some hint => ret hint
  | None => getMintProgramId (mint it)
  end.

(** The body of the [for] loop from the pNFT attempt on, once the program
    and the token account are known. *)
Definition prepareSplOrPnft (deepClean : bool) (owner : PublicKey) (it : NftBurnItem)
    (programId tokenAccount : PublicKey) : M World unit :=
  let! variants := buildPnftVariants owner (mint it) tokenAccount
                                     (collectionMintHint it) in
  let! pnftIxs :=
    match variants with
    | Some v => pnftPick owner v
    | None => ret None
    end in
  match deepClean, pnftIxs with
  | true, Some ixs => push_prepared (mkPrepared (mint it) ixs pnft)
  | true, None =>
      let! legacyIxs := buildLegacyTmBurn owner (mint it) tokenAccount programId in
      match legacyIxs with
      | Some lixs =>
          let! sim := simulateIxs owner (budgetIxs ++ lixs) "legacy-tm-check" in
          if sim_ok sim then push_prepared (mkPrepared (mint it) lixs spl)
          else push_prepared
                 (mkPrepared (mint it)
                    (splIxs tokenAccount (mint it) owner programId) spl)
      | None =>
          push_prepared
            (mkPrepared (mint it) (splIxs tokenAccount (mint it) owner programId) spl)
      end
  | false, _ =>
      push_prepared
        (mkPrepared (mint it) (splIxs tokenAccount (mint it) owner programId) spl)
  end.

(** The body of [for (const it of rawItems)]. *)
Definition prepareItem (deepClean : bool) (owner : PublicKey) (it : NftBurnItem)
  : M World unit :=
  let mint58 := toBase58 (mint it) in
  try_catch
    (if flag (isCompressed it) then
       push_skipped (mkBurnSkip mint58 "cNFT not supported")
     else if flag (isCoreHint it) then
       try_catch
         (let! v := buildCoreBurnVariants owner (mint it) in
          let chosen :=
            if negb (is_empty (withCollection v)) then withCollection v
            else withoutCollection v in
          if is_empty chosen then
            push_skipped (mkBurnSkip mint58 "core burn: no viable instructions")
          else
            let! _ := simulateIxs owner (budgetIxs ++ chosen) "core-pick" in
            push_prepared (mkPrepared (mint it) chosen core))
         (fun e =>
            push_skipped
              (mkBurnSkip mint58 ("core build failed: " +:+ messageOrUnknown e)))
     else
       let! programId := resolveProgramId it in
       match tokenAccount it with
       | None =>
           let! r := resolveAtaByMintProgram (mint it) owner programId in
           prepareSplOrPnft deepClean owner it programId (fst r)
       | Some ta =>
           let! ai := call (CallGetAccountInfo ta Processed)
                           (getAccountInfo env ta Processed) in
           match ai with
           | None => push_skipped (mkBurnSkip mint58 "token account not found")
           | Some a =>
               let ataProgram :=
                 if pk_equals (ai_owner a) TOKEN_2022_PROGRAM_ID
                 then TOKEN_2022_PROGRAM_ID else TOKEN_PROGRAM_ID in
               let! ta' :=
                 if negb (pk_equals ataProgram programId) then
                   let! r := resolveAtaByMintProgram (mint it) owner programId in
                   ret (fst r)
                 else ret ta in
               prepareSplOrPnft deepClean owner it programId ta'
           end
       end)
    (fun e => push_skipped (mkBurnSkip mint58 ("error: " +:+ messageOrUnknown e))).

Fixpoint prepareAll (deepClean : bool) (owner : PublicKey) (rawItems : list NftBurnItem)
  : M World unit :=
  match rawItems with
  | [] => ret tt
  | it :: rest =>
      let! _ := prepareItem deepClean owner it in
      prepareAll deepClean owner rest
  end.

(** *** Grouping *)

Definition heavyCount (prepared : list PreparedItem) : nat :=
  length (List.filter (fun p => negb (kind_is_spl (p_kind p))) prepared).

Definition MAX_PER_TX (prepared : list PreparedItem) : nat :=
  if (heavyCount prepared =? 0)%nat then 16 else 6.

(** [for (let i = 0; i < prepared.length; i += MAX_PER_TX)]; the fuel
    bounds the number of turns. *)
Fixpoint groupLoop (fuel i max : nat) (prepared : list PreparedItem)
  : list (list Group) :=
  match fuel with
  | O => []
  | S fuel' =>
      if (i <? length prepared)%nat then
        let slice :=
          map (fun p => mkGroup (p_mint p) (p_ixs p))
              (firstn max (skipn i prepared)) in
        (if is_empty slice then [] else [slice])
          ++ groupLoop fuel' (i + max) max prepared
      else []
  end.

Definition makeGroups (prepared : list PreparedItem) : list (list Group) :=
  groupLoop (length prepared) 0 (MAX_PER_TX prepared) prepared.

Definition mutateAsync (deepClean : bool) (account : option PublicKey)
    (rawItems : list NftBurnItem) : M World BurnBatchResult :=
  match account with
  | None => throw (mkError "Wallet not connected")
  | Some owner =>
      let! _ := fresh_locals in
      let! _ := prepareAll deepClean owner rawItems in
      let! prepared := get_prepared in
      let! skipped := get_skipped in
      let groups := makeGroups prepared in
      if is_empty groups then ret (mkResult [] skipped)
      else
        let! ok := sendGroups owner groups in
        ret (mkResult ok skipped)
  end.
End Hook.

Arguments withCollection {_}.
Arguments withoutCollection {_}.

(** ** The merge step of use-nft-enrichment.ts *)

Section Enrichment.
(** Everything an asset carries besides its id. *)
Variable Content : Type.

Record HeliusAsset : Type := mkAsset {
  id : string;
  content : Content
}.

(** [new Map(enriched.map((e) => [e.id, e]))]: a later entry replaces an
    earlier one with the same key. *)
Definition byId (enriched : list HeliusAsset) : gmap string HeliusAsset :=
  foldl (fun m e => <[id e := e]> m) ∅ enriched.

(** The updater passed to [setNfts]:
    [curr.map((c) => byId.get(c.id) ?? c)]. *)
Definition mergeEnriched (enriched curr : list HeliusAsset) : list HeliusAsset :=
  map (fun c => match byId enriched !! id c with
                | Some e => e
                | None => c
                end) curr.
End Enrichment.
Arguments mkAsset {Content} id content.
Arguments id {Content} _.
Arguments content {Content} _.
Arguments byId {Content} enriched.
Arguments mergeEnriched {Content} enriched curr.

(** ** Scripted environments, for running the model on examples *)

Module Script.
(** An environment without hidden state: the chain answers [accountOwner]
    for account reads, [sim] for simulations, [wallet] for the wallet
    prompt and [asset] for the Core asset record. *)
Definition scriptedEnv
    (accountOwner : PublicKey -> option PublicKey)
    (sim : VersionedTransaction -> SimValue)
    (wallet : VersionedTransaction -> Outcome string)
    (asset : Outcome CoreAsset) : Env unit :=
  {| getAccountInfo := fun addr _ w =>
       (Returns (option_map mkAccountInfo (accountOwner addr)), w);
     getLatestBlockhashAndContext := fun _ w => (Returns (mkCtx 7 "hash"), w);
     simulateTransaction := fun tx w => (Returns (sim tx), w);
     walletSignAndSend := fun tx _ _ w => (wallet tx, w);
     compileError := fun _ => None;
     getAssociatedTokenAddress := fun mint _ _ _ => Returns ("ata:" +:+ mint);
     coreFetchAsset := fun _ w => (asset, w);
     coreFetchCollection := fun a w => (Returns (mkCoreCollection a), w);
     coreBurn := fun _ a _ => Returns [IxLibrary "mpl-core" [ca_key a]];
     findMetadataPda := fun m => "metadata:" +:+ m;
     findMasterEditionPda := fun m => "edition:" +:+ m;
     findTokenRecordPda := fun m t => "record:" +:+ m;
     umiGetAccount := fun _ w => (Throws (JsString "no such account"), w);
     fetchMetadata := fun _ w => (Returns (mkMetadata None), w);
     umiPk := fun s => Returns s;
     burnV1 := fun _ i => Returns [IxLibrary "tm-burn" [tm_mint i]];
     unlockV1 := fun _ i => Returns [IxLibrary "tm-unlock" [tm_mint i]] |}.

Definition st0 : St unit := mkSt tt [] [] [].

Definition simAccepts : VersionedTransaction -> SimValue :=
  fun _ => mkSimValue JsNull (Some []).

Definition walletSigns : VersionedTransaction -> Outcome string :=
  fun _ => Returns "sig".

Definition classicOwner : PublicKey -> option PublicKey :=
  fun _ => Some TOKEN_PROGRAM_ID.

Definition noAsset : Outcome CoreAsset := Throws (mkError "asset not found").

(** Everything succeeds. *)
Definition quietEnv : Env unit :=
  scriptedEnv classicOwner simAccepts walletSigns noAsset.

(** The user refuses every wallet prompt. *)
Definition decliningEnv : Env unit :=
  scriptedEnv classicOwner simAccepts
    (fun _ => Throws (mkError "User rejected the request")) noAsset.

(** The wallet fails for another reason. *)
Definition brokenWalletEnv : Env unit :=
  scriptedEnv classicOwner simAccepts
    (fun _ => Throws (mkError "Network request failed")) noAsset.

Definition bareItem (m : PublicKey) : NftBurnItem :=
  mkItem m (Some ("ata:" +:+ m)) None None None (Some TOKEN_PROGRAM_ID) None None.

Definition compressedItem (m : PublicKey) : NftBurnItem :=
  mkItem m None (Some true) (Some true) (Some true) None None None.

(** A bare-token asset that comes without a program hint. *)
Definition unhintedItem (m : PublicKey) : NftBurnItem :=
  mkItem m None None None None None None None.

(** The same asset, with a hint that names the classic token program. *)
Definition hintedItem (m : PublicKey) : NftBurnItem :=
  mkItem m None None None None (Some TOKEN_PROGRAM_ID) None None.

Definition fourVariants : PnftVariants :=
  mkPnftVariants [IxLibrary "burn" []]
                 [IxLibrary "unlock" []; IxLibrary "burn" []]
                 (Some [IxLibrary "burn+rules" []])
                 (Some [IxLibrary "unlock" []; IxLibrary "burn+rules" []]).

Definition coreItem (m : PublicKey) : NftBurnItem :=
  mkItem m None None None (Some true) None None None.

Definition thirteenLogs : list string :=
  ["l1"; "l2"; "l3"; "l4"; "l5"; "l6"; "l7"; "l8"; "l9"; "l10"; "l11"; "l12"; "l13"].

(** Every simulation fails and reports thirteen log lines. *)
Definition chattyEnv : Env unit :=
  scriptedEnv classicOwner
    (fun _ => mkSimValue (JsString "InstructionError") (Some thirteenLogs))
    walletSigns noAsset.

(** A transaction of more than [n] instructions is reported oversized. *)
Definition simLimit (n : nat) : VersionedTransaction -> SimValue :=
  fun tx =>
    if (n <? length (instructions tx))%nat
    then mkSimValue (JsString "VersionedTransaction too large: 1644 bytes") None
    else mkSimValue JsNull (Some []).

Definition tightEnv (n : nat) : Env unit :=
  scriptedEnv classicOwner (simLimit n) walletSigns noAsset.

(** Every mint account is owned by the Token-2022 program. *)
Definition token2022Env : Env unit :=
  scriptedEnv (fun _ => Some TOKEN_2022_PROGRAM_ID) simAccepts walletSigns noAsset.

Definition isRulesIx (ix : TransactionInstruction) : bool :=
  match ix with
  | IxLibrary program _ => String.eqb program "burn+rules"
  | _ => false
  end.

(** A transaction that carries a burn with rules is rejected. *)
Definition rulesRejectedEnv : Env unit :=
  scriptedEnv classicOwner
    (fun tx =>
       if existsb isRulesIx (instructions tx)
       then mkSimValue (JsString "RuleSetFailed") (Some [])
       else mkSimValue JsNull (Some []))
    walletSigns noAsset.

Definition eightItems : list NftBurnItem :=
  map bareItem ["m1"; "m2"; "m3"; "m4"; "m5"; "m6"; "m7"; "m8"].

Definition threeItems : list NftBurnItem :=
  [bareItem "m1"; bareItem "m2"; compressedItem "c1"].

Definition rawAssets : list (HeliusAsset string) :=
  [mkAsset "a" "raw a"; mkAsset "b" "raw b"; mkAsset "c" "raw c"].

Definition richBatch : list (HeliusAsset string) := [mkAsset "b" "rich b"].

Definition group3 : list Group :=
  [mkGroup "m1" [IxLibrary "a" []]; mkGroup "m2" [IxLibrary "b" []];
   mkGroup "m3" [IxLibrary "c" []]].
End Script.

(** * Reasoning about the monad *)

Section Wp.
Context {World : Type}.

(** Partial-correctness postconditions: whatever [m] ends with from [st]
    satisfies [Q]. *)
Definition wp {A} (m : M World A) (Q : Outcome A -> St World -> Prop)
    (st : St World) : Prop :=
  forall o st', m st = Some (o, st') -> Q o st'.

(** [m] ends, with a value or an exception, without running out of fuel. *)
Definition total {A} (m : M World A) : Prop :=
  forall st, exists o st', m st = Some (o, st').

(** A preorder on states that outside calls respect. *)
Class StateOrder (R : St World -> St World -> Prop) : Prop := {
  order_refl : forall st, R st st;
  order_trans : forall st1 st2 st3, R st1 st2 -> R st2 st3 -> R st1 st3;
  order_call : forall st c w,
      R st (mkSt w (calls st ++ [c]) (skipped st) (prepared st))
}.

(** Every run of [m] relates the state it starts from to the one it
    ends in. *)
Definition respects (R : St World -> St World -> Prop) {A} (m : M World A) : Prop :=
  forall st, wp m (fun _ st' => R st st') st.

(** The two arrays of [mutateAsync] are left alone. *)
Definition sameLocals (st st' : St World) : Prop :=
  skipped st' = skipped st /\ prepared st' = prepared st.

(** Nothing is removed from [skipped]. *)
Definition skippedGrows (st st' : St World) : Prop :=
  exists more, skipped st' = skipped st ++ more.

(** The number of assets [mutateAsync] has settled so far. *)
Definition settled (st : St World) : nat :=
  length (skipped st) + length (prepared st).
End Wp.

(** * Notions used in the statements *)

Section Notions.
Context {World : Type}.
Variable env : Env World.

(** [m] never ends with an exception. *)
Definition noThrow {A} (m : M World A) : Prop :=
  forall st, wp m (fun o _ => exists a, o = Returns a) st.

(** What [sendGroups] computes as [tooLarge] from a simulation result. *)
Definition simOversized (simRes : SimResult) : bool :=
  match simRes with
  | SimOk => false
  | SimFail err errStr _ =>
      isTooLargeErr
        (JsString (match errStr with Some s => s | None => stringifyErr err end))
  end.

(** The one case in which a turn of [sendGroups] does not submit. *)
Definition shouldSplit (simRes : SimResult) (group : list Group) : bool :=
  simOversized simRes && (1 <? length group)%nat.

(** An error one of the collaborators of the submission can raise. *)
Definition submissionError (e : JsValue) : Prop :=
  (exists c w w', getLatestBlockhashAndContext env c w = (Throws e, w')) \/
  (exists msg, compileError env msg = Some e) \/
  (exists tx slot opts w w', walletSignAndSend env tx slot opts w = (Throws e, w')).

(** [m] settles exactly one asset when it returns, none when it throws. *)
Definition pushesOne {A} (m : M World A) : Prop :=
  forall st,
    wp m (fun o st' =>
            match o with
            | Returns _ => settled st' = S (settled st)
            | Throws _ => settled st' = settled st
            end) st.

(** The turn for [group] from [st] ends on a refusal of the user: the
    simulation did not lead to a split and the attempt to submit threw an
    error that reads as a refusal. *)
Definition turnDeclined (owner : PublicKey) (group : list Group) (st : St World)
  : bool :=
  match simulateIxs env owner (finalizeIxs group) "" st with
  | Some (Returns simRes, st0) =>
      if shouldSplit simRes group then false
      else match submitAttempt env owner (finalizeIxs group) st0 with
           | Some (Throws e, _) => userDeclined e
           | _ => false
           end
  | _ => false
  end.

(** The number of items in the groups that the loop, run on [queue] from
    [st], drops on a refusal of the user. *)
Fixpoint declinedItems (fuel : nat) (owner : PublicKey) (ok : list BurnOk)
    (queue : list (list Group)) (st : St World) : nat :=
  match queue, fuel with
  | group :: rest, S fuel' =>
      match sendGroupsTurn env owner ok group rest st with
      | Some (Returns next, st1) =>
          ((if turnDeclined owner group st then length group else 0)
           + declinedItems fuel' owner (fst next) (snd next) st1)%nat
      | _ => 0%nat
      end
  | _, _ => 0%nat
  end.

(** No submission error reads as a refusal of the user. *)
Definition neverDeclines : Prop :=
  forall e, submissionError e -> userDeclined e = false.
End Notions.

(** The calls that ask the wallet to sign and send. *)
Definition isWalletCall (c : Call) : bool :=
  match c with
  | CallSignAndSend _ _ _ => true
  | _ => false
  end.

(** The state [mutateAsync] starts its work from: both arrays empty. *)
Definition freshSt {World : Type} (st : St World) : St World :=
  mkSt (world st) (calls st) [] [].

(** The number of items waiting in a queue. *)
Definition queueItems (queue : list (list Group)) : nat :=
  length (concat queue).

(** [splitChain g k]: [k] successive splits can follow one another, each
    one applied to a half the previous one produced, starting from [g]. *)
Inductive splitChain : list Group -> nat -> Prop :=
| chain_end g : splitChain g 0
| chain_left g k :
    (1 < length g)%nat ->
    splitChain (firstn (length g / 2) g) k -> splitChain g (S k)
| chain_right g k :
    (1 < length g)%nat ->
    splitChain (skipn (length g / 2) g) k -> splitChain g (S k).

(** The first candidate of an order that exists at all. *)
Definition firstExisting (order : list Candidate)
  : option (list TransactionInstruction) :=
  head (omap cand_ixs order).

(** * Notions used for the rest of the hook *)

Section TraceNotions.
Context {World : Type}.

(** Every call a run of [m] adds to the trace satisfies [P]. *)
Definition emits {A} (P : Call -> Prop) (m : M World A) : Prop :=
  forall st,
    wp m (fun _ st' => exists more, calls st' = calls st ++ more /\ Forall P more) st.

(** A run step that settles the asset [mint]: one more skip under that
    mint, or one more prepared item for it. *)
Definition settlesMint (mint : PublicKey) (st st' : St World) : Prop :=
  (exists s, skipped st' = skipped st ++ [s] /\ skip_mint s = toBase58 mint /\
             prepared st' = prepared st) \/
  (exists p, prepared st' = prepared st ++ [p] /\ p_mint p = mint /\
             skipped st' = skipped st).

(** [m] settles [mint] when it returns and touches nothing when it throws. *)
Definition preparesFor {A} (mint : PublicKey) (m : M World A) : Prop :=
  forall st,
    wp m (fun o st' =>
            match o with
            | Returns _ => settlesMint mint st st'
            | Throws _ => sameLocals st st'
            end) st.
End TraceNotions.

(** The transaction a call carries, if any. *)
Definition txOfCall (c : Call) : option VersionedTransaction :=
  match c with
  | CallSimulateTransaction tx => Some tx
  | CallSignAndSend tx _ _ => Some tx
  | _ => None
  end.

(** A call that carries a transaction carries one paid by [owner] that
    starts with the two resource-budget instructions. *)
Definition ownerPaysBudgetFirst (owner : PublicKey) (c : Call) : Prop :=
  match txOfCall c with
  | Some tx => payerKey tx = owner /\ firstn 2 (instructions tx) = budgetIxs
  | None => True
  end.

(** The group entry of a prepared item. *)
Definition toGroup (p : PreparedItem) : Group := mkGroup (p_mint p) (p_ixs p).

(** The skip recorded for a compressed asset. *)
Definition compressedSkip (it : NftBurnItem) : BurnSkip :=
  mkBurnSkip (toBase58 (mint it)) "cNFT not supported".

(** The descriptor [it] with [programId] as its program hint. *)
Definition withHint (it : NftBurnItem) (programId : PublicKey) : NftBurnItem :=
  mkItem (mint it) (tokenAccount it) (isCompressed it) (isPnftHint it)
         (isCoreHint it) (Some programId) (frozenHint it) (collectionMintHint it).

(** * utils/resolve-nft-meta.ts, and the hooks and the screen around it *)

Module Meta.

(** Truthiness of an optional string: present and not empty. *)
Definition truthy (o : option string) : bool :=
  match o with
  | Some s => negb (String.eqb s "")
  | None => false
  end.

(** [o?.field] *)
Definition andThen {A B} (o : option A) (field : A -> option B) : option B :=
  match o with
  | Some a => field a
  | None => None
  end.

(** [a || b] on optional strings. *)
Definition or_else (a b : option string) : option string :=
  if truthy a then a else b.

(** [s.replace(pattern, replacement)] for a string pattern and a replacement
    without [$]: the first occurrence is replaced. *)
Fixpoint replaceFirst (s pattern replacement : string) : string :=
  if String.prefix pattern s then
    replacement
      +:+ String.substring (String.length pattern)
                           (String.length s - String.length pattern) s
  else
    match s with
    | EmptyString => EmptyString
    | String c rest => String c (replaceFirst rest pattern replacement)
    end.

(** [ipfsToHttp] on a string. *)
Definition ipfsToHttpS (s : string) : string :=
  if negb (String.eqb s "") && String.prefix "ipfs://" s
  then replaceFirst s "ipfs://" "https://ipfs.io/ipfs/"
  else s.

Definition ipfsToHttp (u : option string) : option string :=
  match u with
  | Some s => Some (ipfsToHttpS s)
  | None => None
  end.

(** ** The asset as the indexer gives it *)

Record AssetFile : Type := mkFile {
  file_uri : option string;
  file_cdn_uri : option string;
  file_mime : option string
}.

Record AssetLinks : Type := mkLinks { links_image : option string }.

Record AssetNames : Type := mkNames {
  names_name : option string;
  names_symbol : option string
}.

Record AssetContent : Type := mkContent {
  c_links : option AssetLinks;
  c_json_uri : option string;
  c_files : option (list AssetFile);
  c_metadata : option AssetNames
}.

(** What an asset carries besides its id; [b_metadata_address] is
    [mint_extensions?.metadata_pointer?.metadata_address], [b_compressed] is
    [compression?.compressed]. *)
Record AssetBody : Type := mkBody {
  b_interface : string;
  b_compressed : option bool;
  b_content : option AssetContent;
  b_metadata_address : option string
}.

Definition Asset : Type := HeliusAsset AssetBody.

(** [asset?.content?.links?.image] *)
Definition linkImage (a : Asset) : option string :=
  andThen (andThen (b_content (content a)) c_links) links_image.

(** [asset?.content?.metadata?.name] *)
Definition contentName (a : Asset) : option string :=
  andThen (andThen (b_content (content a)) c_metadata) names_name.

(** [asset?.content?.metadata?.symbol] *)
Definition contentSymbol (a : Asset) : option string :=
  andThen (andThen (b_content (content a)) c_metadata) names_symbol.

(** [asset?.content?.json_uri] *)
Definition contentJsonUri (a : Asset) : option string :=
  andThen (b_content (content a)) c_json_uri.

(** Prefer CDN, then direct file, then links.image. *)
Definition pickImageFromHeliusAsset (asset : Asset) : option string :=
  let files :=
    match andThen (b_content (content asset)) c_files with
    | Some fs => fs
    | None => []
    end in
  let cdn := andThen (List.find (fun f => truthy (file_cdn_uri f)) files) file_cdn_uri in
  let file := andThen (List.find (fun f => truthy (file_uri f)) files) file_uri in
  let link := linkImage asset in
  ipfsToHttp (or_else (or_else cdn file) link).

(** ** Looking for a URI in account data *)

Definition needles : list (list Byte.byte) :=
  map list_byte_of_string ["https://"; "http://"; "ipfs://"].

Definition isPrintable (b : Byte.byte) : bool :=
  (32 <=? Byte.to_N b)%N && (Byte.to_N b <=? 126)%N.

(** The comparison of the inner loop: [n] is read in [u] from its start. *)
Fixpoint matchesAt (n u : list Byte.byte) : bool :=
  match n, u with
  | [], _ => true
  | x :: n', y :: u' => Byte.eqb x y && matchesAt n' u'
  | _ :: _, [] => false
  end.

(** The loop labelled [outer]: the first index at which [n] is read. *)
Fixpoint indexOfBytes (n u : list Byte.byte) : option nat :=
  if matchesAt n u then Some 0%nat
  else
    match u with
    | [] => None
    | _ :: rest =>
        match indexOfBytes n rest with
        | Some i => Some (S i)
        | None => None
        end
    end.

(** [for (const n of needles)]: the index found for the first needle that
    is found at all. *)
Fixpoint findStart (ns : list (list Byte.byte)) (u : list Byte.byte) : option nat :=
  match ns with
  | [] => None
  | n :: rest =>
      match indexOfBytes n u with
      | Some i => Some i
      | None => findStart rest u
      end
  end.

(** The test that ends the copy: not printable, a quote, or a space. *)
Definition endsUri (b : Byte.byte) : bool :=
  negb (isPrintable b)
  || (Byte.to_N b =? 34)%N || (Byte.to_N b =? 39)%N || (Byte.to_N b =? 32)%N.

Fixpoint takeUri (u : list Byte.byte) : list Byte.byte :=
  match u with
  | [] => []
  | b :: rest => if endsUri b then [] else b :: takeUri rest
  end.

(** [n] occurs somewhere in [u]. *)
Definition occursIn (n u : list Byte.byte) : Prop :=
  exists pre post, u = pre ++ n ++ post.

Definition extractUriBytes (u8 : list Byte.byte) : option (list Byte.byte) :=
  match findStart needles u8 with
  | None => None
  | Some start => Some (takeUri (skipn start u8))
  end.

Definition extractUriFromBytes (u8 : list Byte.byte) : option string :=
  match extractUriBytes u8 with
  | Some bytes => Some (string_of_list_byte bytes)
  | None => None
  end.

(** ** Fetching *)

(** The fields the code reads in a fetched JSON document; they are strings
    when present. *)
Record JsonDoc : Type := mkJson {
  j_image : option string;
  j_image_url : option string;
  j_properties_image : option string;
  j_name : option string;
  j_symbol : option string;
  j_animation_url : option string
}.

Record HttpResponse : Type := mkResponse {
  resp_ok : bool;
  resp_status : N;
  resp_json : Outcome JsonDoc
}.

Inductive MetaCall : Type :=
| CallFetch (url : string)
| CallReadAccount (address : string).

(** [httpGet] is [fetch] with its timeout; [readAccountData] is
    [connection.getAccountInfo(new PublicKey(address))], giving the data of
    the account when it exists. *)
Record MetaEnv (World : Type) : Type := mkMetaEnv {
  httpGet : string -> World -> Outcome HttpResponse * World;
  readAccountData : string -> World -> Outcome (option (list Byte.byte)) * World
}.
Arguments httpGet {World} _ _ _.
Arguments readAccountData {World} _ _ _.

Record ResolvedNftMeta : Type := mkMeta {
  image : option string;
  name : option string;
  symbol : option string;
  animationUrl : option string;
  jsonUri : option string
}.

Section Resolve.
Context {World : Type}.
Variable env : MetaEnv World.

Record MetaSt : Type := mkMetaSt {
  m_world : World;
  m_calls : list MetaCall
}.

Definition MM (A : Type) : Type := MetaSt -> Outcome A * MetaSt.

Definition retM {A} (a : A) : MM A := fun st => (Returns a, st).
Definition throwM {A} (e : JsValue) : MM A := fun st => (Throws e, st).

Definition bindM {A B} (m : MM A) (k : A -> MM B) : MM B :=
  fun st =>
    match m st with
    | (Returns a, st') => k a st'
    | (Throws e, st') => (Throws e, st')
    end.

Definition tryM {A} (m : MM A) (h : JsValue -> MM A) : MM A :=
  fun st =>
    match m st with
    | (Returns a, st') => (Returns a, st')
    | (Throws e, st') => h e st'
    end.

Definition liftM {A} (o : Outcome A) : MM A :=
  match o with
  | Returns a => retM a
  | Throws e => throwM e
  end.

Definition callM {A} (c : MetaCall) (f : World -> Outcome A * World) : MM A :=
  fun st =>
    let '(o, w) := f (m_world st) in
    (o, mkMetaSt w (m_calls st ++ [c])).

Definition fetchJson (url : string) : MM JsonDoc :=
  bindM (callM (CallFetch (ipfsToHttpS url)) (httpGet env (ipfsToHttpS url)))
        (fun r =>
           if negb (resp_ok r)
           then throwM (mkError ("HTTP " +:+ pretty (resp_status r)))
           else liftM (resp_json r)).

(** [ipfsToHttp(j?.image ?? j?.image_url ?? j?.properties?.image)] *)
Definition jsonImage (j : JsonDoc) : option string :=
  ipfsToHttp (nullish_or (j_image j) (nullish_or (j_image_url j) (j_properties_image j))).

(** The attempt on [content.json_uri]: [None] when it does not return. *)
Definition viaJsonUri (imageFast nameFast symbolFast : option string)
    (jsonUriFast : string) : MM (option ResolvedNftMeta) :=
  tryM
    (bindM (fetchJson jsonUriFast)
       (fun j =>
          let image := jsonImage j in
          let name := nullish_or (j_name j) nameFast in
          let symbol := nullish_or (j_symbol j) symbolFast in
          let animationUrl := ipfsToHttp (j_animation_url j) in
          if truthy image || truthy name || truthy symbol || truthy animationUrl
          then retM (Some (mkMeta (nullish_or image imageFast)
                                  (nullish_or name nameFast)
                                  (nullish_or symbol symbolFast)
                                  animationUrl (Some jsonUriFast)))
          else retM None))
    (fun _ => retM None).

(** The attempt on the Token-2022 metadata pointer. *)
Definition viaMetadataPointer (imageFast nameFast symbolFast : option string)
    (metaAddr : string) : MM (option ResolvedNftMeta) :=
  tryM
    (bindM (callM (CallReadAccount metaAddr) (readAccountData env metaAddr))
       (fun info =>
          match info with
          | Some (b :: data) =>
              match extractUriFromBytes (b :: data) with
              | Some uri =>
                  if negb (String.eqb uri "") then
                    bindM (fetchJson uri)
                      (fun j =>
                         let image := jsonImage j in
                         let name := nullish_or (j_name j) nameFast in
                         let symbol := nullish_or (j_symbol j) symbolFast in
                         let animationUrl := ipfsToHttp (j_animation_url j) in
                         retM (Some (mkMeta (nullish_or image imageFast) name symbol
                                            animationUrl (Some uri))))
                  else retM None
              | None => retM None
              end
          | _ => retM None
          end))
    (fun _ => retM None).

Definition resolveNftMeta (asset : Asset) : MM ResolvedNftMeta :=
  let imageFast := pickImageFromHeliusAsset asset in
  let nameFast := contentName asset in
  let symbolFast := contentSymbol asset in
  let jsonUriFast := contentJsonUri asset in
  let fallback := mkMeta imageFast nameFast symbolFast None jsonUriFast in
  if truthy imageFast && truthy nameFast && truthy symbolFast then retM fallback
  else
    bindM (match jsonUriFast with
           | Some uri =>
               if truthy jsonUriFast
               then viaJsonUri imageFast nameFast symbolFast uri
               else retM None
           | None => retM None
           end)
      (fun first =>
         match first with
         | Some r => retM r
         | None =>
             bindM (match b_metadata_address (content asset) with
                    | Some metaAddr =>
                        if truthy (b_metadata_address (content asset))
                        then viaMetadataPointer imageFast nameFast symbolFast metaAddr
                        else retM None
                    | None => retM None
                    end)
               (fun second =>
                  match second with
                  | Some r => retM r
                  | None => retM fallback
                  end)
         end).

(** ** The enrichment of one asset (use-nft-enrichment.ts) *)

Definition emptyContent : AssetContent := mkContent None None None None.

Definition enrichOne (a : Asset) : MM Asset :=
  tryM
    (bindM (resolveNftMeta a)
       (fun meta =>
          let image := nullish_or (image meta) (linkImage a) in
          let name := nullish_or (name meta) (contentName a) in
          let json := nullish_or (jsonUri meta) (contentJsonUri a) in
          if negb (truthy image) && negb (truthy name) && negb (truthy json)
          then retM a
          else
            let old :=
              match b_content (content a) with
              | Some c => c
              | None => emptyContent
              end in
            let oldNames :=
              match c_metadata old with
              | Some m => m
              | None => mkNames None None
              end in
            let oldLinks :=
              match c_links old with
              | Some l => l
              | None => mkLinks None
              end in
            retM (mkAsset (id a)
                    (mkBody (b_interface (content a)) (b_compressed (content a))
                       (Some (mkContent
                                (Some (mkLinks (if truthy image then image
                                                else links_image oldLinks)))
                                json
                                (c_files old)
                                (Some (mkNames (if truthy name then name
                                                else names_name oldNames)
                                               (names_symbol oldNames)))))
                       (b_metadata_address (content a))))))
    (fun _ => retM a).
End Resolve.

(** A call that fetches does not fetch an ipfs:// URL. *)
Definition httpOnly (c : MetaCall) : Prop :=
  match c with
  | CallFetch url => String.prefix "ipfs://" url = false
  | CallReadAccount _ => True
  end.

(** An address, when there is one, does not begin with ipfs://. *)
Definition noIpfs (o : option string) : Prop :=
  forall s, o = Some s -> String.prefix "ipfs://" s = false.

(** ** useHeliusAssets: tokens on one side, NFTs on the other *)

Definition isFungible (a : Asset) : bool :=
  String.eqb (b_interface (content a)) "FungibleToken".

Definition splitAssets (items : list Asset) : list Asset * list Asset :=
  (List.filter isFungible items,
   List.filter (fun a => negb (isFungible a)) items).

(** ** The screen: what is selected, and what is sent to the burn *)

(** An NFT as the screen reads it. *)
Record ParsedNft : Type := mkParsed {
  n_id : string;
  n_isCompressed : option bool;
  n_associatedTokenAddress : option string;
  n_tokenStandard : option string;
  n_frozen : option bool;
  n_isCore : option bool;
  n_tokenProgramAddress : option string;
  n_collection : option string
}.

(** [x === true] *)
Definition isTrue (b : option bool) : bool :=
  match b with Some true => true | _ => false end.

(** [s === literal] *)
Definition isString (s : option string) (literal : string) : bool :=
  match s with Some x => String.eqb x literal | None => false end.

Definition toBurnItem (n : ParsedNft) : NftBurnItem :=
  mkItem (n_id n)
         (if truthy (n_associatedTokenAddress n)
          then n_associatedTokenAddress n else None)
         (n_isCompressed n)
         (Some (isString (n_tokenStandard n) "ProgrammableNonFungible"))
         (Some (isTrue (n_isCore n)))
         (Some (if isString (n_tokenProgramAddress n)
                            "TokenzQdYGrDSDXi6MNLxwZenoJBNb8wDgib6A5nSJ8"
                then TOKEN_2022_PROGRAM_ID else TOKEN_PROGRAM_ID))
         (Some (isTrue (n_frozen n)))
         (if truthy (n_collection n) then n_collection n else None).

(** [selectedIds.includes(id)] *)
Definition includesId (ids : list string) (i : string) : bool :=
  existsb (String.eqb i) ids.

Definition selectedToBurn (isCnftTab : bool) (all : list ParsedNft)
    (selectedIds : list string) : list NftBurnItem :=
  let nfts := List.filter (fun n => negb (flag (n_isCompressed n))) all in
  if negb isCnftTab
  then map toBurnItem (List.filter (fun n => includesId selectedIds (n_id n)) nfts)
  else [].

Definition toggleSelect (prev : list string) (i : string) : list string :=
  if includesId prev i
  then List.filter (fun x => negb (String.eqb x i)) prev
  else prev ++ [i].
End Meta.

(** ** More scripted environments and sample data *)

Module Scenes.
Import Script.

(** Like [scriptedEnv] with every simulation accepted, and with a say on
    the blockhash, on what the wallet does with the options it is given,
    and on the Core collection. *)
Definition sceneEnv
    (accountOwner : PublicKey -> option PublicKey)
    (blockhash : Outcome BlockhashCtx)
    (wallet : option SendTxOpts -> Outcome string)
    (asset : Outcome CoreAsset)
    (collection : Outcome CoreCollection) : Env unit :=
  {| getAccountInfo := fun addr _ w =>
       (Returns (option_map mkAccountInfo (accountOwner addr)), w);
     getLatestBlockhashAndContext := fun _ w => (blockhash, w);
     simulateTransaction := fun tx w => (Returns (simAccepts tx), w);
     walletSignAndSend := fun _ _ opts w => (wallet opts, w);
     compileError := fun _ => None;
     getAssociatedTokenAddress := fun mint _ _ _ => Returns ("ata:" +:+ mint);
     coreFetchAsset := fun _ w => (asset, w);
     coreFetchCollection := fun _ w => (collection, w);
     coreBurn := fun _ a _ => Returns [IxLibrary "mpl-core" [ca_key a]];
     findMetadataPda := fun m => "metadata:" +:+ m;
     findMasterEditionPda := fun m => "edition:" +:+ m;
     findTokenRecordPda := fun m t => "record:" +:+ m;
     umiGetAccount := fun _ w => (Throws (JsString "no such account"), w);
     fetchMetadata := fun _ w => (Returns (mkMetadata None), w);
     umiPk := fun s => Returns s;
     burnV1 := fun _ i => Returns [IxLibrary "tm-burn" [tm_mint i]];
     unlockV1 := fun _ i => Returns [IxLibrary "tm-unlock" [tm_mint i]] |}.

Definition freshBlockhash : Outcome BlockhashCtx := Returns (mkCtx 7 "hash").

Definition alwaysSigns : option SendTxOpts -> Outcome string :=
  fun _ => Returns "sig".

(** The wallet refuses a request that comes with options and signs the
    same request without. *)
Definition pickyWallet : option SendTxOpts -> Outcome string :=
  fun opts =>
    match opts with
    | Some _ => Throws (mkError "options not supported")
    | None => Returns "sig"
    end.

Definition noCollection : Outcome CoreCollection :=
  Throws (mkError "collection not found").

Definition pickyWalletEnv : Env unit :=
  sceneEnv classicOwner freshBlockhash pickyWallet noAsset noCollection.

(** The node refuses the connection when it is asked for a blockhash. *)
Definition rejectedBlockhashEnv : Env unit :=
  sceneEnv classicOwner (Throws (mkError "Connection rejected by peer"))
           alwaysSigns noAsset noCollection.

(** A Core asset in a collection that cannot be fetched. *)
Definition lostCollectionEnv : Env unit :=
  sceneEnv classicOwner freshBlockhash alwaysSigns
           (Returns (mkCoreAsset "core1" (Some "coll1"))) noCollection.

(** No account exists. *)
Definition emptyChainEnv : Env unit :=
  sceneEnv (fun _ => None) freshBlockhash alwaysSigns noAsset noCollection.

(** Only the mint accounts exist: an address that begins with "ata:" is
    not on the chain. *)
Definition mintsOnlyEnv : Env unit :=
  sceneEnv (fun a => if String.prefix "ata:" a then None else Some TOKEN_PROGRAM_ID)
           freshBlockhash alwaysSigns noAsset noCollection.

(** A chain on which every asset is a pNFT with a rule set: the token
    record exists, the metadata names a rule set, and the library builds a
    burn that tells whether it was given the rules.  Every simulation is
    accepted. *)
Definition pnftEnv : Env unit :=
  {| getAccountInfo := fun addr _ w => (Returns (Some (mkAccountInfo TOKEN_PROGRAM_ID)), w);
     getLatestBlockhashAndContext := fun _ w => (freshBlockhash, w);
     simulateTransaction := fun tx w => (Returns (simAccepts tx), w);
     walletSignAndSend := fun _ _ _ w => (Returns "sig", w);
     compileError := fun _ => None;
     getAssociatedTokenAddress := fun mint _ _ _ => Returns ("ata:" +:+ mint);
     coreFetchAsset := fun _ w => (noAsset, w);
     coreFetchCollection := fun _ w => (noCollection, w);
     coreBurn := fun _ a _ => Returns [IxLibrary "mpl-core" [ca_key a]];
     findMetadataPda := fun m => "metadata:" +:+ m;
     findMasterEditionPda := fun m => "edition:" +:+ m;
     findTokenRecordPda := fun m t => "record:" +:+ m;
     umiGetAccount := fun _ w => (Returns (mkMaybeAccount true), w);
     fetchMetadata := fun _ w => (Returns (mkMetadata (Some "rules")), w);
     umiPk := fun s => Returns s;
     burnV1 := fun _ i =>
       Returns [IxLibrary (match tm_authorizationRules i with
                           | Some _ => "burn+rules"
                           | None => "burn"
                           end) [tm_mint i]];
     unlockV1 := fun _ i => Returns [IxLibrary "unlock" [tm_mint i]] |}.

(** What the pNFT builder yields on that chain for the mint [m]. *)
Definition builtVariants (m : PublicKey) : PnftVariants :=
  mkPnftVariants [IxLibrary "burn" [m]]
                 [IxLibrary "unlock" [m]; IxLibrary "burn" [m]]
                 (Some [IxLibrary "burn+rules" [m]])
                 (Some [IxLibrary "unlock" [m]; IxLibrary "burn+rules" [m]]).

(** An asset that names its holding account but not its token program. *)
Definition heldItem (m : PublicKey) : NftBurnItem :=
  mkItem m (Some ("ata:" +:+ m)) None None None None None None.

Definition sevenCore : list PreparedItem :=
  map (fun m => mkPrepared m [IxLibrary "mpl-core" [m]] core)
      ["a1"; "a2"; "a3"; "a4"; "a5"; "a6"; "a7"].

Definition twoCompressed : list NftBurnItem :=
  [compressedItem "c1"; compressedItem "c2"].

Import Meta.

(** No network: every fetch throws, and no account is found. *)
Definition offlineEnv : MetaEnv unit :=
  {| httpGet := fun _ w => (Throws (JsString "offline"), w);
     readAccountData := fun _ w => (Returns None, w) |}.

Definition metaSt0 : @MetaSt unit := mkMetaSt tt [].

(** An asset with two files, the second one with a CDN address, a link
    image, a name and a symbol. *)
Definition fullAsset : Asset :=
  mkAsset "nft1"
    (mkBody "V1_NFT" None
       (Some (mkContent
                (Some (mkLinks (Some "ipfs://link")))
                (Some "https://host/meta.json")
                (Some [mkFile (Some "https://host/a.png") None None;
                       mkFile None (Some "ipfs://cdn") None])
                (Some (mkNames (Some "Ape") (Some "APE")))))
       None).

Definition coin : Asset := mkAsset "coin1" (mkBody "FungibleToken" None None None).

(** Account data with an address in the middle. *)
Definition sampleData : list Byte.byte :=
  list_byte_of_string "junk https://host/a.json tail".

Definition parsedPlain : ParsedNft :=
  mkParsed "n1" (Some false) (Some "ata1") (Some "NonFungible") None None
           (Some "TokenzQdYGrDSDXi6MNLxwZenoJBNb8wDgib6A5nSJ8") None.

Definition parsedCompressed : ParsedNft :=
  mkParsed "n2" (Some true) None None None None None None.
End Scenes.

Section WpRules.
Context {World : Type}.
Implicit Types st : St World.

Lemma wp_ret {A} (a : A) (Q : Outcome A -> St World -> Prop) st :
  Q (Returns a) st -> wp (ret a) Q st.
Proof. intros HQ o st' Hrun. inversion Hrun; subst. exact HQ. Qed.

Lemma wp_throw {A} e (Q : Outcome A -> St World -> Prop) st :
  Q (Throws e) st -> wp (throw e) Q st.
Proof. intros HQ o st' Hrun. inversion Hrun; subst. exact HQ. Qed.

Lemma wp_lift {A} (o : Outcome A) (Q : Outcome A -> St World -> Prop) st :
  Q o st -> wp (lift o) Q st.
Proof. destruct o; [apply wp_ret | apply wp_throw]. Qed.

Lemma wp_bind {A B} (m : M World A) (k : A -> M World B)
    (Q : Outcome B -> St World -> Prop) st :
  wp m (fun o st1 =>
          match o with
          | Returns a => wp (k a) Q st1
          | Throws e => Q (Throws e) st1
          end) st ->
  wp (bind m k) Q st.
Proof.
  intros Hm o st' Hrun. unfold bind in Hrun.
  destruct (m st) as [[[a | e] st1] |] eqn:Em; try discriminate.
  - exact (Hm _ _ Em _ _ Hrun).
  - inversion Hrun; subst. exact (Hm _ _ Em).
Qed.

Lemma wp_try_catch {A} (m : M World A) (h : JsValue -> M World A)
    (Q : Outcome A -> St World -> Prop) st :
  wp m (fun o st1 =>
          match o with
          | Returns a => Q (Returns a) st1
          | Throws e => wp (h e) Q st1
          end) st ->
  wp (try_catch m h) Q st.
Proof.
  intros Hm o st' Hrun. unfold try_catch in Hrun.
  destruct (m st) as [[[a | e] st1] |] eqn:Em; try discriminate.
  - inversion Hrun; subst. exact (Hm _ _ Em).
  - exact (Hm _ _ Em _ _ Hrun).
Qed.

Lemma wp_call {A} c (f : World -> Outcome A * World)
    (Q : Outcome A -> St World -> Prop) st :
  (forall o w, f (world st) = (o, w) ->
               Q o (mkSt w (calls st ++ [c]) (skipped st) (prepared st))) ->
  wp (call c f) Q st.
Proof.
  intros HQ o st' Hrun. unfold call in Hrun.
  destruct (f (world st)) as [o1 w] eqn:Ef.
  inversion Hrun; subst. apply HQ. reflexivity.
Qed.

Lemma wp_mono {A} (m : M World A) (Q Q' : Outcome A -> St World -> Prop) st :
  wp m Q st -> (forall o st', Q o st' -> Q' o st') -> wp m Q' st.
Proof. intros Hm Himp o st' Hrun. apply Himp, (Hm _ _ Hrun). Qed.

Lemma wp_run {A} (m : M World A) Q st o st' :
  wp m Q st -> m st = Some (o, st') -> Q o st'.
Proof. intros Hm Hrun. exact (Hm _ _ Hrun). Qed.

(** *** Relations every step of a computation respects *)

Section Respects.
Context (R : St World -> St World -> Prop) `{!StateOrder R}.

Lemma respects_ret {A} (a : A) : respects R (ret a).
Proof. intros st. apply wp_ret, order_refl. Qed.

Lemma respects_throw {A} e : respects R (@throw World A e).
Proof. intros st. apply wp_throw, order_refl. Qed.

Lemma respects_lift {A} (o : Outcome A) : respects R (lift o).
Proof. intros st. apply wp_lift, order_refl. Qed.

Lemma respects_call {A} c (f : World -> Outcome A * World) :
  respects R (call c f).
Proof. intros st. apply wp_call. intros. apply order_call. Qed.

Lemma respects_bind {A B} (m : M World A) (k : A -> M World B) :
  respects R m -> (forall a, respects R (k a)) -> respects R (bind m k).
Proof.
  intros Hm Hk st. apply wp_bind.
  eapply wp_mono; [apply Hm |]. intros [a | e] st1 H1; [| exact H1].
  eapply wp_mono; [apply Hk |]. intros o st2 H2.
  exact (order_trans _ _ _ H1 H2).
Qed.

Lemma respects_try_catch {A} (m : M World A) (h : JsValue -> M World A) :
  respects R m -> (forall e, respects R (h e)) -> respects R (try_catch m h).
Proof.
  intros Hm Hh st. apply wp_try_catch.
  eapply wp_mono; [apply Hm |]. intros [a | e] st1 H1; [exact H1 |].
  eapply wp_mono; [apply Hh |]. intros o st2 H2.
  exact (order_trans _ _ _ H1 H2).
Qed.
End Respects.

#[export] Instance sameLocals_order : StateOrder (@sameLocals World).
Proof.
  split.
  - intros st; split; reflexivity.
  - intros st1 st2 st3 [H1 H2] [H3 H4]; split; congruence.
  - intros st c w; split; reflexivity.
Qed.

#[export] Instance skippedGrows_order : StateOrder (@skippedGrows World).
Proof.
  split.
  - intros st. exists []. symmetry. apply app_nil_r.
  - intros st1 st2 st3 [m1 H1] [m2 H2]. exists (m1 ++ m2).
    rewrite H2, H1. symmetry. apply app_assoc.
  - intros st c w. exists []. simpl. symmetry. apply app_nil_r.
Qed.

Lemma respects_push_skipped_grows s : respects skippedGrows (@push_skipped World s).
Proof.
  intros st o st' Hrun. inversion Hrun; subst. exists [s]. reflexivity.
Qed.

Lemma respects_push_prepared_grows p : respects skippedGrows (@push_prepared World p).
Proof.
  intros st o st' Hrun. inversion Hrun; subst. exists []. simpl.
  symmetry. apply app_nil_r.
Qed.

(** *** Totality *)

Lemma total_ret {A} (a : A) : total (@ret World A a).
Proof. intros st. eexists _, _. reflexivity. Qed.

Lemma total_throw {A} e : total (@throw World A e).
Proof. intros st. eexists _, _. reflexivity. Qed.

Lemma total_lift {A} (o : Outcome A) : total (@lift World A o).
Proof. destruct o; [apply total_ret | apply total_throw]. Qed.

Lemma total_call {A} c (f : World -> Outcome A * World) : total (call c f).
Proof.
  intros st. unfold call. destruct (f (world st)) as [o w].
  eexists _, _. reflexivity.
Qed.

Lemma total_bind {A B} (m : M World A) (k : A -> M World B) :
  total m -> (forall a, total (k a)) -> total (bind m k).
Proof.
  intros Hm Hk st. unfold bind.
  destruct (Hm st) as ([a | e] & st1 & ->).
  - apply Hk.
  - eexists _, _. reflexivity.
Qed.

Lemma total_try_catch {A} (m : M World A) (h : JsValue -> M World A) :
  total m -> (forall e, total (h e)) -> total (try_catch m h).
Proof.
  intros Hm Hh st. unfold try_catch.
  destruct (Hm st) as ([a | e] & st1 & ->).
  - eexists _, _. reflexivity.
  - apply Hh.
Qed.

Lemma total_push_skipped s : total (@push_skipped World s).
Proof. intros st. eexists _, _. reflexivity. Qed.

Lemma total_push_prepared p : total (@push_prepared World p).
Proof. intros st. eexists _, _. reflexivity. Qed.
End WpRules.

(** One step of a proof that a computation respects a state order. *)
Ltac respects_step :=
  lazymatch goal with
  | |- respects _ (bind _ _) =>
      apply respects_bind; try exact _; [| intros ?]
  | |- respects _ (try_catch _ _) =>
      apply respects_try_catch; try exact _; [| intros ?]
  | |- respects _ (ret _) => apply respects_ret; exact _
  | |- respects _ (throw _) => apply respects_throw; exact _
  | |- respects _ (lift _) => apply respects_lift; exact _
  | |- respects _ (call _ _) => apply respects_call; exact _
  | |- respects _ (match ?x with _ => _ end) => destruct x
  end.

Ltac respects_auto := cbv zeta; repeat (first [assumption | respects_step]); eauto.

(** One step of a proof that a computation ends. *)
Ltac total_step :=
  lazymatch goal with
  | |- total (bind _ _) => apply total_bind; [| intros ?]
  | |- total (try_catch _ _) => apply total_try_catch; [| intros ?]
  | |- total (ret _) => apply total_ret
  | |- total (throw _) => apply total_throw
  | |- total (lift _) => apply total_lift
  | |- total (call _ _) => apply total_call
  | |- total (push_skipped _) => apply total_push_skipped
  | |- total (push_prepared _) => apply total_push_prepared
  | |- total (match ?x with _ => _ end) => destruct x
  end.

Ltac total_auto := cbv zeta; repeat (first [assumption | total_step]); eauto.

(** * Properties of the helpers *)

Section Helpers.
Context {World : Type}.
Variable env : Env World.
Implicit Types st : St World.

Lemma includes_needle (s : string) :
  (includes s "VersionedTransaction too large" ||
   includes s "solana_transaction::versioned::VersionedTransaction too large" ||
   includes s "transaction too large" ||
   includes s "Transaction too large" ||
   includes s "packet too large" ||
   includes s "encoded/raw") = true <->
  exists needle, In needle too_large_needles /\ includes s needle = true.
Proof.
  split.
  - intros H. repeat (apply orb_prop in H; destruct H as [H | H]);
      (eexists; split; [| exact H]); simpl; tauto.
  - intros (needle & Hin & Hinc). simpl in Hin.
    repeat (destruct Hin as [<- | Hin]; [rewrite Hinc; repeat rewrite orb_true_r; reflexivity |]).
    destruct Hin.
Qed.

Lemma isTooLargeErr_iff (err : JsValue) :
  isTooLargeErr err = true <->
  exists needle, In needle too_large_needles /\ includes (stringifyErr err) needle = true.
Proof. unfold isTooLargeErr. cbv zeta. apply includes_needle. Qed.

(** *** Frame and termination of the helpers *)

Section Order.
Context (R : St World -> St World -> Prop) `{!StateOrder R}.

Lemma signAndSendTransaction_respects tx slot opts :
  respects R (signAndSendTransaction env tx slot opts).
Proof. unfold signAndSendTransaction. respects_auto. Qed.

Lemma getMintProgramId_respects m : respects R (getMintProgramId env m).
Proof. unfold getMintProgramId. respects_auto. Qed.

Lemma resolveAta_respects m o p : respects R (resolveAtaByMintProgram env m o p).
Proof. unfold resolveAtaByMintProgram. respects_auto. Qed.

Lemma compileTx_respects o b ixs : respects R (compileTx env o b ixs).
Proof. unfold compileTx. respects_auto. Qed.

Lemma simulateIxs_respects owner ixs label :
  respects R (simulateIxs env owner ixs label).
Proof.
  unfold simulateIxs. respects_auto. apply compileTx_respects.
Qed.
End Order.

Lemma compileTx_total o b ixs : total (compileTx env o b ixs).
Proof. unfold compileTx. total_auto. Qed.

Lemma simulateIxs_total owner ixs label : total (simulateIxs env owner ixs label).
Proof. unfold simulateIxs. total_auto. apply compileTx_total. Qed.

Lemma simulateIxs_noThrow owner ixs label :
  noThrow (simulateIxs env owner ixs label).
Proof.
  intros st. unfold simulateIxs. apply wp_try_catch.
  intros [r | e] st1 _; [eauto |]. apply wp_ret. eauto.
Qed.

(** [simulateIxs] always hands back a result. *)
Lemma simulateIxs_returns owner ixs label st :
  exists r st', simulateIxs env owner ixs label st = Some (Returns r, st').
Proof.
  destruct (simulateIxs_total owner ixs label st) as (o & st' & Hrun).
  destruct (simulateIxs_noThrow owner ixs label st _ _ Hrun) as [r ->].
  eauto.
Qed.

(** What a failed simulation carries. *)
Lemma simulateIxs_fail_shape owner ixs label st err errStr logs st' :
  simulateIxs env owner ixs label st = Some (Returns (SimFail err errStr logs), st') ->
  errStr = Some (stringifyErr err) /\
  (logs = None \/
   exists tx w w' sim,
     simulateTransaction env tx w = (Returns sim, w') /\
     err = sim_err sim /\ js_truthy err = true /\
     logs = Some (match sim_logs sim with Some l => l | None => [] end)).
Proof.
  unfold simulateIxs, try_catch, bind, call, compileTx, ret, throw. cbv zeta.
  destruct (getLatestBlockhashAndContext env Processed (world st))
    as [[ctx | e] w1] eqn:Eb; simpl.
  - destruct (compileError env _) as [e |]; simpl.
    + intros H; inversion H; subst. auto.
    + destruct (simulateTransaction env _ w1) as [[sim | e] w2] eqn:Es; simpl.
      * destruct (js_truthy (sim_err sim)) eqn:Et; simpl;
          intros H; inversion H; subst.
        split; [reflexivity |]. right. eauto 10.
      * intros H; inversion H; subst. auto.
  - intros H; inversion H; subst. auto.
Qed.
End Helpers.

(** * The simulator (claim C5) *)

(** C5, counterexample: a failed simulation that reported thirteen log lines
    hands all thirteen back, not the last twelve. *)
Lemma simulateIxs_keeps_every_log_line :
  exists err errStr logs st',
    simulateIxs Script.chattyEnv "owner" [] "probe" Script.st0
    = Some (Returns (SimFail err errStr (Some logs)), st') /\
    length logs = 13 /\ ~ (length logs <= 12).
Proof.
  eexists _, _, _, _. split; [vm_compute; reflexivity |].
  split; [reflexivity | vm_compute; lia].
Qed.

(** C5, as the code has it: [simulateIxs] never throws and always hands back
    a result, and the result is fixed by what the chain answers.  When the
    fetch of the blockhash, the compilation of the transaction or the
    simulation itself throws, the result is a failure that carries the
    thrown value, its text and no log.  When the simulation answers with an
    error, the result is a failure that carries that error, its text and
    every log line of that answer (none when it reports no log); when it
    answers without an error the result is a success.  The text of a
    failure counts as oversized exactly when it contains one of the six
    known phrasings. *)
Theorem simulateIxs_total_and_classified :
  forall (World : Type) (env : Env World) (owner : PublicKey)
         (ixs : list TransactionInstruction) (label : string) (st : St World),
    (exists r st', simulateIxs env owner ixs label st = Some (Returns r, st')) /\
    (forall e w1,
        getLatestBlockhashAndContext env Processed (world st) = (Throws e, w1) ->
        simulateIxs env owner ixs label st
        = Some (Returns (SimFail e (Some (stringifyErr e)) None),
                mkSt w1 (calls st ++ [CallGetLatestBlockhash Processed])
                     (skipped st) (prepared st))) /\
    (forall ctx w1 e,
        getLatestBlockhashAndContext env Processed (world st) = (Returns ctx, w1) ->
        compileError env (mkMessage owner (ctx_blockhash ctx) ixs) = Some e ->
        simulateIxs env owner ixs label st
        = Some (Returns (SimFail e (Some (stringifyErr e)) None),
                mkSt w1 (calls st ++ [CallGetLatestBlockhash Processed])
                     (skipped st) (prepared st))) /\
    (forall ctx w1 e w2,
        getLatestBlockhashAndContext env Processed (world st) = (Returns ctx, w1) ->
        compileError env (mkMessage owner (ctx_blockhash ctx) ixs) = None ->
        simulateTransaction env (mkMessage owner (ctx_blockhash ctx) ixs) w1
        = (Throws e, w2) ->
        simulateIxs env owner ixs label st
        = Some (Returns (SimFail e (Some (stringifyErr e)) None),
                mkSt w2 (calls st
                           ++ [CallGetLatestBlockhash Processed;
                               CallSimulateTransaction
                                 (mkMessage owner (ctx_blockhash ctx) ixs)])
                     (skipped st) (prepared st))) /\
    (forall ctx w1 sim w2,
        getLatestBlockhashAndContext env Processed (world st) = (Returns ctx, w1) ->
        compileError env (mkMessage owner (ctx_blockhash ctx) ixs) = None ->
        simulateTransaction env (mkMessage owner (ctx_blockhash ctx) ixs) w1
        = (Returns sim, w2) ->
        simulateIxs env owner ixs label st
        = Some (Returns (if js_truthy (sim_err sim)
                         then SimFail (sim_err sim)
                                      (Some (stringifyErr (sim_err sim)))
                                      (Some (match sim_logs sim with
                                             | Some l => l
                                             | None => []
                                             end))
                         else SimOk),
                mkSt w2 (calls st
                           ++ [CallGetLatestBlockhash Processed;
                               CallSimulateTransaction
                                 (mkMessage owner (ctx_blockhash ctx) ixs)])
                     (skipped st) (prepared st))) /\
    (forall err errStr logs st',
        simulateIxs env owner ixs label st
        = Some (Returns (SimFail err errStr logs), st') ->
        errStr = Some (stringifyErr err) /\
        (simOversized (SimFail err errStr logs) = true <->
         exists needle,
           In needle too_large_needles /\
           includes (stringifyErr err) needle = true)).
Proof.
  intros World env owner ixs label st.
  split; [apply simulateIxs_returns |].
  split; [| split; [| split; [| split]]].
  - intros e w1 Hhash.
    unfold simulateIxs, try_catch, bind, call. rewrite Hhash. reflexivity.
  - intros ctx w1 e Hhash Hcompile.
    unfold simulateIxs, try_catch, bind, call, compileTx. cbv zeta.
    rewrite Hhash. cbn [ctx_blockhash world]. rewrite Hcompile. reflexivity.
  - intros ctx w1 e w2 Hhash Hcompile Hsim.
    unfold simulateIxs, try_catch, bind, call, compileTx. cbv zeta.
    rewrite Hhash. cbn [ctx_blockhash world]. rewrite Hcompile.
    unfold ret. cbn [world]. rewrite Hsim. cbn [calls skipped prepared].
    rewrite <- app_assoc. reflexivity.
  - intros ctx w1 sim w2 Hhash Hcompile Hsim.
    unfold simulateIxs, try_catch, bind, call, compileTx. cbv zeta.
    rewrite Hhash. cbn [ctx_blockhash world]. rewrite Hcompile.
    unfold ret. cbn [world]. rewrite Hsim. cbn [calls skipped prepared].
    rewrite <- app_assoc. destruct (js_truthy (sim_err sim)); reflexivity.
  - intros err errStr logs st' Hrun.
    destruct (simulateIxs_fail_shape env _ _ _ _ _ _ _ _ Hrun) as [HerrStr _].
    split; [exact HerrStr |].
    subst errStr. unfold simOversized. rewrite isTooLargeErr_iff. simpl. tauto.
Qed.

(** * The dispatcher: splitting and termination (claim C3) *)

Section Splitting.
Context {World : Type}.
Variable env : Env World.
Implicit Types st : St World.

Lemma half_facts (n : nat) :
  (1 < n -> 0 < n / 2 /\ 0 < n - n / 2 /\ n / 2 <= n - n / 2 /\
            n - n / 2 = (n + 1) / 2 /\ n / 2 + (n - n / 2) = n)%nat.
Proof.
  intros Hn.
  pose proof (Nat.div_mod_eq n 2) as Hd.
  pose proof (Nat.mod_upper_bound n 2 ltac:(lia)) as Hm.
  pose proof (Nat.div_mod_eq (n + 1) 2) as Hd'.
  pose proof (Nat.mod_upper_bound (n + 1) 2 ltac:(lia)) as Hm'.
  lia.
Qed.

Lemma half_log2_up (n : nat) :
  (1 < n -> S (Nat.log2_up (n - n / 2)) <= Nat.log2_up n)%nat.
Proof.
  intros Hn.
  destruct (Nat.log2_up_spec n Hn) as [_ Hle].
  pose proof (Nat.log2_up_pos n Hn) as Hpos.
  destruct (Nat.log2_up n) as [| L]; [lia |].
  apply le_n_S. apply Nat.log2_up_le_pow2.
  - pose proof (half_facts n Hn). lia.
  - rewrite Nat.pow_succ_r' in Hle.
    pose proof (Nat.div_mod_eq n 2) as Hd.
    pose proof (Nat.mod_upper_bound n 2 ltac:(lia)) as Hm.
    lia.
Qed.

Lemma splitChain_bound (g : list Group) (k : nat) :
  splitChain g k -> (k <= Nat.log2_up (length g))%nat.
Proof.
  induction 1 as [g | g k Hn _ IH | g k Hn _ IH].
  - lia.
  - rewrite length_take in IH.
    pose proof (half_facts _ Hn) as (_ & _ & Hle & _).
    pose proof (half_log2_up _ Hn) as Hlog.
    pose proof (Nat.log2_up_le_mono (length g / 2) (length g - length g / 2) Hle).
    rewrite Nat.min_l in IH by lia. lia.
  - rewrite length_drop in IH.
    pose proof (half_log2_up _ Hn) as Hlog. lia.
Qed.

(** The turn, by cases on what the simulation said. *)
Lemma sendGroupsTurn_cases owner ok group queue label st simRes st0 :
  simulateIxs env owner (finalizeIxs group) label st = Some (Returns simRes, st0) ->
  sendGroupsTurn env owner ok group queue st =
    if shouldSplit simRes group then
      Some (Returns (ok, firstn (length group / 2) group
                           :: skipn (length group / 2) group :: queue), st0)
    else submitGroup env owner ok group queue st0.
Proof.
  intros Hsim. unfold sendGroupsTurn, bind. cbv zeta.
  change (simulateIxs env owner (finalizeIxs group) _ st)
    with (simulateIxs env owner (finalizeIxs group) label st).
  rewrite Hsim. unfold shouldSplit, simOversized.
  destruct simRes as [| err errStr logs]; [reflexivity |].
  destruct (isTooLargeErr _); [| reflexivity].
  destruct (1 <? length group)%nat; reflexivity.
Qed.

Lemma submitAttempt_total owner ixs : total (submitAttempt env owner ixs).
Proof.
  unfold submitAttempt, signAndSendTransaction. total_auto.
  apply compileTx_total.
Qed.

Lemma submitGroup_total owner ok group queue :
  total (submitGroup env owner ok group queue).
Proof.
  unfold submitGroup. total_auto. apply submitAttempt_total.
Qed.

Lemma sendGroupsTurn_total owner ok group queue :
  total (sendGroupsTurn env owner ok group queue).
Proof.
  unfold sendGroupsTurn. total_auto;
    first [apply simulateIxs_total | apply submitGroup_total].
Qed.

(** The queue a turn leaves: the rest, or the rest behind the two halves. *)
Lemma submitGroup_queue owner ok group queue st :
  wp (submitGroup env owner ok group queue)
     (fun o _ => forall ok' queue', o = Returns (ok', queue') -> queue' = queue) st.
Proof.
  unfold submitGroup. cbv zeta. apply wp_try_catch, wp_bind.
  intros [sig | e] st1 _.
  - apply wp_ret. intros ok' queue' H; inversion H; reflexivity.
  - destruct (userDeclined e).
    + apply wp_ret. intros ok' queue' H; inversion H; reflexivity.
    + apply wp_throw. intros ok' queue' H; discriminate.
Qed.

Lemma sendGroupsTurn_queue owner ok group queue st :
  wp (sendGroupsTurn env owner ok group queue)
     (fun o _ =>
        forall ok' queue', o = Returns (ok', queue') ->
          queue' = queue \/
          ((1 < length group)%nat /\
           queue' = firstn (length group / 2) group
                      :: skipn (length group / 2) group :: queue)) st.
Proof.
  intros o st' Hrun.
  destruct (simulateIxs_returns env owner (finalizeIxs group) "" st)
    as (simRes & st0 & Hsim).
  rewrite (sendGroupsTurn_cases _ _ _ _ _ _ _ _ Hsim) in Hrun.
  unfold shouldSplit in Hrun.
  destruct (simOversized simRes); simpl in Hrun.
  - destruct (1 <? length group)%nat eqn:Hlen.
    + inversion Hrun; subst. intros ok' queue' H; inversion H; subst.
      right. split; [apply Nat.ltb_lt, Hlen | reflexivity].
    + intros ok' queue' ->. left.
      exact (submitGroup_queue _ _ _ _ _ _ _ Hrun _ _ eq_refl).
  - intros ok' queue' ->. left.
    exact (submitGroup_queue _ _ _ _ _ _ _ Hrun _ _ eq_refl).
Qed.

Lemma queueFuel_cons group queue :
  queueFuel (group :: queue) = (groupFuel group + queueFuel queue)%nat.
Proof. reflexivity. Qed.

Lemma queueFuel_split group queue :
  (1 < length group)%nat ->
  (queueFuel (firstn (length group / 2) group
                :: skipn (length group / 2) group :: queue)
   < queueFuel (group :: queue))%nat.
Proof.
  intros Hn. rewrite !queueFuel_cons. unfold groupFuel.
  rewrite length_take, length_drop.
  pose proof (half_facts _ Hn). lia.
Qed.

Lemma queueFuel_rest group queue :
  (queueFuel queue < queueFuel (group :: queue))%nat.
Proof. rewrite queueFuel_cons. unfold groupFuel. lia. Qed.

(** With the fuel of the queue, the loop never stops for lack of fuel. *)
Lemma sendGroupsLoop_total owner fuel :
  forall ok queue st,
    (queueFuel queue <= fuel)%nat ->
    exists o st', sendGroupsLoop env fuel owner ok queue st = Some (o, st').
Proof.
  induction fuel as [| fuel IH]; intros ok queue st Hfuel.
  - destruct queue as [| group rest].
    + eexists _, _. reflexivity.
    + pose proof (queueFuel_rest group rest). lia.
  - destruct queue as [| group rest].
    + eexists _, _. reflexivity.
    + simpl. unfold bind.
      destruct (sendGroupsTurn_total owner ok group rest st) as (o & st1 & Hturn).
      rewrite Hturn. destruct o as [[ok' queue'] | e].
      * apply IH. simpl.
        destruct (sendGroupsTurn_queue _ _ _ _ _ _ _ Hturn _ _ eq_refl)
          as [-> | [Hn ->]].
        -- pose proof (queueFuel_rest group rest). lia.
        -- pose proof (queueFuel_split group rest Hn). lia.
      * eexists _, _. reflexivity.
Qed.

(** More fuel does not change what the loop computes. *)
Lemma sendGroupsLoop_more_fuel owner fuel :
  forall fuel' ok queue st r,
    (fuel <= fuel')%nat ->
    sendGroupsLoop env fuel owner ok queue st = Some r ->
    sendGroupsLoop env fuel' owner ok queue st = Some r.
Proof.
  induction fuel as [| fuel IH]; intros fuel' ok queue st r Hle Hrun.
  - destruct queue; [| discriminate]. destruct fuel'; exact Hrun.
  - destruct queue as [| group rest]; [destruct fuel'; exact Hrun |].
    destruct fuel' as [| fuel']; [lia |].
    simpl in *. unfold bind in *.
    destruct (sendGroupsTurn env owner ok group rest st) as [[[next | e] st1] |];
      try assumption.
    apply IH; [lia | assumption].
Qed.

Lemma sendGroups_total owner groups : total (sendGroups env owner groups).
Proof. intros st. apply sendGroupsLoop_total. reflexivity. Qed.
End Splitting.

(** C3: a group of more than one item that simulates oversized is replaced,
    at the front of the queue and in order, by its two halves of sizes
    floor(n/2) and ceil(n/2), both non-empty; a chain of successive splits
    from a group of size n has at most ceil(log2 n) steps; and the loop of
    [sendGroups] ends on every queue: the fuel [sendGroups] gives it is
    enough, and more fuel changes nothing. *)
Theorem split_halves_and_loop_ends :
  forall (World : Type) (env : Env World) (owner : PublicKey),
    (forall ok group queue label (st : St World) simRes st0,
        simulateIxs env owner (finalizeIxs group) label st
        = Some (Returns simRes, st0) ->
        simOversized simRes = true ->
        (1 < length group)%nat ->
        let mid := (length group / 2)%nat in
        sendGroupsTurn env owner ok group queue st
        = Some (Returns (ok, firstn mid group :: skipn mid group :: queue), st0) /\
        length (firstn mid group) = (length group / 2)%nat /\
        length (skipn mid group) = ((length group + 1) / 2)%nat /\
        firstn mid group <> [] /\ skipn mid group <> [] /\
        firstn mid group ++ skipn mid group = group) /\
    (forall (g : list Group) k, splitChain g k -> (k <= Nat.log2_up (length g))%nat) /\
    (forall fuel ok queue (st : St World),
        (queueFuel queue <= fuel)%nat ->
        exists o st',
          sendGroupsLoop env fuel owner ok queue st = Some (o, st') /\
          sendGroupsLoop env (queueFuel queue) owner ok queue st = Some (o, st')) /\
    (forall groups (st : St World),
        exists o st', sendGroups env owner groups st = Some (o, st')).
Proof.
  intros World env owner. split; [| split; [| split]].
  - intros ok group queue label st simRes st0 Hsim Hover Hn mid. subst mid.
    pose proof (half_facts _ Hn) as Hhalf.
    split; [| split; [| split; [| split; [| split]]]].
    + rewrite (sendGroupsTurn_cases env _ _ _ _ _ _ _ _ Hsim).
      unfold shouldSplit. rewrite Hover.
      apply Nat.ltb_lt in Hn. rewrite Hn. reflexivity.
    + rewrite length_take. lia.
    + rewrite length_drop. lia.
    + intros Hnil. apply (f_equal (@length Group)) in Hnil.
      rewrite length_take in Hnil. cbn [length] in Hnil. lia.
    + intros Hnil. apply (f_equal (@length Group)) in Hnil.
      rewrite length_drop in Hnil. cbn [length] in Hnil. lia.
    + apply firstn_skipn.
  - apply splitChain_bound.
  - intros fuel ok queue st Hfuel.
    destruct (sendGroupsLoop_total env owner (queueFuel queue) ok queue st (le_n _))
      as (o & st' & Hrun).
    exists o, st'. split; [| exact Hrun].
    exact (sendGroupsLoop_more_fuel env owner _ _ _ _ _ _ Hfuel Hrun).
  - intros groups st. apply sendGroups_total.
Qed.

(** * The dispatcher: submission and its failures (claims C6 and C7) *)

Section Submission.
Context {World : Type}.
Variable env : Env World.
Implicit Types st : St World.

Lemma submitAttempt_respects R `{!StateOrder R} owner ixs :
  respects R (submitAttempt env owner ixs).
Proof.
  unfold submitAttempt. respects_auto.
  - apply compileTx_respects; exact _.
  - apply signAndSendTransaction_respects; exact _.
Qed.

Lemma submitGroup_respects R `{!StateOrder R} owner ok group queue :
  respects R (submitGroup env owner ok group queue).
Proof.
  unfold submitGroup. respects_auto. apply submitAttempt_respects; exact _.
Qed.

Lemma sendGroupsTurn_respects R `{!StateOrder R} owner ok group queue :
  respects R (sendGroupsTurn env owner ok group queue).
Proof.
  unfold sendGroupsTurn. respects_auto;
    first [apply simulateIxs_respects | apply submitGroup_respects]; exact _.
Qed.

Lemma sendGroupsLoop_respects R `{!StateOrder R} owner fuel :
  forall ok queue, respects R (sendGroupsLoop env fuel owner ok queue).
Proof.
  induction fuel as [| fuel IH]; intros ok [| group rest]; simpl.
  - apply respects_ret; exact _.
  - intros st o st' Hrun. discriminate.
  - apply respects_ret; exact _.
  - apply respects_bind; [exact _ | apply sendGroupsTurn_respects; exact _ |].
    intros next. apply IH.
Qed.

(** What [submitGroup] makes of a failed attempt. *)
Lemma submitGroup_failed owner ok group queue st e st1 :
  submitAttempt env owner (finalizeIxs group) st = Some (Throws e, st1) ->
  submitGroup env owner ok group queue st =
    if userDeclined e then Some (Returns (ok, queue), st1)
    else Some (Throws e, st1).
Proof.
  intros Hattempt. unfold submitGroup, try_catch, bind. cbv zeta.
  rewrite Hattempt. destruct (userDeclined e); reflexivity.
Qed.

(** What [submitGroup] makes of a signature. *)
Lemma submitGroup_signed owner ok group queue st sig st1 :
  submitAttempt env owner (finalizeIxs group) st = Some (Returns sig, st1) ->
  submitGroup env owner ok group queue st =
    Some (Returns (ok ++ map (fun g => mkBurnOk (toBase58 (g_mint g)) sig) group,
                   queue), st1).
Proof.
  intros Hattempt. unfold submitGroup, try_catch, bind. cbv zeta.
  rewrite Hattempt. reflexivity.
Qed.

(** Once the transaction is built, the wallet is asked to sign it. *)
Lemma submitAttempt_asks_wallet owner ixs st ctx w1 :
  getLatestBlockhashAndContext env Confirmed (world st) = (Returns ctx, w1) ->
  compileError env (mkMessage owner (ctx_blockhash ctx) ixs) = None ->
  exists o st',
    submitAttempt env owner ixs st = Some (o, st') /\
    In (CallSignAndSend (mkMessage owner (ctx_blockhash ctx) ixs)
                        (Some (ctx_slot ctx)) (Some (mkOpts (Some true) None None)))
       (calls st').
Proof.
  intros Hctx Hcompile.
  unfold submitAttempt, signAndSendTransaction, compileTx, try_catch, bind, call.
  cbv zeta. rewrite Hctx. simpl. rewrite Hcompile. simpl.
  destruct (walletSignAndSend env _ _ _ w1) as [[sig | e] w2]; simpl.
  - eexists _, _. split; [reflexivity |]. simpl.
    apply in_or_app. right. left. reflexivity.
  - destruct (walletSignAndSend env _ _ None w2) as [o w3]; simpl.
    eexists _, _. split; [reflexivity |]. simpl.
    apply in_or_app. left. apply in_or_app. right. left. reflexivity.
Qed.

Lemma submitGroup_asks_wallet owner ok group queue st ctx w1 :
  getLatestBlockhashAndContext env Confirmed (world st) = (Returns ctx, w1) ->
  compileError env (mkMessage owner (ctx_blockhash ctx) (finalizeIxs group)) = None ->
  exists o st',
    submitGroup env owner ok group queue st = Some (o, st') /\
    In (CallSignAndSend (mkMessage owner (ctx_blockhash ctx) (finalizeIxs group))
                        (Some (ctx_slot ctx)) (Some (mkOpts (Some true) None None)))
       (calls st').
Proof.
  intros Hctx Hcompile.
  destruct (submitAttempt_asks_wallet owner _ st ctx w1 Hctx Hcompile)
    as ([sig | e] & st1 & Hattempt & Hin).
  - rewrite (submitGroup_signed _ _ _ _ _ _ _ Hattempt). eauto.
  - rewrite (submitGroup_failed _ _ _ _ _ _ _ Hattempt).
    destruct (userDeclined e); eauto.
Qed.

(** A simulation never reaches the wallet. *)
Lemma simulateIxs_no_wallet owner ixs label st o st' :
  simulateIxs env owner ixs label st = Some (o, st') ->
  exists more, calls st' = calls st ++ more /\
               forall c, In c more -> isWalletCall c = false.
Proof.
  unfold simulateIxs, try_catch, bind, call, compileTx, ret, throw. cbv zeta.
  destruct (getLatestBlockhashAndContext env Processed (world st))
    as [[ctx | e] w1]; simpl.
  - destruct (compileError env _) as [e |]; simpl.
    + intros H; inversion H; subst; simpl.
      exists [CallGetLatestBlockhash Processed]. split; [reflexivity |].
      intros c [<- | []]. reflexivity.
    + destruct (simulateTransaction env _ w1) as [[sim | e] w2]; simpl.
      * destruct (js_truthy (sim_err sim)); simpl;
          intros H; inversion H; subst; simpl;
          (eexists [_; _]; split; [rewrite <- app_assoc; reflexivity |]);
          intros c [<- | [<- | []]]; reflexivity.
      * intros H; inversion H; subst; simpl.
        eexists [_; _]. split; [rewrite <- app_assoc; reflexivity |].
        intros c [<- | [<- | []]]; reflexivity.
  - intros H; inversion H; subst; simpl.
    exists [CallGetLatestBlockhash Processed]. split; [reflexivity |].
    intros c [<- | []]. reflexivity.
Qed.

(** The first turn of the loop, unfolded. *)
Lemma sendGroupsLoop_turn owner fuel ok group queue st :
  sendGroupsLoop env (S fuel) owner ok (group :: queue) st =
    match sendGroupsTurn env owner ok group queue st with
    | Some (Returns next, st1) => sendGroupsLoop env fuel owner (fst next) (snd next) st1
    | Some (Throws e, st1) => Some (Throws e, st1)
    | None => None
    end.
Proof. reflexivity. Qed.

(** An exception of [sendGroups] is the exception of [mutateAsync]. *)
Lemma mutateAsync_after_prepare deepClean owner rawItems st st1 :
  prepareAll env deepClean owner rawItems (freshSt st) = Some (Returns tt, st1) ->
  mutateAsync env deepClean (Some owner) rawItems st =
    if is_empty (makeGroups (prepared st1))
    then Some (Returns (mkResult [] (skipped st1)), st1)
    else match sendGroups env owner (makeGroups (prepared st1)) st1 with
         | Some (Returns ok, st2) => Some (Returns (mkResult ok (skipped st1)), st2)
         | Some (Throws e, st2) => Some (Throws e, st2)
         | None => None
         end.
Proof.
  intros Hprep. unfold mutateAsync, bind, fresh_locals, get_prepared, get_skipped.
  unfold freshSt in Hprep. rewrite Hprep.
  destruct (is_empty (makeGroups (prepared st1))); [reflexivity |].
  destruct (sendGroups env owner _ st1) as [[[ok | e] st2] |]; reflexivity.
Qed.
End Submission.

(** C6: when the submission of a group fails with an error [e], the group
    leaves no record (the arrays [skipped] and [prepared] and the list of
    successes are as before); if the text of [e] reads as a rejection, denial or
    cancellation the loop goes on with the rest of the queue, otherwise [e]
    comes out of the loop at once, the rest of the queue untouched, and out
    of [mutateAsync]. *)
Theorem decline_skips_group_other_errors_abort :
  forall (World : Type) (env : Env World) (owner : PublicKey),
    (forall ok group queue label (st : St World) simRes st0 e st1,
        simulateIxs env owner (finalizeIxs group) label st
        = Some (Returns simRes, st0) ->
        shouldSplit simRes group = false ->
        submitAttempt env owner (finalizeIxs group) st0 = Some (Throws e, st1) ->
        (skipped st1 = skipped st /\ prepared st1 = prepared st) /\
        (userDeclined e = true ->
         sendGroupsTurn env owner ok group queue st = Some (Returns (ok, queue), st1) /\
         forall fuel,
           sendGroupsLoop env (S fuel) owner ok (group :: queue) st
           = sendGroupsLoop env fuel owner ok queue st1) /\
        (userDeclined e = false ->
         sendGroupsTurn env owner ok group queue st = Some (Throws e, st1) /\
         forall fuel,
           sendGroupsLoop env (S fuel) owner ok (group :: queue) st
           = Some (Throws e, st1))) /\
    (forall deepClean rawItems (st : St World) st1 e st2,
        prepareAll env deepClean owner rawItems (freshSt st) = Some (Returns tt, st1) ->
        sendGroups env owner (makeGroups (prepared st1)) st1 = Some (Throws e, st2) ->
        mutateAsync env deepClean (Some owner) rawItems st = Some (Throws e, st2)).
Proof.
  intros World env owner. split.
  - intros ok group queue label st simRes st0 e st1 Hsim Hsplit Hattempt.
    assert (Hturn : sendGroupsTurn env owner ok group queue st =
                    if userDeclined e then Some (Returns (ok, queue), st1)
                    else Some (Throws e, st1)).
    { rewrite (sendGroupsTurn_cases env _ _ _ _ _ _ _ _ Hsim), Hsplit.
      apply submitGroup_failed, Hattempt. }
    split; [| split].
    + destruct (simulateIxs_respects env sameLocals _ _ _ _ _ _ Hsim) as [Hs0 Hp0].
      destruct (submitAttempt_respects env sameLocals _ _ _ _ _ Hattempt) as [Hs1 Hp1].
      split; congruence.
    + intros Hdecl. rewrite Hdecl in Hturn. split; [exact Hturn |].
      intros fuel. rewrite sendGroupsLoop_turn, Hturn. reflexivity.
    + intros Hdecl. rewrite Hdecl in Hturn. split; [exact Hturn |].
      intros fuel. rewrite sendGroupsLoop_turn, Hturn. reflexivity.
  - intros deepClean rawItems st st1 e st2 Hprep Hsend.
    rewrite (mutateAsync_after_prepare env _ _ _ _ _ Hprep).
    destruct (makeGroups (prepared st1)) as [| g gs] eqn:Hgroups.
    + discriminate Hsend.
    + simpl. rewrite Hsend. reflexivity.
Qed.

(** C7: a failed simulation blocks the submission in one case only.  After
    a simulation that failed without being oversized, and after one that was
    oversized for a group of exactly one item, the turn goes on to
    [submitGroup], which asks the wallet to sign the transaction of the
    group as soon as the blockhash is fetched and the transaction built.
    After an oversized simulation of a group of more than one item the turn
    ends on the split, and the wallet has not been asked. *)
Theorem only_oversized_splittable_blocks_submission :
  forall (World : Type) (env : Env World) (owner : PublicKey)
         ok group queue label (st : St World) simRes st0,
    simulateIxs env owner (finalizeIxs group) label st = Some (Returns simRes, st0) ->
    let submits :=
      sendGroupsTurn env owner ok group queue st
      = submitGroup env owner ok group queue st0 /\
      forall ctx w1,
        getLatestBlockhashAndContext env Confirmed (world st0) = (Returns ctx, w1) ->
        compileError env (mkMessage owner (ctx_blockhash ctx) (finalizeIxs group))
        = None ->
        exists o st',
          sendGroupsTurn env owner ok group queue st = Some (o, st') /\
          In (CallSignAndSend (mkMessage owner (ctx_blockhash ctx) (finalizeIxs group))
                              (Some (ctx_slot ctx))
                              (Some (mkOpts (Some true) None None)))
             (calls st') in
    (sim_ok simRes = false -> simOversized simRes = false -> submits) /\
    (simOversized simRes = true -> length group = 1%nat -> submits) /\
    (simOversized simRes = true -> (1 < length group)%nat ->
     sendGroupsTurn env owner ok group queue st
     = Some (Returns (ok, firstn (length group / 2) group
                            :: skipn (length group / 2) group :: queue), st0) /\
     exists more, calls st0 = calls st ++ more /\
                  forall c, In c more -> isWalletCall c = false).
Proof.
  intros World env owner ok group queue label st simRes st0 Hsim submits.
  pose proof (sendGroupsTurn_cases env owner ok group queue _ _ _ _ Hsim) as Hturn.
  assert (Hsub : shouldSplit simRes group = false -> submits).
  { intros Hsplit. rewrite Hsplit in Hturn. split; [exact Hturn |].
    intros ctx w1 Hctx Hcompile. rewrite Hturn.
    apply (submitGroup_asks_wallet env _ _ _ _ _ ctx w1 Hctx Hcompile). }
  split; [| split].
  - intros _ Hover. apply Hsub. unfold shouldSplit. rewrite Hover. reflexivity.
  - intros Hover Hlen. apply Hsub. unfold shouldSplit. rewrite Hover, Hlen. reflexivity.
  - intros Hover Hlen. split.
    + rewrite Hturn. unfold shouldSplit. rewrite Hover.
      apply Nat.ltb_lt in Hlen. rewrite Hlen. reflexivity.
    + exact (simulateIxs_no_wallet env _ _ _ _ _ _ Hsim).
Qed.

(** * Preparation: every asset is settled once (claim C1) *)

Section Preparation.
Context {World : Type}.
Variable env : Env World.
Implicit Types st : St World.

Section Order.
Context (R : St World -> St World -> Prop) `{!StateOrder R}.

Lemma buildCoreBurnVariants_respects owner asset :
  respects R (buildCoreBurnVariants env owner asset).
Proof. unfold buildCoreBurnVariants. respects_auto. Qed.

Lemma buildPnftVariants_respects owner m ta coll :
  respects R (buildPnftVariants env owner m ta coll).
Proof. unfold buildPnftVariants. respects_auto. Qed.

Lemma buildLegacyTmBurn_respects owner m ta prog :
  respects R (buildLegacyTmBurn env owner m ta prog).
Proof. unfold buildLegacyTmBurn. respects_auto. Qed.

Lemma pnftPickLoop_respects owner order :
  respects R (pnftPickLoop env owner order).
Proof.
  induction order as [| cand rest IH]; simpl.
  - apply respects_ret; exact _.
  - destruct (cand_ixs cand) as [ixs |]; [| exact IH].
    destruct (is_empty ixs); [exact IH |].
    apply respects_bind; [exact _ | apply simulateIxs_respects; exact _ |].
    intros sim. destruct (sim_ok sim); [apply respects_ret; exact _ | exact IH].
Qed.

Lemma pnftPick_respects owner variants :
  respects R (pnftPick env owner variants).
Proof.
  unfold pnftPick. respects_auto. apply pnftPickLoop_respects.
Qed.

Lemma resolveProgramId_respects it : respects R (resolveProgramId env it).
Proof.
  unfold resolveProgramId. respects_auto. apply getMintProgramId_respects; exact _.
Qed.
End Order.
End Preparation.

(** Known computations that respect every state order. *)
Ltac respects_lib :=
  first [ apply simulateIxs_respects
        | apply compileTx_respects
        | apply getMintProgramId_respects
        | apply resolveAta_respects
        | apply resolveProgramId_respects
        | apply buildCoreBurnVariants_respects
        | apply buildPnftVariants_respects
        | apply buildLegacyTmBurn_respects
        | apply pnftPick_respects
        | apply pnftPickLoop_respects
        | apply signAndSendTransaction_respects ]; try exact _.

Ltac respects_all := cbv zeta; repeat (first [assumption | respects_lib | respects_step]).

Section Settling.
Context {World : Type}.
Variable env : Env World.
Implicit Types st : St World.

Lemma pushesOne_bind_frame {A B} (m : M World A) (k : A -> M World B) :
  respects sameLocals m -> (forall a, pushesOne (k a)) -> pushesOne (bind m k).
Proof.
  intros Hm Hk st. apply wp_bind.
  eapply wp_mono; [apply Hm |]. intros [a | e] st1 [Hs Hp].
  - eapply wp_mono; [apply Hk |]. intros o st2.
    unfold settled. rewrite Hs, Hp. exact (fun H => H).
  - unfold settled. rewrite Hs, Hp. reflexivity.
Qed.

Lemma pushesOne_push_skipped s : pushesOne (@push_skipped World s).
Proof.
  intros st o st' Hrun. inversion Hrun; subst. unfold settled. simpl.
  rewrite length_app. simpl. lia.
Qed.

Lemma pushesOne_push_prepared p : pushesOne (@push_prepared World p).
Proof.
  intros st o st' Hrun. inversion Hrun; subst. unfold settled. simpl.
  rewrite length_app. simpl. lia.
Qed.

(** A [catch] that records a skip settles the asset the [try] left open. *)
Lemma settles_try_catch_skip (m : M World unit) (f : JsValue -> BurnSkip) st :
  pushesOne m ->
  wp (try_catch m (fun e => push_skipped (f e)))
     (fun o st' => o = Returns tt /\ settled st' = S (settled st)) st.
Proof.
  intros Hm. apply wp_try_catch.
  eapply wp_mono; [apply Hm |]. intros [[] | e] st1 Hset.
  - split; [reflexivity | exact Hset].
  - intros o st2 Hrun. inversion Hrun; subst. split; [reflexivity |].
    unfold settled in *. simpl. rewrite length_app. simpl. lia.
Qed.

Lemma pushesOne_try_catch_skip (m : M World unit) (f : JsValue -> BurnSkip) :
  pushesOne m -> pushesOne (try_catch m (fun e => push_skipped (f e))).
Proof.
  intros Hm st. eapply wp_mono; [apply settles_try_catch_skip, Hm |].
  intros o st' [-> Hset]. exact Hset.
Qed.
End Settling.

(** One step of a proof that a computation settles one asset. *)
Ltac pushes_step :=
  lazymatch goal with
  | |- pushesOne (bind _ _) =>
      apply pushesOne_bind_frame; [solve [respects_all] | intros ?]
  | |- pushesOne (push_skipped _) => apply pushesOne_push_skipped
  | |- pushesOne (push_prepared _) => apply pushesOne_push_prepared
  | |- pushesOne (try_catch _ _) => apply pushesOne_try_catch_skip
  | |- pushesOne (match ?x with _ => _ end) => destruct x
  end.

Ltac pushes_all := cbv zeta; repeat pushes_step.

Section Counting.
Context {World : Type}.
Variable env : Env World.
Implicit Types st : St World.

Lemma prepareSplOrPnft_pushesOne deepClean owner it programId ta :
  pushesOne (prepareSplOrPnft env deepClean owner it programId ta).
Proof. unfold prepareSplOrPnft. pushes_all. Qed.

Lemma prepareItem_settles deepClean owner it st :
  wp (prepareItem env deepClean owner it)
     (fun o st' => o = Returns tt /\ settled st' = S (settled st)) st.
Proof.
  unfold prepareItem. cbv zeta. apply settles_try_catch_skip.
  pushes_all; apply prepareSplOrPnft_pushesOne.
Qed.

Lemma prepareAll_settles deepClean owner rawItems :
  forall st,
    wp (prepareAll env deepClean owner rawItems)
       (fun o st' => o = Returns tt /\
                     settled st' = (settled st + length rawItems)%nat) st.
Proof.
  induction rawItems as [| it rest IH]; intros st; simpl.
  - apply wp_ret. split; [reflexivity | lia].
  - apply wp_bind. eapply wp_mono; [apply prepareItem_settles |].
    intros o st1 [-> Hset]. eapply wp_mono; [apply IH |].
    intros o st2 [-> Hset2]. split; [reflexivity | lia].
Qed.
End Counting.

Section Grouping.
Implicit Types prepared : list PreparedItem.

Lemma MAX_PER_TX_pos prepared : (0 < MAX_PER_TX prepared)%nat.
Proof. unfold MAX_PER_TX. destruct (heavyCount prepared =? 0)%nat; lia. Qed.

Lemma concat_optional_slice (slice : list Group) (rest : list (list Group)) :
  concat ((if is_empty slice then [] else [slice]) ++ rest) = slice ++ concat rest.
Proof. destruct slice; reflexivity. Qed.

(** The groups are the prepared items, cut in consecutive slices. *)
Lemma groupLoop_concat max prepared fuel :
  forall i,
    (0 < max)%nat -> (length prepared - i <= fuel)%nat ->
    concat (groupLoop fuel i max prepared)
    = map (fun p => mkGroup (p_mint p) (p_ixs p)) (skipn i prepared).
Proof.
  induction fuel as [| fuel IH]; intros i Hmax Hfuel; simpl.
  - rewrite skipn_all2 by lia. reflexivity.
  - destruct (i <? length prepared)%nat eqn:Hi.
    + apply Nat.ltb_lt in Hi.
      rewrite concat_optional_slice, IH by lia.
      rewrite <- map_app. f_equal.
      replace (i + max)%nat with (max + i)%nat by lia.
      rewrite <- skipn_skipn. apply firstn_skipn.
    + apply Nat.ltb_ge in Hi. rewrite skipn_all2 by lia. reflexivity.
Qed.

Lemma makeGroups_items prepared :
  queueItems (makeGroups prepared) = length prepared.
Proof.
  unfold queueItems, makeGroups.
  rewrite groupLoop_concat; [| apply MAX_PER_TX_pos | lia].
  simpl. apply length_map.
Qed.

Lemma queueItems_cons (group : list Group) queue :
  queueItems (group :: queue) = (length group + queueItems queue)%nat.
Proof. unfold queueItems. simpl. apply length_app. Qed.
End Grouping.

Section Accounting.
Context {World : Type}.
Variable env : Env World.
Implicit Types st : St World.

(** An exception of the attempt comes from one of its collaborators. *)
Lemma submitAttempt_error owner ixs st e st' :
  submitAttempt env owner ixs st = Some (Throws e, st') ->
  submissionError env e.
Proof.
  unfold submitAttempt, signAndSendTransaction, compileTx, try_catch, bind, call.
  cbv zeta.
  destruct (getLatestBlockhashAndContext env Confirmed (world st))
    as [[ctx | e0] w1] eqn:Hctx; simpl.
  - destruct (compileError env _) as [e0 |] eqn:Hcompile; simpl.
    + intros H; inversion H; subst. right; left. eauto.
    + destruct (walletSignAndSend env _ _ _ w1) as [[sig | e1] w2]; simpl;
        [discriminate |].
      destruct (walletSignAndSend env _ _ None w2) as [[sig | e2] w3] eqn:Hw;
        simpl; [discriminate |].
      intros H; inversion H; subst. right; right. eauto 10.
  - intros H; inversion H; subst. left. eauto.
Qed.

(** The bookkeeping of one turn: no item is counted twice, and none is
    lost unless a submission error reads as a refusal. *)
Lemma submitGroup_count owner ok group queue st :
  wp (submitGroup env owner ok group queue)
     (fun o _ =>
        forall ok' queue', o = Returns (ok', queue') ->
          (length ok' + queueItems queue'
           <= length ok + queueItems (group :: queue))%nat /\
          (neverDeclines env ->
           (length ok' + queueItems queue'
            = length ok + queueItems (group :: queue))%nat)) st.
Proof.
  intros o st' Hrun ok' queue' ->.
  rewrite queueItems_cons.
  destruct (submitAttempt_total env owner (finalizeIxs group) st)
    as ([sig | e] & st1 & Hattempt).
  - rewrite (submitGroup_signed env _ _ _ _ _ _ _ Hattempt) in Hrun.
    inversion Hrun; subst. rewrite length_app, length_map. lia.
  - rewrite (submitGroup_failed env _ _ _ _ _ _ _ Hattempt) in Hrun.
    destruct (userDeclined e) eqn:Hdecl; [| discriminate].
    inversion Hrun; subst. split; [lia |].
    intros Hnever.
    rewrite (Hnever e (submitAttempt_error _ _ _ _ _ Hattempt)) in Hdecl.
    discriminate.
Qed.

Lemma sendGroupsTurn_count owner ok group queue st :
  wp (sendGroupsTurn env owner ok group queue)
     (fun o _ =>
        forall ok' queue', o = Returns (ok', queue') ->
          (length ok' + queueItems queue'
           <= length ok + queueItems (group :: queue))%nat /\
          (neverDeclines env ->
           (length ok' + queueItems queue'
            = length ok + queueItems (group :: queue))%nat)) st.
Proof.
  intros o st' Hrun.
  destruct (simulateIxs_returns env owner (finalizeIxs group) "" st)
    as (simRes & st0 & Hsim).
  rewrite (sendGroupsTurn_cases env _ _ _ _ _ _ _ _ Hsim) in Hrun.
  destruct (shouldSplit simRes group).
  - inversion Hrun; subst. intros ok' queue' H; inversion H; subst.
    rewrite !queueItems_cons, length_take, length_drop. lia.
  - exact (submitGroup_count _ _ _ _ _ _ _ Hrun).
Qed.

(** Nothing is lost in a turn but the items of a declined group. *)
Lemma sendGroupsTurn_exact owner ok group queue st ok' queue' st1 :
  sendGroupsTurn env owner ok group queue st = Some (Returns (ok', queue'), st1) ->
  (length ok' + queueItems queue'
   + (if turnDeclined env owner group st then length group else 0)
   = length ok + queueItems (group :: queue))%nat.
Proof.
  intros Hrun. unfold turnDeclined.
  destruct (simulateIxs_returns env owner (finalizeIxs group) "" st)
    as (simRes & st0 & Hsim).
  rewrite Hsim.
  rewrite (sendGroupsTurn_cases env _ _ _ _ _ _ _ _ Hsim) in Hrun.
  rewrite !queueItems_cons.
  destruct (shouldSplit simRes group).
  - inversion Hrun; subst.
    rewrite !queueItems_cons, length_take, length_drop. lia.
  - destruct (submitAttempt_total env owner (finalizeIxs group) st0)
      as ([sig | e] & st2 & Hattempt); rewrite Hattempt.
    + rewrite (submitGroup_signed env _ _ _ _ _ _ _ Hattempt) in Hrun.
      inversion Hrun; subst. rewrite length_app, length_map. lia.
    + rewrite (submitGroup_failed env _ _ _ _ _ _ _ Hattempt) in Hrun.
      destruct (userDeclined e); [| discriminate].
      inversion Hrun; subst. lia.
Qed.

Lemma sendGroupsLoop_exact owner fuel :
  forall ok queue st ok' st',
    sendGroupsLoop env fuel owner ok queue st = Some (Returns ok', st') ->
    (length ok' + declinedItems env fuel owner ok queue st
     = length ok + queueItems queue)%nat.
Proof.
  induction fuel as [| fuel IH]; intros ok [| group rest] st ok' st' Hrun;
    simpl in Hrun.
  - inversion Hrun; subst. unfold queueItems. simpl. lia.
  - discriminate.
  - inversion Hrun; subst. unfold queueItems. simpl. lia.
  - unfold bind in Hrun. cbn [declinedItems].
    destruct (sendGroupsTurn env owner ok group rest st)
      as [[[[ok1 queue1] | e] st1] |] eqn:Hturn; try discriminate.
    pose proof (sendGroupsTurn_exact _ _ _ _ _ _ _ _ Hturn) as Hexact.
    pose proof (IH _ _ _ _ _ Hrun) as Hrest. simpl in Hrest. simpl. lia.
Qed.

Lemma sendGroupsLoop_count owner fuel :
  forall ok queue st,
    wp (sendGroupsLoop env fuel owner ok queue)
       (fun o _ =>
          forall ok', o = Returns ok' ->
            (length ok' <= length ok + queueItems queue)%nat /\
            (neverDeclines env ->
             length ok' = (length ok + queueItems queue)%nat)) st.
Proof.
  induction fuel as [| fuel IH]; intros ok [| group rest] st; simpl.
  - apply wp_ret. intros ok' H; inversion H; subst. unfold queueItems. simpl. lia.
  - intros o st' Hrun; discriminate.
  - apply wp_ret. intros ok' H; inversion H; subst. unfold queueItems. simpl. lia.
  - apply wp_bind. eapply wp_mono; [apply sendGroupsTurn_count |].
    intros [[ok1 queue1] | e] st1 Hturn; [| intros ok' H; discriminate].
    destruct (Hturn _ _ eq_refl) as [Hle Heq].
    eapply wp_mono; [apply IH |]. simpl.
    intros o st2 Hloop ok' ->. destruct (Hloop _ eq_refl) as [Hle' Heq'].
    split; [lia |]. intros Hnever. specialize (Heq Hnever).
    specialize (Heq' Hnever). lia.
Qed.
End Accounting.

(** C1, counterexample: the user refuses the only prompt of a batch of one
    asset; the run returns with nothing succeeded and nothing skipped. *)
Lemma declined_item_is_in_neither_list :
  exists st',
    mutateAsync Script.decliningEnv true (Some "owner") [Script.bareItem "m1"] Script.st0
    = Some (Returns (mkResult [] []), st') /\
    (length (@nil BurnOk) + length (@nil BurnSkip) <> length [Script.bareItem "m1"])%nat.
Proof.
  eexists. split; [vm_compute; reflexivity | simpl; lia].
Qed.

(** C1, as the code has it: when [mutateAsync] returns, the succeeded
    records, the skipped records and the items of the groups dropped on a
    refusal of the user are together exactly as many as the input
    descriptors.  So the succeeded and the skipped records never outnumber
    the input descriptors, and they are exactly as many when no error met
    while submitting reads as a refusal of the user. *)
Theorem every_item_settled_unless_declined :
  forall (World : Type) (env : Env World) (deepClean : bool)
         (account : option PublicKey) (rawItems : list NftBurnItem)
         (st : St World) (r : BurnBatchResult) (st' : St World),
    mutateAsync env deepClean account rawItems st = Some (Returns r, st') ->
    (exists owner st1,
        account = Some owner /\
        prepareAll env deepClean owner rawItems (freshSt st) = Some (Returns tt, st1) /\
        (length (r_ok r) + length (r_skipped r)
         + declinedItems env (queueFuel (makeGroups (prepared st1))) owner []
                         (makeGroups (prepared st1)) st1)%nat
        = length rawItems) /\
    (length (r_ok r) + length (r_skipped r) <= length rawItems)%nat /\
    (neverDeclines env ->
     (length (r_ok r) + length (r_skipped r))%nat = length rawItems).
Proof.
  intros World env deepClean [owner |] rawItems st r st' Hrun; [| discriminate].
  destruct (prepareAll env deepClean owner rawItems (freshSt st))
    as [[[[] | e] st1] |] eqn:Hprep;
    try (unfold mutateAsync, bind, fresh_locals in Hrun;
         unfold freshSt in Hprep; rewrite Hprep in Hrun; discriminate).
  destruct (prepareAll_settles env _ _ _ _ _ _ Hprep) as [_ Hset].
  unfold settled in Hset. simpl in Hset.
  rewrite (mutateAsync_after_prepare env _ _ _ _ _ Hprep) in Hrun.
  pose proof (makeGroups_items (prepared st1)) as Hitems.
  destruct (makeGroups (prepared st1)) as [| g gs] eqn:Hgroups; simpl in Hrun.
  - inversion Hrun; subst. simpl. unfold queueItems in Hitems. simpl in Hitems.
    split; [| split; [lia | intros _; lia]].
    eexists owner, _. split; [reflexivity |]. split; [exact Hprep |].
    rewrite Hgroups. simpl. lia.
  - destruct (sendGroups env owner (g :: gs) st1) as [[[ok | e] st2] |] eqn:Hsend;
      try discriminate.
    inversion Hrun; subst. cbn [r_ok r_skipped].
    pose proof (sendGroupsLoop_exact env owner _ _ _ _ _ _ Hsend) as Hexact.
    destruct (sendGroupsLoop_count env owner _ _ _ _ _ _ Hsend _ eq_refl)
      as [Hle Heq].
    cbn [length] in Hexact, Hle, Heq.
    split; [| split; [lia | intros Hnever; specialize (Heq Hnever); lia]].
    eexists owner, _. split; [reflexivity |]. split; [exact Hprep |].
    rewrite Hgroups. lia.
Qed.

(** * Compressed assets (claim C2) *)

Ltac grows_all :=
  cbv zeta;
  repeat (first [ assumption
                | apply respects_push_skipped_grows
                | apply respects_push_prepared_grows
                | respects_lib
                | respects_step ]).

Section Compressed.
Context {World : Type}.
Variable env : Env World.
Implicit Types st : St World.

Lemma prepareItem_grows deepClean owner it :
  respects skippedGrows (prepareItem env deepClean owner it).
Proof. unfold prepareItem, prepareSplOrPnft. grows_all. Qed.

Lemma prepareAll_grows deepClean owner rawItems :
  respects skippedGrows (prepareAll env deepClean owner rawItems).
Proof.
  induction rawItems as [| it rest IH]; simpl.
  - apply respects_ret; exact _.
  - apply respects_bind; [exact _ | apply prepareItem_grows |].
    intros _. exact IH.
Qed.

Lemma prepareItem_compressed deepClean owner it st :
  flag (isCompressed it) = true ->
  prepareItem env deepClean owner it st
  = Some (Returns tt,
          mkSt (world st) (calls st)
               (skipped st ++ [mkBurnSkip (toBase58 (mint it)) "cNFT not supported"])
               (prepared st)).
Proof.
  intros Hflag. unfold prepareItem, try_catch. cbv zeta. rewrite Hflag. reflexivity.
Qed.

Lemma prepareAll_compressed deepClean owner rawItems it :
  In it rawItems -> flag (isCompressed it) = true ->
  forall st st1,
    prepareAll env deepClean owner rawItems st = Some (Returns tt, st1) ->
    In (mkBurnSkip (toBase58 (mint it)) "cNFT not supported") (skipped st1).
Proof.
  intros Hin Hflag.
  induction rawItems as [| it0 rest IH]; [destruct Hin |].
  intros st st1 Hrun. simpl in Hrun. unfold bind in Hrun.
  destruct (prepareItem env deepClean owner it0 st) as [[[[] | e] st0] |] eqn:Hitem;
    try discriminate.
  destruct Hin as [-> | Hin].
  - rewrite (prepareItem_compressed _ _ _ _ Hflag) in Hitem.
    inversion Hitem; subst.
    destruct (prepareAll_grows _ _ _ _ _ _ Hrun) as [more Hmore].
    rewrite Hmore. simpl. apply in_or_app. left. apply in_or_app. right.
    left. reflexivity.
  - exact (IH Hin _ _ Hrun).
Qed.
End Compressed.

(** C2, counterexample: the reason recorded for a compressed asset is
    "cNFT not supported", not "unsupported asset kind". *)
Lemma compressed_reason_differs :
  exists st',
    mutateAsync Script.quietEnv true (Some "owner") [Script.compressedItem "c1"] Script.st0
    = Some (Returns (mkResult [] [mkBurnSkip "c1" "cNFT not supported"]), st') /\
    ~ In (mkBurnSkip "c1" "unsupported asset kind")
         [mkBurnSkip "c1" "cNFT not supported"].
Proof.
  eexists. split; [vm_compute; reflexivity |].
  intros [H | []]. discriminate H.
Qed.

(** C2, as the code has it: whatever its other hints, a descriptor flagged
    compressed is settled by one entry of [skipped] with the reason
    "cNFT not supported"; handling it calls nothing outside (the world and
    the trace of calls are as before) and prepares nothing; and the entry is
    in the result of every run that returns. *)
Theorem compressed_is_skipped_without_calls :
  forall (World : Type) (env : Env World) (deepClean : bool) (owner : PublicKey),
    (forall it (st : St World),
        flag (isCompressed it) = true ->
        prepareItem env deepClean owner it st
        = Some (Returns tt,
                mkSt (world st) (calls st)
                     (skipped st
                        ++ [mkBurnSkip (toBase58 (mint it)) "cNFT not supported"])
                     (prepared st))) /\
    (forall rawItems it (st : St World) r st',
        mutateAsync env deepClean (Some owner) rawItems st = Some (Returns r, st') ->
        In it rawItems ->
        flag (isCompressed it) = true ->
        In (mkBurnSkip (toBase58 (mint it)) "cNFT not supported") (r_skipped r)).
Proof.
  intros World env deepClean owner. split.
  - intros it st Hflag. apply prepareItem_compressed, Hflag.
  - intros rawItems it st r st' Hrun Hin Hflag.
    destruct (prepareAll env deepClean owner rawItems (freshSt st))
      as [[[[] | e] st1] |] eqn:Hprep;
      try (unfold mutateAsync, bind, fresh_locals in Hrun;
           unfold freshSt in Hprep; rewrite Hprep in Hrun; discriminate).
    pose proof (prepareAll_compressed env _ _ _ _ Hin Hflag _ _ Hprep) as Hskip.
    rewrite (mutateAsync_after_prepare env _ _ _ _ _ Hprep) in Hrun.
    destruct (is_empty (makeGroups (prepared st1))).
    + inversion Hrun; subst. exact Hskip.
    + destruct (sendGroups env owner _ st1) as [[[ok | e] st2] |]; try discriminate.
      inversion Hrun; subst. exact Hskip.
Qed.

(** * The choice among the pNFT candidates (claim C4) *)

Section PnftChoice.
Context {World : Type}.
Variable env : Env World.
Implicit Types st : St World.

(** A loop that found nothing among [pre] goes on with what follows. *)
Lemma pnftPickLoop_app owner pre post :
  forall st st1,
    pnftPickLoop env owner pre st = Some (Returns None, st1) ->
    pnftPickLoop env owner (pre ++ post) st = pnftPickLoop env owner post st1.
Proof.
  induction pre as [| cand rest IH]; intros st st1 Hpre; simpl in *.
  - inversion Hpre; subst. reflexivity.
  - destruct (cand_ixs cand) as [ixs |]; [| exact (IH _ _ Hpre)].
    destruct (is_empty ixs); [exact (IH _ _ Hpre) |].
    unfold bind in *.
    destruct (simulateIxs env owner _ _ st) as [[[sim | e] st0] |];
      try discriminate.
    destruct (sim_ok sim); [discriminate |]. exact (IH _ _ Hpre).
Qed.

Lemma is_empty_false {A} (l : list A) : is_empty l = false <-> l <> [].
Proof. destruct l; simpl; split; congruence. Qed.

(** The candidate the loop returns is the first one accepted. *)
Lemma pnftPickLoop_found owner order :
  forall st ixs st',
    pnftPickLoop env owner order st = Some (Returns (Some ixs), st') ->
    exists pre c post st1,
      order = pre ++ c :: post /\
      cand_ixs c = Some ixs /\ ixs <> [] /\
      pnftPickLoop env owner pre st = Some (Returns None, st1) /\
      simulateIxs env owner (budgetIxs ++ ixs) ("pnft-pick " +:+ cand_name c) st1
      = Some (Returns SimOk, st').
Proof.
  induction order as [| cand rest IH]; intros st ixs st' Hrun; simpl in Hrun.
  - discriminate.
  - assert (Hskip : forall st0,
               pnftPickLoop env owner [cand] st = Some (Returns None, st0) ->
               pnftPickLoop env owner rest st0 = Some (Returns (Some ixs), st') ->
               exists pre c post st1,
                 cand :: rest = pre ++ c :: post /\
                 cand_ixs c = Some ixs /\ ixs <> [] /\
                 pnftPickLoop env owner pre st = Some (Returns None, st1) /\
                 simulateIxs env owner (budgetIxs ++ ixs)
                             ("pnft-pick " +:+ cand_name c) st1
                 = Some (Returns SimOk, st')).
    { intros st0 Hone Hrest.
      destruct (IH _ _ _ Hrest) as (pre & c & post & st1 & -> & Hc & Hne & Hpre & Hsim).
      exists (cand :: pre), c, post, st1. repeat split; try assumption.
      change (cand :: pre) with ([cand] ++ pre).
      rewrite (pnftPickLoop_app owner [cand] pre _ _ Hone). exact Hpre. }
    destruct (cand_ixs cand) as [cixs |] eqn:Hc.
    + destruct (is_empty cixs) eqn:Hempty.
      * apply (Hskip st); [| exact Hrun]. simpl. rewrite Hc, Hempty. reflexivity.
      * unfold bind in Hrun.
        destruct (simulateIxs env owner _ _ st) as [[[sim | e] st0] |] eqn:Hsim;
          try discriminate.
        destruct sim as [| err errStr logs]; simpl in Hrun.
        -- inversion Hrun; subst.
           exists [], cand, rest, st. repeat split; try assumption.
           apply is_empty_false, Hempty.
        -- apply (Hskip st0); [| exact Hrun].
           simpl. rewrite Hc, Hempty. unfold bind. rewrite Hsim. reflexivity.
    + apply (Hskip st); [| exact Hrun]. simpl. rewrite Hc. reflexivity.
Qed.

(** A loop that found nothing simulated every candidate that exists and is
    not empty, and each was rejected. *)
Lemma pnftPickLoop_none owner pre c post ixs :
  forall st st',
    pnftPickLoop env owner (pre ++ c :: post) st = Some (Returns None, st') ->
    cand_ixs c = Some ixs -> ixs <> [] ->
    exists st1 st2 err errStr logs,
      pnftPickLoop env owner pre st = Some (Returns None, st1) /\
      simulateIxs env owner (budgetIxs ++ ixs) ("pnft-pick " +:+ cand_name c) st1
      = Some (Returns (SimFail err errStr logs), st2).
Proof.
  induction pre as [| cand rest IH]; intros st st' Hrun Hc Hne; simpl in Hrun.
  - rewrite Hc in Hrun. apply is_empty_false in Hne. rewrite Hne in Hrun.
    unfold bind in Hrun.
    destruct (simulateIxs env owner _ _ st) as [[[sim | e] st0] |] eqn:Hsim;
      try discriminate.
    destruct sim as [| err errStr logs]; simpl in Hrun; [discriminate |].
    exists st, st0, err, errStr, logs. split; [reflexivity | exact Hsim].
  - simpl. destruct (cand_ixs cand) as [cixs |]; [| exact (IH _ _ Hrun Hc Hne)].
    destruct (is_empty cixs); [exact (IH _ _ Hrun Hc Hne) |].
    unfold bind in *.
    destruct (simulateIxs env owner _ _ st) as [[[sim | e] st0] |];
      try discriminate.
    destruct (sim_ok sim); [discriminate |]. exact (IH _ _ Hrun Hc Hne).
Qed.

(** A first candidate that exists and is accepted is the choice. *)
Lemma pnftPickLoop_head owner c rest ixs label st st' :
  cand_ixs c = Some ixs -> ixs <> [] ->
  simulateIxs env owner (budgetIxs ++ ixs) label st = Some (Returns SimOk, st') ->
  pnftPickLoop env owner (c :: rest) st = Some (Returns (Some ixs), st').
Proof.
  intros Hc Hne Hsim. cbn [pnftPickLoop]. rewrite Hc.
  apply is_empty_false in Hne. rewrite Hne. unfold bind.
  change (simulateIxs env owner (budgetIxs ++ ixs) _ st)
    with (simulateIxs env owner (budgetIxs ++ ixs) label st).
  rewrite Hsim. reflexivity.
Qed.

Lemma pnftFallback_first variants :
  pnftFallback variants = firstExisting (pnftOrder variants) /\
  is_Some (firstExisting (pnftOrder variants)).
Proof.
  unfold pnftFallback, firstExisting, pnftOrder, nullish_or. simpl.
  destruct (burnOnlyWithRules variants); simpl; split; eauto.
Qed.
End PnftChoice.

(** What the pNFT builder offers when the metadata names a rule set: the
    burn built with the rules, and the unlock followed by that burn. *)
Lemma buildPnftVariants_with_rules {World : Type} (env : Env World)
    (owner mint ta : PublicKey) (coll : option PublicKey) (st st1 : St World)
    acc w1 md w2 rs k v :
  umiGetAccount env (findTokenRecordPda env mint ta) (world st) = (Returns acc, w1) ->
  fetchMetadata env mint w1 = (Returns md, w2) ->
  md_ruleSet md = Some rs ->
  umiPk env rs = Returns k ->
  buildPnftVariants env owner mint ta coll st = Some (Returns (Some v), st1) ->
  exists b u,
    burnV1 env owner
           (mkTmInput mint owner ta (findMetadataPda env mint)
                      (Some (findMasterEditionPda env mint))
                      (Some (findTokenRecordPda env mint ta)) coll
                      (match coll with
                       | Some c => Some (findMetadataPda env c)
                       | None => None
                       end)
                      (Some k) None)
    = Returns b /\
    burnOnlyWithRules v = Some b /\
    unlockThenBurnWithRules v = Some (u ++ b).
Proof.
  intros Hacc Hmd Hrs Hk Hrun.
  unfold buildPnftVariants, try_catch, bind, call, lift, ret, throw in Hrun.
  cbv zeta in Hrun. rewrite Hacc in Hrun. cbv beta iota in Hrun.
  cbn [world calls skipped prepared] in Hrun.
  rewrite Hmd in Hrun. cbv beta iota in Hrun. rewrite Hrs, Hk in Hrun.
  cbv beta iota in Hrun.
  destruct (burnV1 env owner
              (mkTmInput mint owner ta (findMetadataPda env mint)
                 (Some (findMasterEditionPda env mint))
                 (Some (findTokenRecordPda env mint ta)) coll
                 (match coll with
                  | Some c => Some (findMetadataPda env c)
                  | None => None
                  end) None None)) as [b0 | e0]; cbv beta iota in Hrun;
    [| discriminate Hrun].
  destruct (unlockV1 env owner _) as [u | e1]; cbv beta iota in Hrun;
    [| discriminate Hrun].
  destruct (burnV1 env owner
              (mkTmInput mint owner ta (findMetadataPda env mint)
                 (Some (findMasterEditionPda env mint))
                 (Some (findTokenRecordPda env mint ta)) coll
                 (match coll with
                  | Some c => Some (findMetadataPda env c)
                  | None => None
                  end) (Some k) None)) as [b | e2]; cbv beta iota in Hrun;
    [| discriminate Hrun].
  exists b, u. inversion Hrun. auto.
Qed.

(** C4, counterexample: a pNFT with a rule set whose four candidates are
    all accepted.  The burn with rules is the one picked, and with deepClean
    on it is what the selector prepares; with deepClean off the selector
    prepares the plain burn of the token instead, under the kind spl. *)
Lemma pick_is_dropped_without_deep_clean :
  exists st1 st2 st3 st4,
    buildPnftVariants Scenes.pnftEnv "owner" "m" "ata:m" None Script.st0
    = Some (Returns (Some (Scenes.builtVariants "m")), st1) /\
    pnftPick Scenes.pnftEnv "owner" (Scenes.builtVariants "m") st1
    = Some (Returns (Some [IxLibrary "burn+rules" ["m"]]), st2) /\
    prepareItem Scenes.pnftEnv true "owner" (Script.hintedItem "m") Script.st0
    = Some (Returns tt, st3) /\
    prepared st3 = [mkPrepared "m" [IxLibrary "burn+rules" ["m"]] pnft] /\
    prepareItem Scenes.pnftEnv false "owner" (Script.hintedItem "m") Script.st0
    = Some (Returns tt, st4) /\
    prepared st4
    = [mkPrepared "m" (splIxs "ata:m" "m" "owner" TOKEN_PROGRAM_ID) spl].
Proof.
  eexists _, _, _, _.
  split; [vm_compute; reflexivity |]. split; [vm_compute; reflexivity |].
  split; [vm_compute; reflexivity |]. split; [reflexivity |].
  split; [vm_compute; reflexivity | reflexivity].
Qed.

(** C4: the candidates are tried in the order burn-with-rules,
    burn-without-rules, unlock-then-burn-with-rules,
    unlock-then-burn-without-rules.  The one chosen by simulation is the
    first accepted: the loop over those before it ended without a choice.  A
    loop that ends without a choice has seen every existing, non-empty
    candidate rejected.  When burn-with-rules exists and is accepted it is
    chosen whatever the others would do.  When none is accepted the choice
    is the first candidate of the same order that exists, and nothing more is
    simulated for it.  When the metadata of the asset names a rule set, the
    burn built with the rules is among the candidates, and if it is accepted
    it is what the selector prepares with deepClean on.  What the selector
    does with the choice depends on
    deepClean: when it is on, the asset is prepared with the chosen
    candidate under the kind pnft; when it is off, the choice is dropped and
    the asset is prepared with the plain burn and the closing of its
    holding account under the kind spl. *)
Theorem pnft_first_accepted_in_priority_order :
  forall (World : Type) (env : Env World) (owner : PublicKey)
         (variants : PnftVariants),
    (map cand_name (pnftOrder variants)
     = ["burn only (with rules)"; "burn only (no rules)";
        "unlock+burn (with rules)"; "unlock+burn (no rules)"] /\
     map cand_ixs (pnftOrder variants)
     = [burnOnlyWithRules variants; Some (burnOnly variants);
        unlockThenBurnWithRules variants; Some (unlockThenBurn variants)]) /\
    (forall (st : St World) ixs st',
        pnftPickLoop env owner (pnftOrder variants) st
        = Some (Returns (Some ixs), st') ->
        pnftPick env owner variants st = Some (Returns (Some ixs), st') /\
        exists pre c post st1,
          pnftOrder variants = pre ++ c :: post /\
          cand_ixs c = Some ixs /\ ixs <> [] /\
          pnftPickLoop env owner pre st = Some (Returns None, st1) /\
          simulateIxs env owner (budgetIxs ++ ixs) ("pnft-pick " +:+ cand_name c) st1
          = Some (Returns SimOk, st')) /\
    (forall (st : St World) st' pre c post ixs,
        pnftPickLoop env owner (pnftOrder variants) st = Some (Returns None, st') ->
        pnftOrder variants = pre ++ c :: post ->
        cand_ixs c = Some ixs -> ixs <> [] ->
        exists st1 st2 err errStr logs,
          pnftPickLoop env owner pre st = Some (Returns None, st1) /\
          simulateIxs env owner (budgetIxs ++ ixs) ("pnft-pick " +:+ cand_name c) st1
          = Some (Returns (SimFail err errStr logs), st2)) /\
    (forall (st : St World) ixs label st',
        burnOnlyWithRules variants = Some ixs -> ixs <> [] ->
        simulateIxs env owner (budgetIxs ++ ixs) label st = Some (Returns SimOk, st') ->
        pnftPick env owner variants st = Some (Returns (Some ixs), st')) /\
    (forall (st : St World) st',
        pnftPickLoop env owner (pnftOrder variants) st = Some (Returns None, st') ->
        pnftPick env owner variants st
        = Some (Returns (firstExisting (pnftOrder variants)), st') /\
        is_Some (firstExisting (pnftOrder variants))) /\
    (forall (it : NftBurnItem) (programId ta : PublicKey) (st st1 st2 : St World) ixs,
        buildPnftVariants env owner (mint it) ta (collectionMintHint it) st
        = Some (Returns (Some variants), st1) ->
        pnftPick env owner variants st1 = Some (Returns (Some ixs), st2) ->
        prepareSplOrPnft env true owner it programId ta st
        = Some (Returns tt,
                mkSt (world st2) (calls st2) (skipped st2)
                     (prepared st2 ++ [mkPrepared (mint it) ixs pnft])) /\
        prepareSplOrPnft env false owner it programId ta st
        = Some (Returns tt,
                mkSt (world st2) (calls st2) (skipped st2)
                     (prepared st2
                        ++ [mkPrepared (mint it)
                                       (splIxs ta (mint it) owner programId) spl]))) /\
    (forall (it : NftBurnItem) (programId ata : PublicKey) (st st1 st2 : St World) ixs,
        flag (isCompressed it) = false ->
        flag (isCoreHint it) = false ->
        programIdHint it = Some programId ->
        tokenAccount it = None ->
        getAssociatedTokenAddress env (mint it) owner programId
                                  ASSOCIATED_TOKEN_PROGRAM_ID = Returns ata ->
        buildPnftVariants env owner (mint it) ata (collectionMintHint it) st
        = Some (Returns (Some variants), st1) ->
        pnftPick env owner variants st1 = Some (Returns (Some ixs), st2) ->
        prepareItem env true owner it st
        = Some (Returns tt,
                mkSt (world st2) (calls st2) (skipped st2)
                     (prepared st2 ++ [mkPrepared (mint it) ixs pnft])) /\
        prepareItem env false owner it st
        = Some (Returns tt,
                mkSt (world st2) (calls st2) (skipped st2)
                     (prepared st2
                        ++ [mkPrepared (mint it)
                                       (splIxs ata (mint it) owner programId) spl]))) /\
    (forall (it : NftBurnItem) (programId ta : PublicKey) (st st1 : St World)
            acc w1 md w2 rs k,
        umiGetAccount env (findTokenRecordPda env (mint it) ta) (world st)
        = (Returns acc, w1) ->
        fetchMetadata env (mint it) w1 = (Returns md, w2) ->
        md_ruleSet md = Some rs ->
        umiPk env rs = Returns k ->
        buildPnftVariants env owner (mint it) ta (collectionMintHint it) st
        = Some (Returns (Some variants), st1) ->
        exists b,
          burnV1 env owner
                 (mkTmInput (mint it) owner ta (findMetadataPda env (mint it))
                            (Some (findMasterEditionPda env (mint it)))
                            (Some (findTokenRecordPda env (mint it) ta))
                            (collectionMintHint it)
                            (match collectionMintHint it with
                             | Some c => Some (findMetadataPda env c)
                             | None => None
                             end)
                            (Some k) None)
          = Returns b /\
          burnOnlyWithRules variants = Some b /\
          is_Some (unlockThenBurnWithRules variants) /\
          forall st2,
            b <> [] ->
            simulateIxs env owner (budgetIxs ++ b)
                        "pnft-pick burn only (with rules)" st1
            = Some (Returns SimOk, st2) ->
            prepareSplOrPnft env true owner it programId ta st
            = Some (Returns tt,
                    mkSt (world st2) (calls st2) (skipped st2)
                         (prepared st2 ++ [mkPrepared (mint it) b pnft]))).
Proof.
  intros World env owner variants.
  assert (Hfirst : forall (st : St World) ixs label st',
             burnOnlyWithRules variants = Some ixs -> ixs <> [] ->
             simulateIxs env owner (budgetIxs ++ ixs) label st
             = Some (Returns SimOk, st') ->
             pnftPick env owner variants st = Some (Returns (Some ixs), st')).
  { intros st ixs label st' Hrules Hne Hsim.
    unfold pnftPick, bind, pnftOrder.
    rewrite (pnftPickLoop_head env owner
               (mkCandidate "burn only (with rules)" (burnOnlyWithRules variants))
               _ ixs label st st' Hrules Hne Hsim).
    reflexivity. }
  assert (Hprepared : forall (it : NftBurnItem) (programId ta : PublicKey)
                             (st st1 st2 : St World) ixs,
             buildPnftVariants env owner (mint it) ta (collectionMintHint it) st
             = Some (Returns (Some variants), st1) ->
             pnftPick env owner variants st1 = Some (Returns (Some ixs), st2) ->
             prepareSplOrPnft env true owner it programId ta st
             = Some (Returns tt,
                     mkSt (world st2) (calls st2) (skipped st2)
                          (prepared st2 ++ [mkPrepared (mint it) ixs pnft])) /\
             prepareSplOrPnft env false owner it programId ta st
             = Some (Returns tt,
                     mkSt (world st2) (calls st2) (skipped st2)
                          (prepared st2
                             ++ [mkPrepared (mint it)
                                            (splIxs ta (mint it) owner programId)
                                            spl]))).
  { intros it programId ta st st1 st2 ixs Hbuild Hpick.
    split; unfold prepareSplOrPnft, bind; rewrite Hbuild; cbv beta iota;
      rewrite Hpick; reflexivity. }
  split; [split; reflexivity |].
  split; [| split; [| split; [| split; [| split; [| split]]]]].
  - intros st ixs st' Hloop. split.
    + unfold pnftPick, bind. rewrite Hloop. reflexivity.
    + apply pnftPickLoop_found, Hloop.
  - intros st st' pre c post ixs Hloop Horder Hc Hne.
    rewrite Horder in Hloop. exact (pnftPickLoop_none env _ _ _ _ _ _ _ Hloop Hc Hne).
  - exact Hfirst.
  - intros st st' Hloop.
    destruct (pnftFallback_first variants) as [Hfb Hsome].
    split; [| exact Hsome].
    unfold pnftPick, bind. rewrite Hloop, Hfb. reflexivity.
  - exact Hprepared.
  - intros it programId ata st st1 st2 ixs Hcomp Hcore Hhint Hta Hata Hbuild Hpick.
    split; unfold prepareItem; cbv zeta; rewrite Hcomp, Hcore, Hta;
      unfold resolveProgramId; rewrite Hhint;
      unfold try_catch, bind, ret; cbv beta iota;
      unfold resolveAtaByMintProgram, bind; rewrite Hata;
      unfold lift, ret; cbv beta iota; cbn [fst];
      unfold prepareSplOrPnft, bind; rewrite Hbuild; cbv beta iota;
      rewrite Hpick; reflexivity.
  - intros it programId ta st st1 acc w1 md w2 rs k Hacc Hmd Hrs Hk Hbuild.
    destruct (buildPnftVariants_with_rules env owner (mint it) ta
                (collectionMintHint it) st st1 acc w1 md w2 rs k variants
                Hacc Hmd Hrs Hk Hbuild) as (b & u & Hburn & Hwith & Hunlock).
    exists b. split; [exact Hburn |]. split; [exact Hwith |].
    split; [rewrite Hunlock; eexists; reflexivity |].
    intros st2 Hne Hsim.
    apply (Hprepared it programId ta st st1 st2 b Hbuild).
    exact (Hfirst st1 b _ st2 Hwith Hne Hsim).
Qed.

(** * The token program of an asset (claim C8) *)

(** C8, counterexample: every mint account is owned by the Token-2022
    program, yet for a descriptor whose hint names the classic program the
    classic program is taken, without a read, and the burn is built for it;
    without the hint the chain is read and Token-2022 is taken. *)
Lemma hint_decides_program_variant :
  exists st1 st2 st3,
    resolveProgramId Script.token2022Env (Script.hintedItem "m") Script.st0
    = Some (Returns TOKEN_PROGRAM_ID, Script.st0) /\
    resolveProgramId Script.token2022Env (Script.unhintedItem "m") Script.st0
    = Some (Returns TOKEN_2022_PROGRAM_ID, st1) /\
    TOKEN_PROGRAM_ID <> TOKEN_2022_PROGRAM_ID /\
    prepareItem Script.token2022Env false "owner" (Script.hintedItem "m") Script.st0
    = Some (Returns tt, st2) /\
    prepared st2 = [mkPrepared "m" (splIxs "ata:m" "m" "owner" TOKEN_PROGRAM_ID) spl] /\
    prepareItem Script.token2022Env false "owner" (Script.unhintedItem "m") Script.st0
    = Some (Returns tt, st3) /\
    prepared st3
    = [mkPrepared "m" (splIxs "ata:m" "m" "owner" TOKEN_2022_PROGRAM_ID) spl].
Proof.
  eexists _, _, _.
  split; [reflexivity |]. split; [vm_compute; reflexivity |].
  split; [discriminate |]. split; [vm_compute; reflexivity |].
  split; [reflexivity |]. split; [vm_compute; reflexivity | reflexivity].
Qed.

(** C8, as the code has it: a program hint, when the descriptor carries
    one, is the resolved program and nothing is read; without a hint the
    owner of the mint account is read, and the resolved program is
    Token-2022 when that owner is the Token-2022 program, the classic token
    program otherwise.  For the selector this read is all the difference: on
    an asset that is neither compressed nor Core and comes without a hint,
    it reads the mint account and then goes on exactly as it does on the
    same asset hinted with the program it has read. *)
Theorem program_variant_from_hint_else_chain :
  forall (World : Type) (env : Env World) (it : NftBurnItem) (st : St World),
    (forall hint,
        programIdHint it = Some hint ->
        resolveProgramId env it st = Some (Returns hint, st)) /\
    (programIdHint it = None ->
     resolveProgramId env it st = getMintProgramId env (mint it) st /\
     forall info w',
       getAccountInfo env (mint it) Processed (world st) = (Returns (Some info), w') ->
       resolveProgramId env it st
       = Some (Returns (if pk_equals (ai_owner info) TOKEN_2022_PROGRAM_ID
                        then TOKEN_2022_PROGRAM_ID else TOKEN_PROGRAM_ID),
               mkSt w' (calls st ++ [CallGetAccountInfo (mint it) Processed])
                    (skipped st) (prepared st))) /\
    (forall (deepClean : bool) (owner : PublicKey) info w',
        flag (isCompressed it) = false ->
        flag (isCoreHint it) = false ->
        programIdHint it = None ->
        getAccountInfo env (mint it) Processed (world st) = (Returns (Some info), w') ->
        prepareItem env deepClean owner it st
        = prepareItem env deepClean owner
            (withHint it (if pk_equals (ai_owner info) TOKEN_2022_PROGRAM_ID
                          then TOKEN_2022_PROGRAM_ID else TOKEN_PROGRAM_ID))
            (mkSt w' (calls st ++ [CallGetAccountInfo (mint it) Processed])
                  (skipped st) (prepared st))).
Proof.
  intros World env it st. split; [| split].
  - intros hint Hhint. unfold resolveProgramId. rewrite Hhint. reflexivity.
  - intros Hnone. unfold resolveProgramId. rewrite Hnone. split; [reflexivity |].
    intros info w' Hread. unfold getMintProgramId, bind, call.
    rewrite Hread. reflexivity.
  - intros deepClean owner info w' Hcomp Hcore Hnone Hread.
    unfold prepareItem. cbv zeta.
    cbn [withHint mint tokenAccount isCompressed isCoreHint collectionMintHint].
    rewrite Hcomp, Hcore.
    unfold resolveProgramId. cbn [withHint programIdHint]. rewrite Hnone.
    unfold try_catch. unfold bind at 1 3.
    unfold getMintProgramId, bind at 1, call. rewrite Hread.
    reflexivity.
Qed.

(** * A Core asset whose record is missing (claim C9) *)

(** C9, counterexample: the record of the Core asset cannot be fetched; the
    exception comes out of [buildCoreBurnVariants], and the run records the
    asset as skipped. *)
Lemma missing_core_record_is_skipped :
  exists st1 st2,
    buildCoreBurnVariants Script.quietEnv "owner" "a1" Script.st0
    = Some (Throws (mkError "asset not found"), st1) /\
    mutateAsync Script.quietEnv true (Some "owner") [Script.coreItem "a1"] Script.st0
    = Some (Returns (mkResult [] [mkBurnSkip "a1" "core build failed: asset not found"]),
            st2) /\
    calls st2 = [CallCoreFetchAsset "a1"].
Proof.
  eexists _, _. split; [vm_compute; reflexivity |].
  split; [vm_compute; reflexivity | reflexivity].
Qed.

(** C9, as the code has it: when fetching the record of a Core-hinted asset
    throws, the exception comes out of [buildCoreBurnVariants]; the caller
    catches it, records the asset as skipped with the reason
    "core build failed: " followed by the message of the error, and goes on;
    no other builder is called for the asset. *)
Theorem missing_core_record_skips_asset :
  forall (World : Type) (env : Env World) (deepClean : bool) (owner : PublicKey)
         (it : NftBurnItem) (st : St World) (e : JsValue) (w' : World),
    flag (isCompressed it) = false ->
    flag (isCoreHint it) = true ->
    coreFetchAsset env (mint it) (world st) = (Throws e, w') ->
    buildCoreBurnVariants env owner (mint it) st
    = Some (Throws e,
            mkSt w' (calls st ++ [CallCoreFetchAsset (mint it)])
                 (skipped st) (prepared st)) /\
    prepareItem env deepClean owner it st
    = Some (Returns tt,
            mkSt w' (calls st ++ [CallCoreFetchAsset (mint it)])
                 (skipped st
                    ++ [mkBurnSkip (toBase58 (mint it))
                                   ("core build failed: " +:+ messageOrUnknown e)])
                 (prepared st)).
Proof.
  intros World env deepClean owner it st e w' Hcomp Hcore Hfetch.
  assert (Hbuild : buildCoreBurnVariants env owner (mint it) st
                   = Some (Throws e,
                           mkSt w' (calls st ++ [CallCoreFetchAsset (mint it)])
                                (skipped st) (prepared st))).
  { unfold buildCoreBurnVariants, bind, call. rewrite Hfetch. reflexivity. }
  split; [exact Hbuild |].
  unfold prepareItem. cbv zeta. rewrite Hcomp, Hcore.
  unfold try_catch at 1. unfold try_catch at 1. unfold bind at 1.
  rewrite Hbuild. reflexivity.
Qed.

(** * Merging enriched assets (claim C10) *)

Section Merge.
Variable Content : Type.
Implicit Types enriched curr : list (HeliusAsset Content).
Implicit Types m : gmap string (HeliusAsset Content).

Lemma foldl_insert_Some enriched :
  forall m k e,
    foldl (fun m e => <[id e := e]> m) m enriched !! k = Some e ->
    m !! k = Some e \/ (In e enriched /\ id e = k).
Proof.
  induction enriched as [| x rest IH]; intros m k e Hlook; simpl in *.
  - left. exact Hlook.
  - destruct (IH _ _ _ Hlook) as [Hins | [Hin Hid]].
    + rewrite lookup_insert in Hins. case_decide as Hk.
      * inversion Hins; subst. right. split; [left; reflexivity | reflexivity].
      * left. exact Hins.
    + right. split; [right; exact Hin | exact Hid].
Qed.

Lemma foldl_insert_None enriched :
  forall m k,
    ~ In k (map id enriched) ->
    foldl (fun m e => <[id e := e]> m) m enriched !! k = m !! k.
Proof.
  induction enriched as [| x rest IH]; intros m k Hnot; simpl in *.
  - reflexivity.
  - rewrite IH by tauto. apply lookup_insert_ne. tauto.
Qed.

Lemma byId_Some enriched k e :
  byId enriched !! k = Some e -> In e enriched /\ id e = k.
Proof.
  intros Hlook. destruct (foldl_insert_Some _ _ _ _ Hlook) as [Hempty | H].
  - rewrite lookup_empty in Hempty. discriminate.
  - exact H.
Qed.

Lemma byId_None enriched k :
  ~ In k (map id enriched) -> byId enriched !! k = None.
Proof.
  intros Hnot. unfold byId. rewrite foldl_insert_None by exact Hnot.
  apply lookup_empty.
Qed.

Lemma mergeEnriched_lookup enriched curr :
  forall i,
    mergeEnriched enriched curr !! i
    = match curr !! i with
      | Some c => Some (match byId enriched !! id c with
                        | Some e => e
                        | None => c
                        end)
      | None => None
      end.
Proof.
  induction curr as [| c rest IH]; intros [| i]; simpl; try reflexivity.
  apply IH.
Qed.
End Merge.

(** C10: the list an enrichment update puts in place of the current one has
    the same length and the same ids in the same order; at every position it
    holds either the asset that was there or an asset of the enriched batch
    with the same id; and an asset whose id is not in the batch stays as it
    is. *)
Theorem merge_keeps_length_order_and_others :
  forall (Content : Type) (enriched curr : list (HeliusAsset Content)),
    length (mergeEnriched enriched curr) = length curr /\
    map id (mergeEnriched enriched curr) = map id curr /\
    (forall i c,
        curr !! i = Some c ->
        exists c',
          mergeEnriched enriched curr !! i = Some c' /\
          id c' = id c /\ (c' = c \/ In c' enriched)) /\
    (forall i c,
        curr !! i = Some c ->
        ~ In (id c) (map id enriched) ->
        mergeEnriched enriched curr !! i = Some c).
Proof.
  intros Content enriched curr. split; [| split; [| split]].
  - unfold mergeEnriched. apply length_map.
  - unfold mergeEnriched. rewrite map_map. apply map_ext. intros c.
    destruct (byId enriched !! id c) as [e |] eqn:Hlook; [| reflexivity].
    apply (byId_Some _ _ _ _ Hlook).
  - intros i c Hc. rewrite mergeEnriched_lookup, Hc.
    destruct (byId enriched !! id c) as [e |] eqn:Hlook.
    + destruct (byId_Some _ _ _ _ Hlook) as [Hin Hid].
      exists e. split; [reflexivity |]. split; [exact Hid | right; exact Hin].
    + exists c. split; [reflexivity |]. split; [reflexivity | left; reflexivity].
  - intros i c Hc Hnot. rewrite mergeEnriched_lookup, Hc.
    rewrite (byId_None _ _ _ Hnot). reflexivity.
Qed.

(** * The theorems at work on the scripted environments *)

Section Worked.
Import Script.

(** Three bare-token assets go out in one transaction. *)
Example three_bare_tokens_one_transaction :
  exists r st',
    mutateAsync quietEnv false (Some "owner") (map bareItem ["m1"; "m2"; "m3"]) st0
    = Some (Returns r, st') /\
    r_ok r = [mkBurnOk "m1" "sig"; mkBurnOk "m2" "sig"; mkBurnOk "m3" "sig"] /\
    r_skipped r = [] /\
    length (List.filter isWalletCall (calls st')) = 1%nat.
Proof.
  eexists _, _. split; [vm_compute; reflexivity |]. repeat split.
Qed.

(** Eight bare-token assets whose transaction is oversized go out as two
    transactions of four. *)
Example eight_bare_tokens_split_in_two :
  exists r st',
    mutateAsync (tightEnv 10) true (Some "owner") eightItems st0
    = Some (Returns r, st') /\
    length (r_ok r) = 8%nat /\ r_skipped r = [] /\
    length (List.filter isWalletCall (calls st')) = 2%nat.
Proof.
  eexists _, _. split; [vm_compute; reflexivity |]. repeat split.
Qed.

Lemma quietEnv_neverDeclines : neverDeclines quietEnv.
Proof.
  intros e [(c & w & w' & H) | [(msg & H) | (tx & slot & opts & w & w' & H)]];
    simpl in H; discriminate H.
Qed.

(** C1 on three assets, one of them compressed, with a wallet that signs;
    and on one asset with a user who refuses. *)
Lemma every_item_settled_witness :
  (exists r st',
      mutateAsync quietEnv true (Some "owner") threeItems st0 = Some (Returns r, st') /\
      (length (r_ok r) + length (r_skipped r) <= 3)%nat /\
      (length (r_ok r) + length (r_skipped r))%nat = 3%nat) /\
  (exists r st' owner st1,
      mutateAsync decliningEnv true (Some "owner") [bareItem "m1"] st0
      = Some (Returns r, st') /\
      prepareAll decliningEnv true owner [bareItem "m1"] (freshSt st0)
      = Some (Returns tt, st1) /\
      (length (r_ok r) + length (r_skipped r)
       + declinedItems decliningEnv (queueFuel (makeGroups (prepared st1))) owner []
                       (makeGroups (prepared st1)) st1)%nat = 1%nat).
Proof.
  split.
  - eexists _, _. split; [vm_compute; reflexivity |].
    edestruct (every_item_settled_unless_declined unit quietEnv true (Some "owner")
                 threeItems st0) as (_ & Hle & Heq); [vm_compute; reflexivity |].
    split; [exact Hle | exact (Heq quietEnv_neverDeclines)].
  - edestruct (every_item_settled_unless_declined unit decliningEnv true
                 (Some "owner") [bareItem "m1"] st0)
      as ((owner & st1 & _ & Hprep & Hexact) & _); [vm_compute; reflexivity |].
    eexists _, _, owner, st1. split; [vm_compute; reflexivity |].
    split; [exact Hprep | exact Hexact].
Defined.

(** C2 on a compressed asset that also carries the pNFT and Core hints. *)
Lemma compressed_is_skipped_witness :
  flag (isCompressed (compressedItem "c1")) = true /\
  prepareItem quietEnv true "owner" (compressedItem "c1") st0
  = Some (Returns tt, mkSt tt [] [mkBurnSkip "c1" "cNFT not supported"] []) /\
  exists r st',
    mutateAsync quietEnv true (Some "owner") threeItems st0 = Some (Returns r, st') /\
    In (compressedItem "c1") threeItems /\
    In (mkBurnSkip "c1" "cNFT not supported") (r_skipped r).
Proof.
  destruct (compressed_is_skipped_without_calls unit quietEnv true "owner")
    as [Hitem Hrun].
  split; [reflexivity |].
  split; [exact (Hitem (compressedItem "c1") st0 eq_refl) |].
  eexists _, _. split; [vm_compute; reflexivity |].
  split; [simpl; tauto |].
  eapply (Hrun threeItems (compressedItem "c1") st0);
    [vm_compute; reflexivity | simpl; tauto | reflexivity].
Defined.

(** C3 on a group of three that is too large for the simulator. *)
Lemma split_halves_witness :
  (exists simRes st1,
      simulateIxs (tightEnv 4) "owner" (finalizeIxs group3) "batch(3)" st0
      = Some (Returns simRes, st1) /\
      simOversized simRes = true /\
      (1 < length group3)%nat /\
      sendGroupsTurn (tightEnv 4) "owner" [] group3 [] st0
      = Some (Returns ([], [firstn 1 group3; skipn 1 group3]), st1)) /\
  (splitChain group3 2 /\ (2 <= Nat.log2_up (length group3))%nat) /\
  (exists o st',
      sendGroupsLoop (tightEnv 4) 9 "owner" [] [group3] st0 = Some (o, st') /\
      sendGroupsLoop (tightEnv 4) (queueFuel [group3]) "owner" [] [group3] st0
      = Some (o, st')).
Proof.
  destruct (split_halves_and_loop_ends unit (tightEnv 4) "owner")
    as (Hsplit & Hchain & Hloop & _).
  assert (Hc : splitChain group3 2).
  { apply chain_right; [simpl; lia |].
    apply chain_left; [simpl; lia |]. apply chain_end. }
  split; [| split].
  - eexists _, _. split; [vm_compute; reflexivity |].
    split; [reflexivity |]. split; [simpl; lia |].
    refine (proj1 (Hsplit [] group3 [] "batch(3)" st0 _ _ _ _ _));
      [vm_compute; reflexivity | reflexivity | simpl; lia].
  - split; [exact Hc | exact (Hchain group3 2 Hc)].
  - apply (Hloop 9%nat [] [group3] st0). vm_compute. lia.
Defined.

(** C4: burn with rules is rejected, burn without rules is accepted and
    chosen; when every simulation fails the choice falls back on burn
    with rules; when every simulation passes burn with rules is chosen,
    and the selector prepares it when deepClean is on and the plain burn
    when it is off. *)
Lemma pnft_priority_witness :
  (exists st',
      pnftPickLoop rulesRejectedEnv "owner" (pnftOrder fourVariants) st0
      = Some (Returns (Some [IxLibrary "burn" []]), st') /\
      pnftPick rulesRejectedEnv "owner" fourVariants st0
      = Some (Returns (Some [IxLibrary "burn" []]), st')) /\
  (exists st',
      burnOnlyWithRules fourVariants = Some [IxLibrary "burn+rules" []] /\
      simulateIxs quietEnv "owner" (budgetIxs ++ [IxLibrary "burn+rules" []])
                  "probe" st0
      = Some (Returns SimOk, st') /\
      pnftPick quietEnv "owner" fourVariants st0
      = Some (Returns (Some [IxLibrary "burn+rules" []]), st')) /\
  (exists st',
      pnftPickLoop chattyEnv "owner" (pnftOrder fourVariants) st0
      = Some (Returns None, st') /\
      pnftPick chattyEnv "owner" fourVariants st0
      = Some (Returns (Some [IxLibrary "burn+rules" []]), st')) /\
  (exists st2,
      prepareItem Scenes.pnftEnv true "owner" (hintedItem "m") st0
      = Some (Returns tt,
              mkSt (world st2) (calls st2) (skipped st2)
                   (prepared st2 ++ [mkPrepared "m" [IxLibrary "burn+rules" ["m"]]
                                                pnft])) /\
      prepareItem Scenes.pnftEnv false "owner" (hintedItem "m") st0
      = Some (Returns tt,
              mkSt (world st2) (calls st2) (skipped st2)
                   (prepared st2
                      ++ [mkPrepared "m" (splIxs "ata:m" "m" "owner" TOKEN_PROGRAM_ID)
                                     spl]))).
Proof.
  split; [| split; [| split]].
  - destruct (pnft_first_accepted_in_priority_order unit rulesRejectedEnv "owner"
                fourVariants) as (_ & Hfound & _).
    eexists. split; [vm_compute; reflexivity |].
    refine (proj1 (Hfound st0 [IxLibrary "burn" []] _ _)). vm_compute. reflexivity.
  - destruct (pnft_first_accepted_in_priority_order unit quietEnv "owner"
                fourVariants) as (_ & _ & _ & Hrules & _).
    eexists. split; [reflexivity |]. split; [vm_compute; reflexivity |].
    refine (Hrules st0 [IxLibrary "burn+rules" []] "probe" _ eq_refl _ _);
      [discriminate | vm_compute; reflexivity].
  - destruct (pnft_first_accepted_in_priority_order unit chattyEnv "owner"
                fourVariants) as (_ & _ & _ & _ & Hfallback & _).
    eexists. split; [vm_compute; reflexivity |].
    refine (proj1 (Hfallback st0 _ _)). vm_compute. reflexivity.
  - destruct (pnft_first_accepted_in_priority_order unit Scenes.pnftEnv "owner"
                (Scenes.builtVariants "m"))
      as (_ & _ & _ & _ & _ & _ & Hselector & _).
    eexists.
    eapply (Hselector (hintedItem "m") TOKEN_PROGRAM_ID "ata:m" st0);
      try reflexivity; vm_compute; reflexivity.
Defined.

(** C5 on a simulation that fails with thirteen log lines, and on a node
    that throws when it is asked for a blockhash. *)
Lemma simulateIxs_total_witness :
  simulateIxs chattyEnv "owner" [] "probe" st0
  = Some (Returns (SimFail (JsString "InstructionError") (Some "InstructionError")
                           (Some thirteenLogs)),
          mkSt tt [CallGetLatestBlockhash Processed;
                   CallSimulateTransaction (mkMessage "owner" "hash" [])] [] []) /\
  simulateIxs Scenes.rejectedBlockhashEnv "owner" [] "probe" st0
  = Some (Returns (SimFail (mkError "Connection rejected by peer")
                           (Some "Connection rejected by peer") None),
          mkSt tt [CallGetLatestBlockhash Processed] [] []).
Proof.
  split.
  - destruct (simulateIxs_total_and_classified unit chattyEnv "owner" [] "probe" st0)
      as (_ & _ & _ & _ & Hanswer & _).
    exact (Hanswer (mkCtx 7 "hash") tt
                   (mkSimValue (JsString "InstructionError") (Some thirteenLogs)) tt
                   eq_refl eq_refl eq_refl).
  - destruct (simulateIxs_total_and_classified unit Scenes.rejectedBlockhashEnv
                "owner" [] "probe" st0) as (_ & Hthrown & _).
    exact (Hthrown (mkError "Connection rejected by peer") tt eq_refl).
Defined.

(** C6: the user refuses the prompt for a group, the turn leaves the
    lists as they were; the wallet breaks, the run throws. *)
Lemma decline_and_abort_witness :
  (exists sA sB,
      simulateIxs decliningEnv "owner" (finalizeIxs group3) "batch(3)" st0
      = Some (Returns SimOk, sA) /\
      shouldSplit SimOk group3 = false /\
      submitAttempt decliningEnv "owner" (finalizeIxs group3) sA
      = Some (Throws (mkError "User rejected the request"), sB) /\
      userDeclined (mkError "User rejected the request") = true /\
      sendGroupsTurn decliningEnv "owner" [] group3 [] st0
      = Some (Returns ([], []), sB)) /\
  (exists st1 st2,
      prepareAll brokenWalletEnv true "owner" [bareItem "m1"] (freshSt st0)
      = Some (Returns tt, st1) /\
      sendGroups brokenWalletEnv "owner" (makeGroups (prepared st1)) st1
      = Some (Throws (mkError "Network request failed"), st2) /\
      userDeclined (mkError "Network request failed") = false /\
      mutateAsync brokenWalletEnv true (Some "owner") [bareItem "m1"] st0
      = Some (Throws (mkError "Network request failed"), st2)).
Proof.
  split.
  - destruct (decline_skips_group_other_errors_abort unit decliningEnv "owner")
      as [Hturn _].
    eexists _, _. split; [vm_compute; reflexivity |]. split; [reflexivity |].
    split; [vm_compute; reflexivity |]. split; [vm_compute; reflexivity |].
    refine (proj1 (proj1 (proj2 (Hturn [] group3 [] "batch(3)" st0 SimOk _
                                       (mkError "User rejected the request") _
                                       _ _ _)) _));
      [vm_compute; reflexivity | reflexivity | vm_compute; reflexivity
      | vm_compute; reflexivity].
  - destruct (decline_skips_group_other_errors_abort unit brokenWalletEnv "owner")
      as [_ Hrun].
    eexists _, _. split; [vm_compute; reflexivity |].
    split; [vm_compute; reflexivity |]. split; [vm_compute; reflexivity |].
    refine (Hrun true [bareItem "m1"] st0 _ _ _ _ _);
      [vm_compute; reflexivity | vm_compute; reflexivity].
Defined.

(** C7: a simulation that fails without being oversized does not keep the
    group of three from the wallet. *)
Lemma failed_simulation_still_submits_witness :
  exists simRes sA o st',
    simulateIxs chattyEnv "owner" (finalizeIxs group3) "batch(3)" st0
    = Some (Returns simRes, sA) /\
    sim_ok simRes = false /\ simOversized simRes = false /\
    sendGroupsTurn chattyEnv "owner" [] group3 [] st0 = Some (o, st') /\
    In (CallSignAndSend (mkMessage "owner" "hash" (finalizeIxs group3)) (Some 7%N)
                        (Some (mkOpts (Some true) None None)))
       (calls st').
Proof.
  edestruct (only_oversized_splittable_blocks_submission unit chattyEnv "owner"
               [] group3 [] "batch(3)" st0) as (Hfail & _ & _);
    [vm_compute; reflexivity |].
  destruct (Hfail eq_refl eq_refl) as [_ Hwallet].
  destruct (Hwallet (mkCtx 7 "hash") tt eq_refl eq_refl) as (o & st' & Hturn & Hin).
  eexists _, _, o, st'. split; [vm_compute; reflexivity |].
  split; [reflexivity |]. split; [reflexivity |]. split; [exact Hturn | exact Hin].
Defined.

(** C8 with and without a hint, on a chain where Token-2022 owns the mint. *)
Lemma program_variant_witness :
  resolveProgramId token2022Env (hintedItem "m") st0
  = Some (Returns TOKEN_PROGRAM_ID, st0) /\
  resolveProgramId token2022Env (unhintedItem "m") st0
  = Some (Returns TOKEN_2022_PROGRAM_ID,
          mkSt tt [CallGetAccountInfo "m" Processed] [] []) /\
  prepareItem token2022Env true "owner" (unhintedItem "m") st0
  = prepareItem token2022Env true "owner"
      (withHint (unhintedItem "m") TOKEN_2022_PROGRAM_ID)
      (mkSt tt [CallGetAccountInfo "m" Processed] [] []).
Proof.
  split; [| split].
  - exact (proj1 (program_variant_from_hint_else_chain unit token2022Env
                    (hintedItem "m") st0) TOKEN_PROGRAM_ID eq_refl).
  - exact (proj2 (proj1 (proj2 (program_variant_from_hint_else_chain unit
                                  token2022Env (unhintedItem "m") st0)) eq_refl)
                 (mkAccountInfo TOKEN_2022_PROGRAM_ID) tt eq_refl).
  - exact (proj2 (proj2 (program_variant_from_hint_else_chain unit token2022Env
                           (unhintedItem "m") st0))
                 true "owner" (mkAccountInfo TOKEN_2022_PROGRAM_ID) tt
                 eq_refl eq_refl eq_refl eq_refl).
Defined.

(** C9 on a Core asset whose record is missing. *)
Lemma missing_core_record_witness :
  buildCoreBurnVariants quietEnv "owner" "a1" st0
  = Some (Throws (mkError "asset not found"),
          mkSt tt [CallCoreFetchAsset "a1"] [] []) /\
  prepareItem quietEnv true "owner" (coreItem "a1") st0
  = Some (Returns tt,
          mkSt tt [CallCoreFetchAsset "a1"]
               [mkBurnSkip "a1" "core build failed: asset not found"] []).
Proof.
  exact (missing_core_record_skips_asset unit quietEnv true "owner" (coreItem "a1")
           st0 (mkError "asset not found") tt eq_refl eq_refl eq_refl).
Defined.

(** C10 on a list of three assets and a batch that enriches the second. *)
Lemma merge_witness :
  mergeEnriched richBatch rawAssets !! 0%nat = Some (mkAsset "a" "raw a") /\
  exists c', mergeEnriched richBatch rawAssets !! 1%nat = Some c' /\
             id c' = "b" /\ (c' = mkAsset "b" "raw b" \/ In c' richBatch).
Proof.
  destruct (merge_keeps_length_order_and_others string richBatch rawAssets)
    as (_ & _ & Hsame & Hother).
  split.
  - apply (Hother 0%nat (mkAsset "a" "raw a") eq_refl).
    simpl. intros [H | []]. discriminate H.
  - exact (Hsame 1%nat (mkAsset "b" "raw b") eq_refl).
Defined.
End Worked.

(** * Grouping *)

Section GroupShape.
Implicit Types prepared : list PreparedItem.

Lemma groupLoop_bounds max prepared fuel :
  forall i,
    (0 < max)%nat ->
    Forall (fun g : list Group => (1 <= length g <= max)%nat)
           (groupLoop fuel i max prepared).
Proof.
  induction fuel as [| fuel IH]; intros i Hmax; simpl; [constructor |].
  destruct (i <? length prepared)%nat eqn:Hi; [| constructor].
  apply Nat.ltb_lt in Hi. apply Forall_app. split; [| apply IH, Hmax].
  destruct (is_empty _) eqn:Hempty; [constructor |].
  constructor; [| constructor].
  rewrite length_map, length_take, length_drop. lia.
Qed.

Lemma ceil_div_step (n max : nat) :
  (0 < max -> 0 < n -> (n + max - 1) / max = S ((n - max + max - 1) / max))%nat.
Proof.
  intros Hmax Hn. destruct (Nat.le_gt_cases max n) as [Hle | Hlt].
  - replace (n + max - 1)%nat with ((n - max + max - 1) + 1 * max)%nat by lia.
    rewrite Nat.div_add by lia. lia.
  - replace (n - max + max - 1)%nat with (max - 1)%nat by lia.
    rewrite (Nat.div_small (max - 1) max) by lia.
    replace (n + max - 1)%nat with ((n - 1) + 1 * max)%nat by lia.
    rewrite Nat.div_add by lia. rewrite (Nat.div_small (n - 1) max) by lia.
    reflexivity.
Qed.

Lemma groupLoop_count max prepared fuel :
  forall i,
    (0 < max)%nat -> (length prepared - i <= fuel)%nat ->
    length (groupLoop fuel i max prepared)
    = ((length prepared - i + max - 1) / max)%nat.
Proof.
  induction fuel as [| fuel IH]; intros i Hmax Hfuel; simpl.
  - replace (length prepared - i + max - 1)%nat with (max - 1)%nat by lia.
    symmetry. apply Nat.div_small. lia.
  - destruct (i <? length prepared)%nat eqn:Hi.
    + apply Nat.ltb_lt in Hi. rewrite length_app, IH by lia.
      rewrite (ceil_div_step (length prepared - i) max) by lia.
      replace (length prepared - (i + max))%nat
        with (length prepared - i - max)%nat by lia.
      destruct (is_empty _) eqn:Hempty; [| reflexivity].
      exfalso. destruct (firstn max (skipn i prepared)) as [| p ps] eqn:Hslice;
        [| discriminate Hempty].
      apply (f_equal (@length PreparedItem)) in Hslice.
      rewrite length_take, length_drop in Hslice. cbn [length] in Hslice. lia.
    + apply Nat.ltb_ge in Hi.
      replace (length prepared - i + max - 1)%nat with (max - 1)%nat by lia.
      symmetry. apply Nat.div_small. lia.
Qed.

Lemma heavyCount_zero prepared :
  heavyCount prepared = 0%nat <-> Forall (fun p => p_kind p = spl) prepared.
Proof.
  unfold heavyCount. induction prepared as [| p rest IH]; simpl.
  - split; [constructor | reflexivity].
  - destruct (p_kind p) eqn:Hk; simpl.
    + rewrite IH. split; [intros H; constructor; assumption |].
      intros H. inversion H; assumption.
    + split; [discriminate |]. intros H. inversion H; congruence.
    + split; [discriminate |]. intros H. inversion H; congruence.
Qed.
End GroupShape.

(** X1: the groups are the prepared items in order, cut in slices; no
    group is empty or longer than the cap, there are ceil(n / cap) of them,
    and the cap is 16 when every prepared item is of kind spl, 6
    otherwise. *)
Theorem makeGroups_slices_in_order :
  forall (prepared : list PreparedItem),
    concat (makeGroups prepared) = map toGroup prepared /\
    Forall (fun g : list Group => (1 <= length g <= MAX_PER_TX prepared)%nat)
           (makeGroups prepared) /\
    length (makeGroups prepared)
    = ((length prepared + MAX_PER_TX prepared - 1) / MAX_PER_TX prepared)%nat /\
    (Forall (fun p => p_kind p = spl) prepared -> MAX_PER_TX prepared = 16%nat) /\
    (~ Forall (fun p => p_kind p = spl) prepared -> MAX_PER_TX prepared = 6%nat).
Proof.
  intros prepared. pose proof (MAX_PER_TX_pos prepared) as Hpos.
  split; [| split; [| split; [| split]]].
  - unfold makeGroups. rewrite groupLoop_concat by lia. reflexivity.
  - apply groupLoop_bounds, Hpos.
  - unfold makeGroups. rewrite groupLoop_count by lia. f_equal. lia.
  - intros Hall. apply heavyCount_zero in Hall. unfold MAX_PER_TX.
    rewrite Hall. reflexivity.
  - intros Hnot. unfold MAX_PER_TX.
    destruct (heavyCount prepared =? 0)%nat eqn:Hz; [| reflexivity].
    apply Nat.eqb_eq, heavyCount_zero in Hz. contradiction.
Qed.

(** * A batch of compressed assets *)

Section AllCompressed.
Context {World : Type}.
Variable env : Env World.

Lemma prepareAll_all_compressed deepClean owner rawItems :
  Forall (fun it => flag (isCompressed it) = true) rawItems ->
  forall st : St World,
    prepareAll env deepClean owner rawItems st
    = Some (Returns tt,
            mkSt (world st) (calls st)
                 (skipped st ++ map compressedSkip rawItems) (prepared st)).
Proof.
  induction 1 as [| it rest Hit _ IH]; intros st; simpl.
  - rewrite app_nil_r. destruct st; reflexivity.
  - unfold bind. rewrite (prepareItem_compressed env _ _ _ _ Hit).
    rewrite IH. simpl. rewrite <- app_assoc. reflexivity.
Qed.
End AllCompressed.

(** X2: a batch in which every descriptor is flagged compressed returns
    with nothing succeeded and one skip per descriptor, in order, without a
    single call to the chain, to a builder or to the wallet. *)
Theorem all_compressed_batch_makes_no_call :
  forall (World : Type) (env : Env World) (deepClean : bool) (owner : PublicKey)
         (rawItems : list NftBurnItem) (st : St World),
    Forall (fun it => flag (isCompressed it) = true) rawItems ->
    mutateAsync env deepClean (Some owner) rawItems st
    = Some (Returns (mkResult [] (map compressedSkip rawItems)),
            mkSt (world st) (calls st) (map compressedSkip rawItems) []).
Proof.
  intros World env deepClean owner rawItems st Hall.
  rewrite (mutateAsync_after_prepare env deepClean owner rawItems st
             (mkSt (world st) (calls st) (map compressedSkip rawItems) [])).
  - reflexivity.
  - rewrite (prepareAll_all_compressed env _ _ _ Hall). reflexivity.
Qed.

(** * What reaches the outside *)

Section EmitRules.
Context {World : Type}.
Implicit Types st : St World.
Variable P : Call -> Prop.

Lemma emits_ret {A} (a : A) : emits P (@ret World A a).
Proof.
  intros st. apply wp_ret. exists []. split; [symmetry; apply app_nil_r | constructor].
Qed.

Lemma emits_throw {A} e : emits P (@throw World A e).
Proof.
  intros st. apply wp_throw. exists [].
  split; [symmetry; apply app_nil_r | constructor].
Qed.

Lemma emits_lift {A} (o : Outcome A) : emits P (@lift World A o).
Proof. destruct o; [apply emits_ret | apply emits_throw]. Qed.

Lemma emits_call {A} c (f : World -> Outcome A * World) :
  P c -> emits P (call c f).
Proof.
  intros Hc st. apply wp_call. intros o w _. exists [c].
  split; [reflexivity | constructor; [exact Hc | constructor]].
Qed.

Lemma emits_state_only {A} (m : M World A) :
  (forall st o st', m st = Some (o, st') -> calls st' = calls st) -> emits P m.
Proof.
  intros Hm st o st' Hrun. exists [].
  split; [rewrite (Hm _ _ _ Hrun); symmetry; apply app_nil_r | constructor].
Qed.

Lemma emits_push_skipped s : emits P (@push_skipped World s).
Proof. apply emits_state_only. intros st o st' H; inversion H; reflexivity. Qed.

Lemma emits_push_prepared p : emits P (@push_prepared World p).
Proof. apply emits_state_only. intros st o st' H; inversion H; reflexivity. Qed.

Lemma emits_fresh_locals : emits P (@fresh_locals World).
Proof. apply emits_state_only. intros st o st' H; inversion H; reflexivity. Qed.

Lemma emits_get_prepared : emits P (@get_prepared World).
Proof. apply emits_state_only. intros st o st' H; inversion H; reflexivity. Qed.

Lemma emits_get_skipped : emits P (@get_skipped World).
Proof. apply emits_state_only. intros st o st' H; inversion H; reflexivity. Qed.

Lemma emits_then st st1 st2 more1 more2 :
  calls st1 = calls st ++ more1 -> Forall P more1 ->
  calls st2 = calls st1 ++ more2 -> Forall P more2 ->
  exists more, calls st2 = calls st ++ more /\ Forall P more.
Proof.
  intros H1 F1 H2 F2. exists (more1 ++ more2). split.
  - rewrite H2, H1. symmetry. apply app_assoc.
  - apply Forall_app. split; assumption.
Qed.

Lemma emits_bind {A B} (m : M World A) (k : A -> M World B) :
  emits P m -> (forall a, emits P (k a)) -> emits P (bind m k).
Proof.
  intros Hm Hk st. apply wp_bind.
  eapply wp_mono; [apply Hm |]. intros [a | e] st1 (more1 & H1 & F1).
  - eapply wp_mono; [apply Hk |]. intros o st2 (more2 & H2 & F2).
    exact (emits_then _ _ _ _ _ H1 F1 H2 F2).
  - eauto.
Qed.

Lemma emits_try_catch {A} (m : M World A) (h : JsValue -> M World A) :
  emits P m -> (forall e, emits P (h e)) -> emits P (try_catch m h).
Proof.
  intros Hm Hh st. apply wp_try_catch.
  eapply wp_mono; [apply Hm |]. intros [a | e] st1 (more1 & H1 & F1).
  - eauto.
  - eapply wp_mono; [apply Hh |]. intros o st2 (more2 & H2 & F2).
    exact (emits_then _ _ _ _ _ H1 F1 H2 F2).
Qed.
End EmitRules.

Lemma emits_mono {World A} (P Q : Call -> Prop) (m : M World A) :
  (forall c, P c -> Q c) -> emits P m -> emits Q m.
Proof.
  intros Himp Hm st. eapply wp_mono; [apply Hm |].
  intros o st' (more & Hcalls & Hall). exists more. split; [exact Hcalls |].
  eapply Forall_impl; [exact Hall | exact Himp].
Qed.

(** One step of a proof about the calls of a computation. *)
Ltac emits_step :=
  lazymatch goal with
  | |- emits _ (bind _ _) => apply emits_bind; [| intros ?]
  | |- emits _ (try_catch _ _) => apply emits_try_catch; [| intros ?]
  | |- emits _ (ret _) => apply emits_ret
  | |- emits _ (throw _) => apply emits_throw
  | |- emits _ (lift _) => apply emits_lift
  | |- emits _ (push_skipped _) => apply emits_push_skipped
  | |- emits _ (push_prepared _) => apply emits_push_prepared
  | |- emits _ fresh_locals => apply emits_fresh_locals
  | |- emits _ get_prepared => apply emits_get_prepared
  | |- emits _ get_skipped => apply emits_get_skipped
  | |- emits _ (call _ _) => apply emits_call
  | |- emits _ (match ?x with _ => _ end) => destruct x
  end.

Section PreparationCalls.
Context {World : Type}.
Variable env : Env World.
Variable owner : PublicKey.
Variable P : Call -> Prop.
Hypothesis P_no_tx : forall c, txOfCall c = None -> P c.
Hypothesis P_simulate :
  forall blockhash ixs,
    P (CallSimulateTransaction (mkMessage owner blockhash (budgetIxs ++ ixs))).

Lemma simulateIxs_emits ixs label :
  emits P (simulateIxs env owner (budgetIxs ++ ixs) label).
Proof.
  intros st o st'.
  unfold simulateIxs, try_catch, bind, call, compileTx, ret, throw. cbv zeta.
  assert (Hb : P (CallGetLatestBlockhash Processed)) by (apply P_no_tx; reflexivity).
  destruct (getLatestBlockhashAndContext env Processed (world st))
    as [[ctx | e] w1]; simpl.
  - destruct (compileError env _) as [e |]; simpl.
    + intros H; inversion H; subst; simpl.
      exists [CallGetLatestBlockhash Processed]. split; [reflexivity |].
      constructor; [exact Hb | constructor].
    + destruct (simulateTransaction env _ w1) as [[sim | e] w2]; simpl.
      * destruct (js_truthy (sim_err sim)); simpl;
          intros H; inversion H; subst; simpl;
          (eexists [_; _]; split; [rewrite <- app_assoc; reflexivity |]);
          (constructor; [exact Hb | constructor; [apply P_simulate | constructor]]).
      * intros H; inversion H; subst; simpl.
        eexists [_; _]. split; [rewrite <- app_assoc; reflexivity |].
        constructor; [exact Hb | constructor; [apply P_simulate | constructor]].
  - intros H; inversion H; subst; simpl.
    exists [CallGetLatestBlockhash Processed]. split; [reflexivity |].
    constructor; [exact Hb | constructor].
Qed.

(** A call without a transaction. *)
Ltac emits_plain := apply emits_call, P_no_tx; reflexivity.

Ltac emits_prep :=
  cbv zeta;
  repeat (first [ assumption
                | emits_plain
                | apply simulateIxs_emits
                | emits_step ]).

Lemma getMintProgramId_emits m : emits P (getMintProgramId env m).
Proof. unfold getMintProgramId. emits_prep. Qed.

Lemma resolveProgramId_emits it : emits P (resolveProgramId env it).
Proof. unfold resolveProgramId. emits_prep. apply getMintProgramId_emits. Qed.

Lemma resolveAta_emits m o p : emits P (resolveAtaByMintProgram env m o p).
Proof. unfold resolveAtaByMintProgram. emits_prep. Qed.

Lemma buildCoreBurnVariants_emits asset :
  emits P (buildCoreBurnVariants env owner asset).
Proof. unfold buildCoreBurnVariants. emits_prep. Qed.

Lemma buildPnftVariants_emits m ta coll :
  emits P (buildPnftVariants env owner m ta coll).
Proof. unfold buildPnftVariants. emits_prep. Qed.

Lemma buildLegacyTmBurn_emits m ta prog :
  emits P (buildLegacyTmBurn env owner m ta prog).
Proof. unfold buildLegacyTmBurn. emits_prep. Qed.

Lemma pnftPickLoop_emits order : emits P (pnftPickLoop env owner order).
Proof.
  induction order as [| cand rest IH]; simpl; [apply emits_ret |].
  destruct (cand_ixs cand) as [ixs |]; [| exact IH].
  destruct (is_empty ixs); [exact IH |].
  apply emits_bind; [apply simulateIxs_emits |].
  intros sim. destruct (sim_ok sim); [apply emits_ret | exact IH].
Qed.

Lemma pnftPick_emits variants : emits P (pnftPick env owner variants).
Proof. unfold pnftPick. emits_prep. apply pnftPickLoop_emits. Qed.

Lemma prepareSplOrPnft_emits deepClean it programId ta :
  emits P (prepareSplOrPnft env deepClean owner it programId ta).
Proof.
  unfold prepareSplOrPnft.
  apply emits_bind; [apply buildPnftVariants_emits | intros variants].
  apply emits_bind;
    [destruct variants; [apply pnftPick_emits | apply emits_ret] | intros pnftIxs].
  destruct deepClean, pnftIxs; try apply emits_push_prepared.
  apply emits_bind; [apply buildLegacyTmBurn_emits | intros legacyIxs].
  emits_prep.
Qed.

Lemma prepareItem_emits deepClean it : emits P (prepareItem env deepClean owner it).
Proof.
  unfold prepareItem. cbv zeta.
  apply emits_try_catch; [| intros e; apply emits_push_skipped].
  destruct (flag (isCompressed it)); [apply emits_push_skipped |].
  destruct (flag (isCoreHint it)).
  - apply emits_try_catch; [| intros e; apply emits_push_skipped].
    apply emits_bind; [apply buildCoreBurnVariants_emits | intros v].
    emits_prep.
  - apply emits_bind; [apply resolveProgramId_emits | intros programId].
    destruct (tokenAccount it) as [ta |].
    + apply emits_bind; [emits_plain | intros ai].
      destruct ai as [a |]; [| apply emits_push_skipped].
      apply emits_bind; [| intros ta'; apply prepareSplOrPnft_emits].
      destruct (negb _); [| apply emits_ret].
      apply emits_bind; [apply resolveAta_emits | intros r; apply emits_ret].
    + apply emits_bind; [apply resolveAta_emits | intros r].
      apply prepareSplOrPnft_emits.
Qed.

Lemma prepareAll_emits deepClean rawItems :
  emits P (prepareAll env deepClean owner rawItems).
Proof.
  induction rawItems as [| it rest IH]; simpl; [apply emits_ret |].
  apply emits_bind; [apply prepareItem_emits | intros _; exact IH].
Qed.
End PreparationCalls.

Section PreparationEnds.
Context {World : Type}.
Variable env : Env World.

Lemma getMintProgramId_total m : total (getMintProgramId env m).
Proof. unfold getMintProgramId. total_auto. Qed.

Lemma resolveProgramId_total it : total (resolveProgramId env it).
Proof. unfold resolveProgramId. total_auto. apply getMintProgramId_total. Qed.

Lemma resolveAta_total m o p : total (resolveAtaByMintProgram env m o p).
Proof. unfold resolveAtaByMintProgram. total_auto. Qed.

Lemma buildCoreBurnVariants_total owner asset :
  total (buildCoreBurnVariants env owner asset).
Proof. unfold buildCoreBurnVariants. total_auto. Qed.

Lemma buildPnftVariants_total owner m ta coll :
  total (buildPnftVariants env owner m ta coll).
Proof. unfold buildPnftVariants. total_auto. Qed.

Lemma buildLegacyTmBurn_total owner m ta prog :
  total (buildLegacyTmBurn env owner m ta prog).
Proof. unfold buildLegacyTmBurn. total_auto. Qed.

Lemma pnftPickLoop_total owner order : total (pnftPickLoop env owner order).
Proof.
  induction order as [| cand rest IH]; simpl; [apply total_ret |].
  destruct (cand_ixs cand) as [ixs |]; [| exact IH].
  destruct (is_empty ixs); [exact IH |].
  apply total_bind; [apply simulateIxs_total |].
  intros sim. destruct (sim_ok sim); [apply total_ret | exact IH].
Qed.

Lemma pnftPick_total owner variants : total (pnftPick env owner variants).
Proof. unfold pnftPick. total_auto. apply pnftPickLoop_total. Qed.

Lemma prepareSplOrPnft_total deepClean owner it programId ta :
  total (prepareSplOrPnft env deepClean owner it programId ta).
Proof.
  unfold prepareSplOrPnft.
  apply total_bind; [apply buildPnftVariants_total | intros variants].
  apply total_bind;
    [destruct variants; [apply pnftPick_total | apply total_ret] | intros pnftIxs].
  destruct deepClean, pnftIxs; try apply total_push_prepared.
  apply total_bind; [apply buildLegacyTmBurn_total | intros legacyIxs].
  destruct legacyIxs; [| apply total_push_prepared].
  apply total_bind; [apply simulateIxs_total | intros sim].
  destruct (sim_ok sim); apply total_push_prepared.
Qed.

Lemma prepareItem_total deepClean owner it :
  total (prepareItem env deepClean owner it).
Proof.
  unfold prepareItem. cbv zeta.
  apply total_try_catch; [| intros e; apply total_push_skipped].
  destruct (flag (isCompressed it)); [apply total_push_skipped |].
  destruct (flag (isCoreHint it)).
  - apply total_try_catch; [| intros e; apply total_push_skipped].
    apply total_bind; [apply buildCoreBurnVariants_total | intros v].
    destruct (is_empty _); [apply total_push_skipped |].
    apply total_bind; [apply simulateIxs_total | intros _].
    apply total_push_prepared.
  - apply total_bind; [apply resolveProgramId_total | intros programId].
    destruct (tokenAccount it) as [ta |].
    + apply total_bind; [apply total_call | intros ai].
      destruct ai as [a |]; [| apply total_push_skipped].
      apply total_bind; [| intros ta'; apply prepareSplOrPnft_total].
      destruct (negb _); [| apply total_ret].
      apply total_bind; [apply resolveAta_total | intros r; apply total_ret].
    + apply total_bind; [apply resolveAta_total | intros r].
      apply prepareSplOrPnft_total.
Qed.

Lemma prepareAll_total deepClean owner rawItems :
  total (prepareAll env deepClean owner rawItems).
Proof.
  induction rawItems as [| it rest IH]; simpl; [apply total_ret |].
  apply total_bind; [apply prepareItem_total | intros _; exact IH].
Qed.
End PreparationEnds.

(** X3: preparing a list of descriptors always comes to an end and never
    throws, whatever the chain and the libraries answer: a failure on one
    asset becomes its skip.  And the preparation never asks the wallet for
    anything. *)
Theorem preparation_never_throws_nor_prompts :
  forall (World : Type) (env : Env World) (deepClean : bool) (owner : PublicKey)
         (rawItems : list NftBurnItem) (st : St World),
  exists st' more,
    prepareAll env deepClean owner rawItems st = Some (Returns tt, st') /\
    calls st' = calls st ++ more /\
    Forall (fun c => isWalletCall c = false) more.
Proof.
  intros World env deepClean owner rawItems st.
  destruct (prepareAll_total env deepClean owner rawItems st) as (o & st' & Hrun).
  destruct (prepareAll_settles env _ _ _ _ _ _ Hrun) as [-> _].
  destruct (prepareAll_emits env owner (fun c => isWalletCall c = false)
              ltac:(intros [] H; (reflexivity || discriminate H))
              ltac:(reflexivity) deepClean rawItems st _ _ Hrun)
    as (more & Hcalls & Hall).
  exists st', more. auto.
Qed.

Section DispatchCalls.
Context {World : Type}.
Variable env : Env World.
Variable owner : PublicKey.

Lemma ownerPays_no_tx c : txOfCall c = None -> ownerPaysBudgetFirst owner c.
Proof. intros H. unfold ownerPaysBudgetFirst. rewrite H. exact I. Qed.

Lemma ownerPays_simulate blockhash ixs :
  ownerPaysBudgetFirst owner
    (CallSimulateTransaction (mkMessage owner blockhash (budgetIxs ++ ixs))).
Proof. split; reflexivity. Qed.

Lemma submitAttempt_emits group :
  emits (ownerPaysBudgetFirst owner) (submitAttempt env owner (finalizeIxs group)).
Proof.
  intros st o st'.
  unfold submitAttempt, signAndSendTransaction, compileTx, try_catch, bind, call.
  cbv zeta.
  assert (Hb : ownerPaysBudgetFirst owner (CallGetLatestBlockhash Confirmed))
    by exact I.
  assert (Hw : forall bh slot opts,
             ownerPaysBudgetFirst owner
               (CallSignAndSend (mkMessage owner bh (finalizeIxs group)) slot opts))
    by (intros; split; reflexivity).
  destruct (getLatestBlockhashAndContext env Confirmed (world st))
    as [[ctx | e0] w1]; simpl.
  - destruct (compileError env _) as [e0 |]; simpl.
    + intros H; inversion H; subst; simpl. eexists [_].
      split; [reflexivity | constructor; [exact Hb | constructor]].
    + destruct (walletSignAndSend env _ _ _ w1) as [[sig | e1] w2]; simpl.
      * intros H; inversion H; subst; simpl. eexists [_; _].
        split; [rewrite <- app_assoc; reflexivity |].
        constructor; [exact Hb | constructor; [apply Hw | constructor]].
      * destruct (walletSignAndSend env _ _ None w2) as [o2 w3]; simpl.
        intros H; inversion H; subst; simpl. eexists [_; _; _].
        split; [rewrite <- !app_assoc; reflexivity |].
        constructor; [exact Hb |].
        constructor; [apply Hw | constructor; [apply Hw | constructor]].
  - intros H; inversion H; subst; simpl. eexists [_].
    split; [reflexivity | constructor; [exact Hb | constructor]].
Qed.

Lemma submitGroup_emits ok group queue :
  emits (ownerPaysBudgetFirst owner) (submitGroup env owner ok group queue).
Proof.
  unfold submitGroup. cbv zeta. apply emits_try_catch.
  - apply emits_bind; [apply submitAttempt_emits | intros sig; apply emits_ret].
  - intros e. destruct (userDeclined e); [apply emits_ret | apply emits_throw].
Qed.

Lemma sendGroupsTurn_emits ok group queue :
  emits (ownerPaysBudgetFirst owner) (sendGroupsTurn env owner ok group queue).
Proof.
  unfold sendGroupsTurn. cbv zeta. apply emits_bind.
  - unfold finalizeIxs.
    apply (simulateIxs_emits env owner _ ownerPays_no_tx ownerPays_simulate).
  - intros simRes. destruct simRes as [| err errStr logs];
      [apply submitGroup_emits |].
    destruct (isTooLargeErr _); [| apply submitGroup_emits].
    destruct (1 <? length group)%nat; [apply emits_ret | apply submitGroup_emits].
Qed.

Lemma sendGroupsLoop_emits fuel :
  forall ok queue,
    emits (ownerPaysBudgetFirst owner) (sendGroupsLoop env fuel owner ok queue).
Proof.
  induction fuel as [| fuel IH]; intros ok [| group rest]; simpl.
  - apply emits_ret.
  - intros st o st' H; discriminate H.
  - apply emits_ret.
  - apply emits_bind; [apply sendGroupsTurn_emits | intros next; apply IH].
Qed.

Lemma mutateAsync_emits deepClean rawItems :
  emits (ownerPaysBudgetFirst owner) (mutateAsync env deepClean (Some owner) rawItems).
Proof.
  unfold mutateAsync.
  apply emits_bind; [apply emits_fresh_locals | intros _].
  apply emits_bind;
    [apply (prepareAll_emits env owner _ ownerPays_no_tx ownerPays_simulate) |
     intros _].
  apply emits_bind; [apply emits_get_prepared | intros prepared].
  apply emits_bind; [apply emits_get_skipped | intros skipped].
  cbv zeta. destruct (is_empty _); [apply emits_ret |].
  apply emits_bind; [apply sendGroupsLoop_emits | intros ok; apply emits_ret].
Qed.
End DispatchCalls.

(** X4: whatever a run of [mutateAsync] simulates or hands to the wallet is
    a transaction paid by the connected account that starts with the
    compute-unit limit and the priority fee, in that order. *)
Theorem every_transaction_is_paid_by_owner_budget_first :
  forall (World : Type) (env : Env World) (deepClean : bool) (owner : PublicKey)
         (rawItems : list NftBurnItem) (st : St World) o st',
    mutateAsync env deepClean (Some owner) rawItems st = Some (o, st') ->
    exists more,
      calls st' = calls st ++ more /\
      forall c tx,
        In c more -> txOfCall c = Some tx ->
        payerKey tx = owner /\
        firstn 2 (instructions tx)
        = [IxSetComputeUnitLimit 1000000; IxSetComputeUnitPrice 20000].
Proof.
  intros World env deepClean owner rawItems st o st' Hrun.
  destruct (mutateAsync_emits env owner deepClean rawItems st _ _ Hrun)
    as (more & Hcalls & Hall).
  exists more. split; [exact Hcalls |].
  intros c tx Hin Htx.
  pose proof (proj1 (List.Forall_forall _ more) Hall c Hin) as Hc.
  unfold ownerPaysBudgetFirst in Hc. rewrite Htx in Hc. exact Hc.
Qed.

(** * Which assets a result names *)

Section SettledMints.
Context {World : Type}.
Variable env : Env World.
Implicit Types st : St World.

Lemma preparesFor_bind_frame {A B} mint (m : M World A) (k : A -> M World B) :
  respects sameLocals m -> (forall a, preparesFor mint (k a)) ->
  preparesFor mint (bind m k).
Proof.
  intros Hm Hk st. apply wp_bind.
  eapply wp_mono; [apply Hm |]. intros [a | e] st1 [Hs Hp].
  - eapply wp_mono; [apply Hk |]. intros o st2.
    unfold settlesMint, sameLocals. rewrite Hs, Hp. exact (fun H => H).
  - split; assumption.
Qed.

Lemma preparesFor_push_skipped mint s :
  skip_mint s = toBase58 mint -> preparesFor mint (@push_skipped World s).
Proof.
  intros Hs st o st' Hrun. inversion Hrun; subst. left. exists s. simpl. auto.
Qed.

Lemma preparesFor_push_prepared mint p :
  p_mint p = mint -> preparesFor mint (@push_prepared World p).
Proof.
  intros Hp st o st' Hrun. inversion Hrun; subst. right. exists p. simpl. auto.
Qed.

Lemma settles_try_catch_mint mint (m : M World unit) (f : JsValue -> BurnSkip) st :
  preparesFor mint m -> (forall e, skip_mint (f e) = toBase58 mint) ->
  wp (try_catch m (fun e => push_skipped (f e)))
     (fun o st' => o = Returns tt /\ settlesMint mint st st') st.
Proof.
  intros Hm Hf. apply wp_try_catch.
  eapply wp_mono; [apply Hm |]. intros [[] | e] st1 Hset.
  - split; [reflexivity | exact Hset].
  - intros o st2 Hrun. inversion Hrun; subst. split; [reflexivity |].
    destruct Hset as [Hs Hp]. left. exists (f e). simpl.
    rewrite Hs, Hp. auto.
Qed.

Lemma preparesFor_try_catch_skip mint (m : M World unit) (f : JsValue -> BurnSkip) :
  preparesFor mint m -> (forall e, skip_mint (f e) = toBase58 mint) ->
  preparesFor mint (try_catch m (fun e => push_skipped (f e))).
Proof.
  intros Hm Hf st. eapply wp_mono; [apply settles_try_catch_mint; eassumption |].
  intros o st' [-> Hset]. exact Hset.
Qed.
End SettledMints.

Ltac prepares_step :=
  lazymatch goal with
  | |- preparesFor _ (bind _ _) =>
      apply preparesFor_bind_frame; [solve [respects_all] | intros ?]
  | |- preparesFor _ (push_skipped _) => apply preparesFor_push_skipped; reflexivity
  | |- preparesFor _ (push_prepared _) => apply preparesFor_push_prepared; reflexivity
  | |- preparesFor _ (try_catch _ _) =>
      apply preparesFor_try_catch_skip; [| intros ?; reflexivity]
  | |- preparesFor _ (match ?x with _ => _ end) => destruct x
  end.

Ltac prepares_all := cbv zeta; repeat prepares_step.

Section ResultMints.
Context {World : Type}.
Variable env : Env World.
Implicit Types st : St World.

Lemma prepareSplOrPnft_preparesFor deepClean owner it programId ta :
  preparesFor (mint it) (prepareSplOrPnft env deepClean owner it programId ta).
Proof. unfold prepareSplOrPnft. prepares_all. Qed.

Lemma prepareItem_mint deepClean owner it st :
  wp (prepareItem env deepClean owner it)
     (fun o st' => o = Returns tt /\ settlesMint (mint it) st st') st.
Proof.
  unfold prepareItem. cbv zeta.
  apply settles_try_catch_mint; [| intros e; reflexivity].
  prepares_all; apply prepareSplOrPnft_preparesFor.
Qed.

(** The mints settled by the preparation are those of the descriptors, each
    once, split in order between the skips and the prepared items. *)
Lemma prepareAll_mints deepClean owner rawItems :
  forall st o st',
    prepareAll env deepClean owner rawItems st = Some (o, st') ->
    exists S P,
      map skip_mint (skipped st') = map skip_mint (skipped st) ++ S /\
      map p_mint (prepared st') = map p_mint (prepared st) ++ P /\
      S `sublist_of` map mint rawItems /\
      P `sublist_of` map mint rawItems /\
      S ++ P ≡ₚ map mint rawItems.
Proof.
  induction rawItems as [| it rest IH]; intros st o st' Hrun; simpl in Hrun.
  - inversion Hrun; subst. exists [], []. rewrite !app_nil_r.
    repeat split; try reflexivity; constructor.
  - unfold bind in Hrun.
    destruct (prepareItem env deepClean owner it st) as [[[[] | e] st1] |] eqn:Hitem;
      try discriminate;
      destruct (prepareItem_mint _ _ _ _ _ _ Hitem) as [Hret Hset];
      try discriminate Hret.
    destruct (IH _ _ _ Hrun) as (S & P & HS & HP & HsubS & HsubP & Hperm).
    destruct Hset as [(s & Hs & Hmint & Hp) | (p & Hp & Hmint & Hs)].
    + exists (mint it :: S), P. rewrite HS, HP, Hs, Hp, map_app. simpl.
      rewrite Hmint, <- app_assoc. unfold toBase58. simpl.
      repeat split; try reflexivity.
      * apply sublist_skip, HsubS.
      * apply sublist_cons, HsubP.
      * constructor. exact Hperm.
    + exists S, (mint it :: P). rewrite HS, HP, Hs, Hp, map_app. simpl.
      rewrite Hmint, <- app_assoc. simpl.
      repeat split; try reflexivity.
      * apply sublist_cons, HsubS.
      * apply sublist_skip, HsubP.
      * rewrite <- Permutation_middle. constructor. exact Hperm.
Qed.

Lemma queueMints_cons (group : list Group) queue :
  map g_mint (concat (group :: queue))
  = map g_mint group ++ map g_mint (concat queue).
Proof. simpl. apply map_app. Qed.

Lemma sendGroupsTurn_mints owner ok group queue st ok' queue' st1 :
  sendGroupsTurn env owner ok group queue st = Some (Returns (ok', queue'), st1) ->
  exists L,
    map ok_mint ok' = map ok_mint ok ++ L /\
    (L ++ map g_mint (concat queue')) `sublist_of` map g_mint (concat (group :: queue)) /\
    (neverDeclines env ->
     L ++ map g_mint (concat queue') = map g_mint (concat (group :: queue))).
Proof.
  intros Hrun.
  destruct (simulateIxs_returns env owner (finalizeIxs group) "" st)
    as (simRes & st0 & Hsim).
  rewrite (sendGroupsTurn_cases env _ _ _ _ _ _ _ _ Hsim) in Hrun.
  destruct (shouldSplit simRes group).
  - assert (Hinv : ok' = ok /\
                   queue' = firstn (length group / 2) group
                              :: skipn (length group / 2) group :: queue)
      by (inversion Hrun; split; reflexivity).
    destruct Hinv as [-> ->]. exists []. rewrite app_nil_r.
    assert (Heq : map g_mint (concat (firstn (length group / 2) group
                                        :: skipn (length group / 2) group :: queue))
                  = map g_mint (concat (group :: queue))).
    { cbn [concat]. rewrite app_assoc, firstn_skipn. reflexivity. }
    cbn [app]. rewrite Heq. split; [reflexivity |]. split; reflexivity.
  - destruct (submitAttempt_total env owner (finalizeIxs group) st0)
      as ([sig | e] & st2 & Hattempt).
    + rewrite (submitGroup_signed env _ _ _ _ _ _ _ Hattempt) in Hrun.
      inversion Hrun; subst. exists (map g_mint group).
      rewrite queueMints_cons, map_app, map_map.
      split; [reflexivity |]. split; reflexivity.
    + rewrite (submitGroup_failed env _ _ _ _ _ _ _ Hattempt) in Hrun.
      destruct (userDeclined e) eqn:Hdecl; [| discriminate].
      inversion Hrun; subst. exists []. rewrite app_nil_r, queueMints_cons.
      split; [reflexivity |]. split.
      * simpl. apply sublist_inserts_l. reflexivity.
      * intros Hnever.
        rewrite (Hnever e (submitAttempt_error env _ _ _ _ _ Hattempt)) in Hdecl.
        discriminate.
Qed.

Lemma sendGroupsLoop_mints owner fuel :
  forall ok queue st ok' st',
    sendGroupsLoop env fuel owner ok queue st = Some (Returns ok', st') ->
    exists L,
      map ok_mint ok' = map ok_mint ok ++ L /\
      L `sublist_of` map g_mint (concat queue) /\
      (neverDeclines env -> L = map g_mint (concat queue)).
Proof.
  induction fuel as [| fuel IH]; intros ok [| group rest] st ok' st' Hrun;
    simpl in Hrun; try discriminate.
  - inversion Hrun; subst. exists []. rewrite app_nil_r. repeat split; reflexivity.
  - inversion Hrun; subst. exists []. rewrite app_nil_r. repeat split; reflexivity.
  - unfold bind in Hrun.
    destruct (sendGroupsTurn env owner ok group rest st)
      as [[[[ok1 queue1] | e] st1] |] eqn:Hturn; try discriminate.
    destruct (sendGroupsTurn_mints _ _ _ _ _ _ _ _ Hturn) as (L1 & H1 & Hsub1 & Heq1).
    destruct (IH _ _ _ _ _ Hrun) as (L2 & H2 & Hsub2 & Heq2). simpl in H2.
    exists (L1 ++ L2). rewrite H2, H1, app_assoc. split; [reflexivity |]. split.
    + etrans; [| exact Hsub1]. apply sublist_app; [reflexivity | exact Hsub2].
    + intros Hnever. rewrite <- (Heq1 Hnever), (Heq2 Hnever). reflexivity.
Qed.
End ResultMints.

(** X5: the succeeded records of a run name assets of the input, in the
    order of the input, none twice over what the input has; so do the
    skipped records; and when no submission error reads as a refusal the
    two lists together name exactly the assets of the input. *)
Theorem result_names_input_assets_in_order :
  forall (World : Type) (env : Env World) (deepClean : bool)
         (account : option PublicKey) (rawItems : list NftBurnItem)
         (st : St World) (r : BurnBatchResult) (st' : St World),
    mutateAsync env deepClean account rawItems st = Some (Returns r, st') ->
    map ok_mint (r_ok r) `sublist_of` map mint rawItems /\
    map skip_mint (r_skipped r) `sublist_of` map mint rawItems /\
    (neverDeclines env ->
     map skip_mint (r_skipped r) ++ map ok_mint (r_ok r) ≡ₚ map mint rawItems).
Proof.
  intros World env deepClean [owner |] rawItems st r st' Hrun; [| discriminate].
  destruct (prepareAll env deepClean owner rawItems (freshSt st))
    as [[[[] | e] st1] |] eqn:Hprep;
    try (unfold mutateAsync, bind, fresh_locals in Hrun;
         unfold freshSt in Hprep; rewrite Hprep in Hrun; discriminate).
  destruct (prepareAll_mints env _ _ _ _ _ _ Hprep)
    as (S & P & HS & HP & HsubS & HsubP & Hperm).
  simpl in HS, HP.
  rewrite (mutateAsync_after_prepare env _ _ _ _ _ Hprep) in Hrun.
  assert (Hmints : map g_mint (concat (makeGroups (prepared st1))) = P).
  { unfold makeGroups.
    rewrite groupLoop_concat; [| apply MAX_PER_TX_pos | lia].
    simpl. rewrite map_map. simpl. exact HP. }
  destruct (makeGroups (prepared st1)) as [| g gs] eqn:Hgroups; simpl in Hrun.
  - assert (Hr : r = mkResult [] (skipped st1)) by (inversion Hrun; reflexivity).
    subst r. cbn [r_ok r_skipped map]. rewrite HS.
    simpl in Hmints. rewrite <- Hmints in Hperm.
    split; [apply sublist_nil_l |]. split; [exact HsubS |].
    intros _. rewrite app_nil_r. rewrite app_nil_r in Hperm. exact Hperm.
  - destruct (sendGroups env owner (g :: gs) st1) as [[[ok | e] st2] |] eqn:Hsend;
      try discriminate.
    assert (Hr : r = mkResult ok (skipped st1)) by (inversion Hrun; reflexivity).
    subst r. cbn [r_ok r_skipped].
    destruct (sendGroupsLoop_mints env owner _ _ _ _ _ _ Hsend)
      as (L & HL & HsubL & HeqL).
    simpl in HL. rewrite HL, HS. rewrite Hmints in HsubL, HeqL.
    split; [etrans; eassumption |]. split; [exact HsubS |].
    intros Hnever. rewrite (HeqL Hnever). exact Hperm.
Qed.

(** * Edges of the dispatcher and of the builders *)

(** X6: a first refusal by the wallet does not fail a group.  When the
    first request, sent with skipPreflight, throws, the wallet is asked a
    second time for the same transaction without options, the first error
    is forgotten, and a signature given the second time records the whole
    group as succeeded. *)
Theorem wallet_is_asked_twice_before_failing :
  forall (World : Type) (env : Env World) (owner : PublicKey) ok group queue
         (st : St World) ctx w1 e1 w2 sig w3,
    let tx := mkMessage owner (ctx_blockhash ctx) (finalizeIxs group) in
    let first := CallSignAndSend tx (Some (ctx_slot ctx))
                                 (Some (mkOpts (Some true) None None)) in
    let second := CallSignAndSend tx (Some (ctx_slot ctx)) None in
    getLatestBlockhashAndContext env Confirmed (world st) = (Returns ctx, w1) ->
    compileError env tx = None ->
    walletSignAndSend env tx (Some (ctx_slot ctx))
                      (Some (mkOpts (Some true) None None)) w1 = (Throws e1, w2) ->
    walletSignAndSend env tx (Some (ctx_slot ctx)) None w2 = (Returns sig, w3) ->
    submitGroup env owner ok group queue st
    = Some (Returns (ok ++ map (fun g => mkBurnOk (toBase58 (g_mint g)) sig) group,
                     queue),
            mkSt w3 (calls st ++ [CallGetLatestBlockhash Confirmed; first; second])
                 (skipped st) (prepared st)).
Proof.
  intros World env owner ok group queue st ctx w1 e1 w2 sig w3 tx first second
         Hctx Hcompile Hfirst Hsecond.
  unfold submitGroup, submitAttempt, signAndSendTransaction, compileTx,
    try_catch, bind, call. cbv zeta.
  rewrite Hctx. simpl. fold tx. rewrite Hcompile. simpl.
  unfold mergedOpts. rewrite Hfirst. simpl. rewrite Hsecond. simpl.
  rewrite <- !app_assoc. reflexivity.
Qed.

(** X7: the [catch] of the dispatcher also covers the fetch of the
    blockhash.  When that fetch throws an error whose text reads as a
    refusal ("reject", "denied", "cancel"), the group is dropped as if the
    user had declined, and the wallet was never asked. *)
Theorem blockhash_error_can_read_as_refusal :
  forall (World : Type) (env : Env World) (owner : PublicKey) ok group queue label
         (st : St World) simRes st0 e w1,
    simulateIxs env owner (finalizeIxs group) label st = Some (Returns simRes, st0) ->
    shouldSplit simRes group = false ->
    getLatestBlockhashAndContext env Confirmed (world st0) = (Throws e, w1) ->
    userDeclined e = true ->
    sendGroupsTurn env owner ok group queue st
    = Some (Returns (ok, queue),
            mkSt w1 (calls st0 ++ [CallGetLatestBlockhash Confirmed])
                 (skipped st0) (prepared st0)).
Proof.
  intros World env owner ok group queue label st simRes st0 e w1
         Hsim Hsplit Hctx Hdecl.
  rewrite (sendGroupsTurn_cases env _ _ _ _ _ _ _ _ Hsim), Hsplit.
  rewrite (submitGroup_failed env owner ok group queue st0 e
             (mkSt w1 (calls st0 ++ [CallGetLatestBlockhash Confirmed])
                   (skipped st0) (prepared st0))).
  - rewrite Hdecl. reflexivity.
  - unfold submitAttempt, bind, call. rewrite Hctx. reflexivity.
Qed.

Section BuilderShapes.
Context {World : Type}.
Variable env : Env World.
Implicit Types st : St World.

Lemma buildPnftVariants_noThrow owner m ta coll :
  noThrow (buildPnftVariants env owner m ta coll).
Proof.
  intros st. unfold buildPnftVariants. apply wp_try_catch.
  intros [r | e] st1 _; [eauto |]. apply wp_ret. eauto.
Qed.

Lemma buildLegacyTmBurn_noThrow owner m ta prog :
  noThrow (buildLegacyTmBurn env owner m ta prog).
Proof.
  intros st. unfold buildLegacyTmBurn. apply wp_try_catch.
  intros [r | e] st1 _; [eauto |]. apply wp_ret. eauto.
Qed.

Lemma pnftPickLoop_noThrow owner order : noThrow (pnftPickLoop env owner order).
Proof.
  induction order as [| cand rest IH]; intros st; simpl.
  - apply wp_ret. eauto.
  - destruct (cand_ixs cand) as [ixs |]; [| apply IH].
    destruct (is_empty ixs); [apply IH |].
    apply wp_bind. eapply wp_mono; [apply simulateIxs_noThrow |].
    intros o st1 [sim ->]. destruct (sim_ok sim); [apply wp_ret; eauto | apply IH].
Qed.

Lemma pnftPick_noThrow owner variants : noThrow (pnftPick env owner variants).
Proof.
  intros st. unfold pnftPick. apply wp_bind.
  eapply wp_mono; [apply pnftPickLoop_noThrow |].
  intros o st1 [picked ->]. destruct picked; apply wp_ret; eauto.
Qed.
End BuilderShapes.

(** Breaks the run in hypothesis [H] by cases on every answer it depends on. *)
Ltac break_run H :=
  repeat match type of H with
         | context [match ?x with _ => _ end] =>
             lazymatch x with
             | context [match _ with _ => _ end] => fail
             | _ => destruct x eqn:?; simpl in H; try discriminate H
             end
         end.

(** X8: the pNFT builder never throws; it yields no candidates when the
    read of the token record fails; and when it yields candidates, the
    two with rules are there together or not at all, and each
    unlock-then-burn candidate is the same unlock followed by the burn
    candidate it goes with. *)
Theorem pnft_builder_shape :
  forall (World : Type) (env : Env World) (owner mint ta : PublicKey)
         (coll : option PublicKey) (st : St World),
  exists r st',
    buildPnftVariants env owner mint ta coll st = Some (Returns r, st') /\
    (forall e w,
        umiGetAccount env (findTokenRecordPda env mint ta) (world st) = (Throws e, w) ->
        r = None) /\
    (forall v,
        r = Some v ->
        exists unlock,
          unlockThenBurn v = unlock ++ burnOnly v /\
          ((burnOnlyWithRules v = None /\ unlockThenBurnWithRules v = None) \/
           (exists b, burnOnlyWithRules v = Some b /\
                      unlockThenBurnWithRules v = Some (unlock ++ b)))).
Proof.
  intros World env owner mint ta coll st.
  destruct (buildPnftVariants_total env owner mint ta coll st) as (o & st' & Hrun).
  destruct (buildPnftVariants_noThrow env owner mint ta coll st _ _ Hrun) as [r ->].
  exists r, st'. split; [exact Hrun |].
  unfold buildPnftVariants, try_catch, bind, call, lift, ret, throw in Hrun.
  cbv zeta in Hrun. split.
  - intros e w Hread. rewrite Hread in Hrun. simpl in Hrun.
    inversion Hrun. reflexivity.
  - intros v ->.
    destruct (umiGetAccount env _ (world st)) as [[acc | e] w1]; simpl in Hrun;
      [| discriminate].
    destruct (fetchMetadata env mint w1) as [[md | e] w2]; simpl in Hrun.
    + destruct (md_ruleSet md) as [rs |]; simpl in Hrun.
      * destruct (umiPk env rs) as [k | e]; simpl in Hrun;
          break_run Hrun; inversion Hrun; subst; simpl;
          eexists; split; try reflexivity; eauto.
      * break_run Hrun; inversion Hrun; subst; simpl;
          eexists; split; try reflexivity; eauto.
    + break_run Hrun; inversion Hrun; subst; simpl;
        eexists; split; try reflexivity; eauto.
Qed.

(** X9: the legacy Token Metadata builder never throws; it yields nothing
    when the metadata account is absent, after that one read; and what it
    yields is the burn built by the library followed by one last
    instruction that closes the holding account to the owner, the token
    program being named to the library only when it is Token-2022. *)
Theorem legacy_builder_shape :
  forall (World : Type) (env : Env World) (owner mint ta prog : PublicKey)
         (st : St World),
  exists r st',
    buildLegacyTmBurn env owner mint ta prog st = Some (Returns r, st') /\
    (forall w,
        getAccountInfo env (findMetadataPda env mint) Processed (world st)
        = (Returns None, w) ->
        r = None /\
        st' = mkSt w (calls st ++ [CallGetAccountInfo (findMetadataPda env mint)
                                                      Processed])
                   (skipped st) (prepared st)) /\
    (forall ixs,
        r = Some ixs ->
        exists burn edition,
          ixs = burn ++ [IxSplCloseAccount ta owner owner prog] /\
          burnV1 env owner
                 (mkTmInput mint owner ta (findMetadataPda env mint) edition
                            None None None None
                            (if pk_equals prog TOKEN_2022_PROGRAM_ID
                             then Some TOKEN_2022_PROGRAM_ID else None))
          = Returns burn).
Proof.
  intros World env owner mint ta prog st.
  destruct (buildLegacyTmBurn_total env owner mint ta prog st) as (o & st' & Hrun).
  destruct (buildLegacyTmBurn_noThrow env owner mint ta prog st _ _ Hrun) as [r ->].
  exists r, st'. split; [exact Hrun |].
  unfold buildLegacyTmBurn, try_catch, bind, call, lift, ret, throw in Hrun.
  cbv zeta in Hrun. split.
  - intros w Hread. rewrite Hread in Hrun. simpl in Hrun.
    inversion Hrun. split; reflexivity.
  - intros ixs ->.
    destruct (getAccountInfo env (findMetadataPda env mint) Processed (world st))
      as [[[md |] | e] w1]; simpl in Hrun; try discriminate.
    destruct (getAccountInfo env (findMasterEditionPda env mint) Processed w1)
      as [[me | e] w2]; simpl in Hrun; [| discriminate].
    destruct (burnV1 env owner _) as [burn | e] eqn:Hburn; simpl in Hrun;
      [| discriminate].
    inversion Hrun; subst. eexists burn, _. split; [reflexivity | exact Hburn].
Qed.

(** X10: a Core asset whose collection cannot be fetched is still burnt.
    The failure of the collection lookup is swallowed by the builder, the
    burn without the collection is the one chosen, and the asset is
    prepared with it under the kind core. *)
Theorem core_collection_failure_falls_back :
  forall (World : Type) (env : Env World) (deepClean : bool) (owner : PublicKey)
         (it : NftBurnItem) (st : St World) asset w1 coll e w2 ixs,
    flag (isCompressed it) = false ->
    flag (isCoreHint it) = true ->
    coreFetchAsset env (mint it) (world st) = (Returns asset, w1) ->
    coreBurn env owner asset None = Returns ixs ->
    ixs <> [] ->
    ca_collection asset = Some coll ->
    coreFetchCollection env coll w1 = (Throws e, w2) ->
    buildCoreBurnVariants env owner (mint it) st
    = Some (Returns (mkCoreVariants [] ixs),
            mkSt w2 (calls st ++ [CallCoreFetchAsset (mint it);
                                  CallCoreFetchCollection coll])
                 (skipped st) (prepared st)) /\
    exists st',
      prepareItem env deepClean owner it st = Some (Returns tt, st') /\
      prepared st' = prepared st ++ [mkPrepared (mint it) ixs core] /\
      skipped st' = skipped st.
Proof.
  intros World env deepClean owner it st asset w1 coll e w2 ixs
         Hcomp Hcore Hfetch Hburn Hne Hcoll Hfail.
  assert (Hbuild : buildCoreBurnVariants env owner (mint it) st
                   = Some (Returns (mkCoreVariants [] ixs),
                           mkSt w2 (calls st ++ [CallCoreFetchAsset (mint it);
                                                 CallCoreFetchCollection coll])
                                (skipped st) (prepared st))).
  { unfold buildCoreBurnVariants, try_catch, bind, call, lift.
    rewrite Hfetch. simpl. rewrite Hburn. simpl. rewrite Hcoll. simpl.
    rewrite Hfail. simpl. rewrite <- app_assoc. reflexivity. }
  split; [exact Hbuild |].
  destruct (simulateIxs_returns env owner (budgetIxs ++ ixs) "core-pick"
              (mkSt w2 (calls st ++ [CallCoreFetchAsset (mint it);
                                     CallCoreFetchCollection coll])
                    (skipped st) (prepared st))) as (sim & st1 & Hsim).
  destruct (simulateIxs_respects env sameLocals _ _ _ _ _ _ Hsim) as [Hs Hp].
  simpl in Hs, Hp.
  exists (mkSt (world st1) (calls st1) (skipped st1)
               (prepared st1 ++ [mkPrepared (mint it) ixs core])).
  split; [| simpl; rewrite Hs, Hp; split; reflexivity].
  unfold prepareItem. cbv zeta. rewrite Hcomp, Hcore.
  unfold try_catch at 1. unfold try_catch at 1. unfold bind at 1.
  rewrite Hbuild. cbv beta iota.
  cbn [withCollection withoutCollection is_empty negb].
  apply is_empty_false in Hne. rewrite Hne. unfold bind at 1.
  rewrite Hsim. reflexivity.
Qed.

(** X11: an account that is not on the chain makes a skip, not a failure
    of the run.  Without a program hint, a mint account that is absent is
    skipped with "error: Mint not found: " and the mint, and that read is
    all that is done for the asset.  A holding account named by the
    descriptor that is absent is skipped with "token account not found":
    with a program hint after that one read, without a hint after the read
    of the mint account and that read. *)
Theorem absent_accounts_are_skipped :
  forall (World : Type) (env : Env World) (deepClean : bool) (owner : PublicKey)
         (it : NftBurnItem) (st : St World),
    flag (isCompressed it) = false ->
    flag (isCoreHint it) = false ->
    (forall w1,
        programIdHint it = None ->
        getAccountInfo env (mint it) Processed (world st) = (Returns None, w1) ->
        prepareItem env deepClean owner it st
        = Some (Returns tt,
                mkSt w1 (calls st ++ [CallGetAccountInfo (mint it) Processed])
                     (skipped st
                        ++ [mkBurnSkip (toBase58 (mint it))
                                       ("error: Mint not found: " +:+ toBase58 (mint it))])
                     (prepared st))) /\
    (forall hint ta w1,
        programIdHint it = Some hint ->
        tokenAccount it = Some ta ->
        getAccountInfo env ta Processed (world st) = (Returns None, w1) ->
        prepareItem env deepClean owner it st
        = Some (Returns tt,
                mkSt w1 (calls st ++ [CallGetAccountInfo ta Processed])
                     (skipped st
                        ++ [mkBurnSkip (toBase58 (mint it)) "token account not found"])
                     (prepared st))) /\
    (forall info ta w1 w2,
        programIdHint it = None ->
        tokenAccount it = Some ta ->
        getAccountInfo env (mint it) Processed (world st) = (Returns (Some info), w1) ->
        getAccountInfo env ta Processed w1 = (Returns None, w2) ->
        prepareItem env deepClean owner it st
        = Some (Returns tt,
                mkSt w2 (calls st ++ [CallGetAccountInfo (mint it) Processed;
                                      CallGetAccountInfo ta Processed])
                     (skipped st
                        ++ [mkBurnSkip (toBase58 (mint it)) "token account not found"])
                     (prepared st))).
Proof.
  intros World env deepClean owner it st Hcomp Hcore. split; [| split].
  - intros w1 Hhint Hread.
    unfold prepareItem. cbv zeta. rewrite Hcomp, Hcore.
    unfold resolveProgramId. rewrite Hhint.
    unfold try_catch, bind at 1. unfold getMintProgramId, bind, call.
    rewrite Hread. reflexivity.
  - intros hint ta w1 Hhint Hta Hread.
    unfold prepareItem. cbv zeta. rewrite Hcomp, Hcore, Hta.
    unfold resolveProgramId. rewrite Hhint.
    unfold try_catch, bind, call, ret. simpl. rewrite Hread. reflexivity.
  - intros info ta w1 w2 Hhint Hta Hmint Hread.
    unfold prepareItem. cbv zeta. rewrite Hcomp, Hcore, Hta.
    unfold resolveProgramId. rewrite Hhint.
    unfold try_catch, getMintProgramId, bind, call, ret. rewrite Hmint.
    cbv beta iota. cbn [world calls skipped prepared]. rewrite Hread.
    cbv beta iota. unfold push_skipped. cbn [world calls skipped prepared].
    rewrite <- app_assoc. reflexivity.
Qed.

(** X12: with deepClean off, an asset that reaches the token path is
    always prepared as a plain burn of one unit followed by the closing of
    the holding account, under the kind spl, whatever the pNFT builder and
    the simulations of its candidates answered. *)
Theorem without_deep_clean_plain_burn :
  forall (World : Type) (env : Env World) (owner : PublicKey) (it : NftBurnItem)
         (programId ta : PublicKey) (st : St World),
  exists st',
    prepareSplOrPnft env false owner it programId ta st = Some (Returns tt, st') /\
    prepared st'
    = prepared st
        ++ [mkPrepared (mint it)
                       [IxSplBurn ta (mint it) owner 1 programId;
                        IxSplCloseAccount ta owner owner programId] spl] /\
    skipped st' = skipped st.
Proof.
  intros World env owner it programId ta st.
  destruct (prepareSplOrPnft_total env false owner it programId ta st)
    as (o & st' & Hrun).
  exists st'. pose proof Hrun as Hwhole.
  unfold prepareSplOrPnft, bind in Hrun.
  destruct (buildPnftVariants_total env owner (mint it) ta (collectionMintHint it) st)
    as (ob & st1 & Hbuild).
  destruct (buildPnftVariants_noThrow env _ _ _ _ _ _ _ Hbuild) as [variants ->].
  rewrite Hbuild in Hrun.
  destruct (buildPnftVariants_respects env sameLocals _ _ _ _ _ _ _ Hbuild)
    as [Hs1 Hp1].
  assert (Hpick : exists pnftIxs st2,
             (match variants with
              | Some v => pnftPick env owner v
              | None => ret None
              end) st1 = Some (Returns pnftIxs, st2) /\
             skipped st2 = skipped st1 /\ prepared st2 = prepared st1).
  { destruct variants as [v |].
    - destruct (pnftPick_total env owner v st1) as (o2 & st2 & Hp).
      destruct (pnftPick_noThrow env owner v st1 _ _ Hp) as [pnftIxs ->].
      destruct (pnftPick_respects env sameLocals owner v st1 _ _ Hp) as [Hs2 Hp2].
      eauto.
    - exists None, st1. auto. }
  destruct Hpick as (pnftIxs & st2 & Hpick & Hs2 & Hp2).
  rewrite Hpick in Hrun.
  assert (Hpush : push_prepared
                    (mkPrepared (mint it) (splIxs ta (mint it) owner programId) spl)
                    st2 = Some (o, st')) by (destruct pnftIxs; exact Hrun).
  inversion Hpush; subst. simpl.
  split; [exact Hwhole |]. rewrite Hp2, Hp1, Hs2, Hs1. split; reflexivity.
Qed.

(** * The further properties at work *)

Section WorkedMore.
Import Script Scenes.

(** X1 on seven prepared Core assets: two groups, of at most six. *)
Lemma makeGroups_slices_witness :
  length (makeGroups sevenCore) = 2%nat /\ MAX_PER_TX sevenCore = 6%nat.
Proof.
  destruct (makeGroups_slices_in_order sevenCore) as (_ & _ & Hlen & _ & Hcap).
  assert (Hsix : MAX_PER_TX sevenCore = 6%nat).
  { apply Hcap. intros Hall. inversion Hall as [| p rest Hp _]. discriminate Hp. }
  split; [| exact Hsix].
  rewrite Hlen, Hsix. reflexivity.
Defined.

(** X2 on two compressed assets. *)
Lemma all_compressed_batch_witness :
  mutateAsync quietEnv true (Some "owner") twoCompressed st0
  = Some (Returns (mkResult [] (map compressedSkip twoCompressed)),
          mkSt tt [] (map compressedSkip twoCompressed) []).
Proof.
  apply (all_compressed_batch_makes_no_call unit quietEnv true "owner"
           twoCompressed st0).
  repeat constructor.
Defined.

(** X4 on two bare tokens and a compressed asset. *)
Lemma paid_by_owner_witness :
  exists o st',
    mutateAsync quietEnv true (Some "owner") threeItems st0 = Some (o, st') /\
    exists more,
      calls st' = calls st0 ++ more /\
      forall c tx,
        In c more -> txOfCall c = Some tx ->
        payerKey tx = "owner" /\
        firstn 2 (instructions tx)
        = [IxSetComputeUnitLimit 1000000; IxSetComputeUnitPrice 20000].
Proof.
  eexists _, _. split; [vm_compute; reflexivity |].
  eapply (every_transaction_is_paid_by_owner_budget_first unit quietEnv true "owner"
            threeItems st0).
  vm_compute. reflexivity.
Defined.

(** X5 on the same batch. *)
Lemma result_names_input_witness :
  exists r st',
    mutateAsync quietEnv true (Some "owner") threeItems st0 = Some (Returns r, st') /\
    map ok_mint (r_ok r) `sublist_of` ["m1"; "m2"; "c1"] /\
    map skip_mint (r_skipped r) `sublist_of` ["m1"; "m2"; "c1"] /\
    map skip_mint (r_skipped r) ++ map ok_mint (r_ok r) ≡ₚ ["m1"; "m2"; "c1"].
Proof.
  eexists _, _. split; [vm_compute; reflexivity |].
  edestruct (result_names_input_assets_in_order unit quietEnv true (Some "owner")
               threeItems st0) as (Hok & Hskip & Hall); [vm_compute; reflexivity |].
  split; [exact Hok |]. split; [exact Hskip | exact (Hall quietEnv_neverDeclines)].
Defined.

(** X6 with a wallet that refuses the options. *)
Lemma wallet_asked_twice_witness :
  submitGroup pickyWalletEnv "owner" [] group3 [] st0
  = Some (Returns ([mkBurnOk "m1" "sig"; mkBurnOk "m2" "sig"; mkBurnOk "m3" "sig"],
                   []),
          mkSt tt
               [CallGetLatestBlockhash Confirmed;
                CallSignAndSend (mkMessage "owner" "hash" (finalizeIxs group3))
                                (Some 7%N) (Some (mkOpts (Some true) None None));
                CallSignAndSend (mkMessage "owner" "hash" (finalizeIxs group3))
                                (Some 7%N) None]
               [] []).
Proof.
  apply (wallet_is_asked_twice_before_failing unit pickyWalletEnv "owner" [] group3 []
           st0 (mkCtx 7 "hash") tt (mkError "options not supported") tt "sig" tt);
    reflexivity.
Defined.

(** X7 with a node that refuses the connection. *)
Lemma blockhash_refusal_witness :
  exists simRes st1,
    simulateIxs rejectedBlockhashEnv "owner" (finalizeIxs group3) "send" st0
    = Some (Returns simRes, st1) /\
    sendGroupsTurn rejectedBlockhashEnv "owner" [] group3 [] st0
    = Some (Returns ([], []),
            mkSt tt (calls st1 ++ [CallGetLatestBlockhash Confirmed])
                 (skipped st1) (prepared st1)).
Proof.
  eexists _, _. split; [vm_compute; reflexivity |].
  eapply (blockhash_error_can_read_as_refusal unit rejectedBlockhashEnv "owner" []
            group3 [] "send" st0);
    vm_compute; reflexivity.
Defined.

(** X8 where the token record cannot be read. *)
Lemma pnft_builder_witness :
  exists st',
    buildPnftVariants quietEnv "owner" "m1" "ata:m1" None st0
    = Some (Returns None, st').
Proof.
  destruct (pnft_builder_shape unit quietEnv "owner" "m1" "ata:m1" None st0)
    as (r & st' & Hrun & Hnone & _).
  exists st'. rewrite Hrun.
  rewrite (Hnone (JsString "no such account") tt eq_refl). reflexivity.
Defined.

(** X9 where no metadata account exists. *)
Lemma legacy_builder_witness :
  buildLegacyTmBurn emptyChainEnv "owner" "m1" "ata:m1" TOKEN_PROGRAM_ID st0
  = Some (Returns None,
          mkSt tt [CallGetAccountInfo "metadata:m1" Processed] [] []).
Proof.
  destruct (legacy_builder_shape unit emptyChainEnv "owner" "m1" "ata:m1"
              TOKEN_PROGRAM_ID st0) as (r & st' & Hrun & Habsent & _).
  destruct (Habsent tt eq_refl) as [-> ->]. exact Hrun.
Defined.

(** X10 on a Core asset whose collection is lost. *)
Lemma core_collection_witness :
  exists st',
    prepareItem lostCollectionEnv true "owner" (coreItem "core1") st0
    = Some (Returns tt, st') /\
    prepared st' = [mkPrepared "core1" [IxLibrary "mpl-core" ["core1"]] core] /\
    skipped st' = [].
Proof.
  edestruct (core_collection_failure_falls_back unit lostCollectionEnv true "owner"
               (coreItem "core1") st0 (mkCoreAsset "core1" (Some "coll1")) tt
               "coll1" (mkError "collection not found") tt
               [IxLibrary "mpl-core" ["core1"]])
    as (_ & st' & Hrun & Hprep & Hskip);
    try reflexivity; [discriminate |].
  exists st'. split; [exact Hrun |]. split; [exact Hprep | exact Hskip].
Defined.

(** X11 on a chain without accounts, and on one with the mints only. *)
Lemma absent_accounts_witness :
  prepareItem emptyChainEnv true "owner" (unhintedItem "m1") st0
  = Some (Returns tt,
          mkSt tt [CallGetAccountInfo "m1" Processed]
               [mkBurnSkip "m1" "error: Mint not found: m1"] []) /\
  prepareItem emptyChainEnv true "owner" (bareItem "m1") st0
  = Some (Returns tt,
          mkSt tt [CallGetAccountInfo "ata:m1" Processed]
               [mkBurnSkip "m1" "token account not found"] []) /\
  prepareItem mintsOnlyEnv true "owner" (heldItem "m1") st0
  = Some (Returns tt,
          mkSt tt [CallGetAccountInfo "m1" Processed;
                   CallGetAccountInfo "ata:m1" Processed]
               [mkBurnSkip "m1" "token account not found"] []).
Proof.
  split; [| split].
  - destruct (absent_accounts_are_skipped unit emptyChainEnv true "owner"
                (unhintedItem "m1") st0 eq_refl eq_refl) as (Hmint & _).
    exact (Hmint tt eq_refl eq_refl).
  - destruct (absent_accounts_are_skipped unit emptyChainEnv true "owner"
                (bareItem "m1") st0 eq_refl eq_refl) as (_ & Hata & _).
    exact (Hata TOKEN_PROGRAM_ID "ata:m1" tt eq_refl eq_refl eq_refl).
  - destruct (absent_accounts_are_skipped unit mintsOnlyEnv true "owner"
                (heldItem "m1") st0 eq_refl eq_refl) as (_ & _ & Hboth).
    exact (Hboth (mkAccountInfo TOKEN_PROGRAM_ID) "ata:m1" tt tt
                 eq_refl eq_refl eq_refl eq_refl).
Defined.
End WorkedMore.

(** * The metadata utilities *)

Import Meta.

Lemma replaceFirst_eq (s pattern replacement : string) :
  replaceFirst s pattern replacement
  = if String.prefix pattern s then
      replacement
        +:+ String.substring (String.length pattern)
                             (String.length s - String.length pattern) s
    else
      match s with
      | EmptyString => EmptyString
      | String c rest => String c (replaceFirst rest pattern replacement)
      end.
Proof. destruct s; reflexivity. Qed.

Lemma substring_all (s : string) : String.substring 0 (String.length s) s = s.
Proof. induction s as [| c s IH]; simpl; [reflexivity | rewrite IH; reflexivity]. Qed.

Lemma prefix_split (p s : string) :
  String.prefix p s = true -> exists rest, s = p +:+ rest.
Proof.
  revert s. induction p as [| c p IH]; intros s Hp.
  - exists s. reflexivity.
  - destruct s as [| d s]; simpl in Hp; [discriminate |].
    destruct (Ascii.ascii_dec c d) as [-> | Hne]; [| discriminate].
    destruct (IH _ Hp) as [rest ->]. exists rest. reflexivity.
Qed.

Lemma prefix_append (p rest : string) : String.prefix p (p +:+ rest) = true.
Proof.
  induction p as [| c p IH]; simpl.
  - destruct rest; reflexivity.
  - destruct (Ascii.ascii_dec c c) as [_ | Hne]; [exact IH | contradiction].
Qed.

Lemma ipfsToHttpS_ipfs (rest : string) :
  ipfsToHttpS ("ipfs://" +:+ rest) = "https://ipfs.io/ipfs/" +:+ rest.
Proof.
  unfold ipfsToHttpS. rewrite replaceFirst_eq, prefix_append.
  change (negb (String.eqb ("ipfs://" +:+ rest) "") && true) with true.
  cbv iota. simpl. change ("" +:+ rest) with rest.
  rewrite Nat.sub_0_r, substring_all. reflexivity.
Qed.

Lemma ipfsToHttpS_other (s : string) :
  String.prefix "ipfs://" s = false -> ipfsToHttpS s = s.
Proof. intros H. unfold ipfsToHttpS. rewrite H, andb_false_r. reflexivity. Qed.

Lemma ipfsToHttpS_not_ipfs (s : string) :
  String.prefix "ipfs://" (ipfsToHttpS s) = false.
Proof.
  destruct (String.prefix "ipfs://" s) eqn:Hp.
  - destruct (prefix_split _ _ Hp) as [rest ->].
    rewrite ipfsToHttpS_ipfs. reflexivity.
  - rewrite ipfsToHttpS_other by exact Hp. exact Hp.
Qed.

Lemma ipfsToHttpS_truthy (s : string) :
  String.eqb (ipfsToHttpS s) "" = String.eqb s "".
Proof.
  destruct (String.prefix "ipfs://" s) eqn:Hp.
  - destruct (prefix_split _ _ Hp) as [rest ->].
    rewrite ipfsToHttpS_ipfs. reflexivity.
  - rewrite ipfsToHttpS_other by exact Hp. reflexivity.
Qed.

(** X13: [ipfsToHttp] rewrites an ipfs:// URL to the same path on the
    https://ipfs.io gateway and leaves every other text, and an absent one,
    as it is; what it gives back never begins with ipfs://, so applying it
    twice is the same as applying it once. *)
Theorem ipfs_urls_go_to_the_gateway :
  forall (u : option string),
    (forall rest,
        u = Some ("ipfs://" +:+ rest) ->
        ipfsToHttp u = Some ("https://ipfs.io/ipfs/" +:+ rest)) /\
    (forall s, u = Some s -> String.prefix "ipfs://" s = false -> ipfsToHttp u = u) /\
    (u = None -> ipfsToHttp u = None) /\
    (forall s, ipfsToHttp u = Some s -> String.prefix "ipfs://" s = false) /\
    ipfsToHttp (ipfsToHttp u) = ipfsToHttp u.
Proof.
  intros u. split; [| split; [| split; [| split]]].
  - intros rest ->. simpl. rewrite ipfsToHttpS_ipfs. reflexivity.
  - intros s -> Hp. simpl. rewrite ipfsToHttpS_other by exact Hp. reflexivity.
  - intros ->. reflexivity.
  - intros s Hs. destruct u as [x |]; [| discriminate].
    inversion Hs. apply ipfsToHttpS_not_ipfs.
  - destruct u as [x |]; [| reflexivity]. simpl.
    rewrite (ipfsToHttpS_other (ipfsToHttpS x)) by apply ipfsToHttpS_not_ipfs.
    reflexivity.
Qed.

Lemma ipfsToHttp_truthy (u : option string) : truthy (ipfsToHttp u) = truthy u.
Proof. destruct u as [s |]; [| reflexivity]. simpl. rewrite ipfsToHttpS_truthy. reflexivity. Qed.

Lemma find_truthy {A} (field : A -> option string) (l : list A) (x : A) :
  List.find (fun f => truthy (field f)) l = Some x -> truthy (field x) = true.
Proof. intros H. apply List.find_some in H. apply H. Qed.

(** X14: the image picked for an asset is the CDN address of the first
    file that has one, else the address of the first file that has one,
    else the image link, in each case sent through [ipfsToHttp]; so it
    never begins with ipfs://, and there is an image exactly when one of
    the three sources has one. *)
Theorem picked_image_priority :
  forall (asset : Asset),
    let files := match andThen (b_content (content asset)) c_files with
                 | Some fs => fs
                 | None => []
                 end in
    (forall f,
        List.find (fun f => truthy (file_cdn_uri f)) files = Some f ->
        pickImageFromHeliusAsset asset = ipfsToHttp (file_cdn_uri f)) /\
    (forall f,
        List.find (fun f => truthy (file_cdn_uri f)) files = None ->
        List.find (fun f => truthy (file_uri f)) files = Some f ->
        pickImageFromHeliusAsset asset = ipfsToHttp (file_uri f)) /\
    (List.find (fun f => truthy (file_cdn_uri f)) files = None ->
     List.find (fun f => truthy (file_uri f)) files = None ->
     pickImageFromHeliusAsset asset = ipfsToHttp (linkImage asset)) /\
    (forall s,
        pickImageFromHeliusAsset asset = Some s ->
        String.prefix "ipfs://" s = false) /\
    (truthy (pickImageFromHeliusAsset asset) = false <->
     List.find (fun f => truthy (file_cdn_uri f)) files = None /\
     List.find (fun f => truthy (file_uri f)) files = None /\
     truthy (linkImage asset) = false).
Proof.
  intros asset files. unfold pickImageFromHeliusAsset. fold files. cbv zeta.
  split; [| split; [| split; [| split]]].
  - intros f Hf. rewrite Hf. simpl. unfold or_else at 2.
    rewrite (find_truthy _ _ _ Hf). unfold or_else.
    rewrite (find_truthy _ _ _ Hf). reflexivity.
  - intros f Hc Hf. rewrite Hc, Hf. simpl. unfold or_else at 2. simpl.
    unfold or_else. rewrite (find_truthy _ _ _ Hf). reflexivity.
  - intros Hc Hf. rewrite Hc, Hf. reflexivity.
  - intros s Hs.
    destruct (or_else _ (linkImage asset)) as [x |]; [| discriminate].
    inversion Hs. apply ipfsToHttpS_not_ipfs.
  - rewrite ipfsToHttp_truthy.
    destruct (List.find (fun f => truthy (file_cdn_uri f)) files) as [f |] eqn:Hc.
    + simpl. unfold or_else at 2. rewrite (find_truthy _ _ _ Hc).
      unfold or_else. rewrite (find_truthy _ _ _ Hc).
      split; [intros H; rewrite (find_truthy _ _ _ Hc) in H; discriminate |].
      intros [H _]; discriminate.
    + destruct (List.find (fun f => truthy (file_uri f)) files) as [f |] eqn:Hf.
      * simpl. unfold or_else at 2. simpl. unfold or_else.
        rewrite (find_truthy _ _ _ Hf).
        split; [intros H; rewrite (find_truthy _ _ _ Hf) in H; discriminate |].
        intros (_ & H & _); discriminate.
      * simpl. unfold or_else. simpl. tauto.
Qed.

(** *** Looking for a URI in bytes *)

Lemma matchesAt_spec (n u : list Byte.byte) :
  matchesAt n u = true <-> exists post, u = n ++ post.
Proof.
  revert u. induction n as [| x n IH]; intros u; simpl.
  - split; [intros _; exists u; reflexivity | reflexivity].
  - destruct u as [| y u]; [split; [discriminate | intros [post H]; discriminate] |].
    rewrite andb_true_iff, IH. split.
    + intros [Hxy [post ->]]. apply Byte.byte_dec_bl in Hxy. subst y.
      exists post. reflexivity.
    + intros [post H]. inversion H; subst. split; [| eauto].
      apply Byte.byte_dec_lb. reflexivity.
Qed.

Lemma indexOfBytes_eq (n u : list Byte.byte) :
  indexOfBytes n u
  = if matchesAt n u then Some 0%nat
    else match u with
         | [] => None
         | _ :: rest =>
             match indexOfBytes n rest with
             | Some i => Some (S i)
             | None => None
             end
         end.
Proof. destruct u; reflexivity. Qed.

Lemma indexOfBytes_Some (n u : list Byte.byte) :
  forall i,
    indexOfBytes n u = Some i ->
    exists pre post, u = pre ++ n ++ post /\ length pre = i.
Proof.
  induction u as [| y u IH]; intros i; rewrite indexOfBytes_eq.
  - destruct (matchesAt n []) eqn:Hm; [| discriminate].
    intros H; inversion H; subst. apply matchesAt_spec in Hm as [post ->].
    exists [], post. split; reflexivity.
  - destruct (matchesAt n (y :: u)) eqn:Hm.
    + intros H; inversion H; subst. apply matchesAt_spec in Hm as [post ->].
      exists [], post. split; reflexivity.
    + destruct (indexOfBytes n u) as [j |]; [| discriminate].
      intros H; inversion H; subst.
      destruct (IH j eq_refl) as (pre & post & -> & Hlen).
      exists (y :: pre), post. split; [reflexivity | simpl; lia].
Qed.

Lemma indexOfBytes_None (n u : list Byte.byte) :
  indexOfBytes n u = None <-> ~ occursIn n u.
Proof.
  induction u as [| y u IH]; rewrite indexOfBytes_eq.
  - destruct (matchesAt n []) eqn:Hm.
    + split; [discriminate |]. intros Hno. exfalso. apply Hno.
      apply matchesAt_spec in Hm as [post Hpost]. exists [], post. exact Hpost.
    + split; [| reflexivity]. intros _ (pre & post & H).
      destruct pre; [| discriminate].
      assert (matchesAt n [] = true) by (apply matchesAt_spec; eauto).
      congruence.
  - destruct (matchesAt n (y :: u)) eqn:Hm.
    + split; [discriminate |]. intros Hno. exfalso. apply Hno.
      apply matchesAt_spec in Hm as [post Hpost]. exists [], post. exact Hpost.
    + destruct (indexOfBytes n u) as [j |].
      * split; [discriminate |]. intros Hno. exfalso.
        destruct IH as [_ IH].
        assert (Hrest : ~ occursIn n u).
        { intros (pre & post & ->). apply Hno. exists (y :: pre), post. reflexivity. }
        specialize (IH Hrest). discriminate.
      * split; [| reflexivity]. intros _ (pre & post & H).
        destruct pre as [| z pre].
        -- assert (matchesAt n (y :: u) = true) by (apply matchesAt_spec; eauto).
           congruence.
        -- inversion H; subst. apply (proj1 IH eq_refl). exists pre, post.
           reflexivity.
Qed.

Lemma findStart_Some (ns : list (list Byte.byte)) (u : list Byte.byte) :
  forall i,
    findStart ns u = Some i ->
    exists n pre post, In n ns /\ u = pre ++ n ++ post /\ length pre = i.
Proof.
  induction ns as [| n ns IH]; intros i; simpl; [discriminate |].
  destruct (indexOfBytes n u) as [j |] eqn:Hidx.
  - intros H; inversion H; subst.
    destruct (indexOfBytes_Some _ _ _ Hidx) as (pre & post & Hu & Hlen).
    exists n, pre, post. auto.
  - intros H. destruct (IH _ H) as (m & pre & post & Hin & Hu & Hlen).
    exists m, pre, post. auto.
Qed.

Lemma findStart_None (ns : list (list Byte.byte)) (u : list Byte.byte) :
  findStart ns u = None <-> forall n, In n ns -> ~ occursIn n u.
Proof.
  induction ns as [| n ns IH]; simpl.
  - split; [intros _ n [] | reflexivity].
  - destruct (indexOfBytes n u) as [j |] eqn:Hidx.
    + split; [discriminate |]. intros Hall. exfalso.
      assert (Hno : indexOfBytes n u = None)
        by (apply indexOfBytes_None, Hall; left; reflexivity).
      congruence.
    + rewrite IH. apply indexOfBytes_None in Hidx. split.
      * intros Hall m [<- | Hin]; [exact Hidx | apply Hall, Hin].
      * intros Hall m Hin. apply Hall. right. exact Hin.
Qed.

Lemma takeUri_app (n post : list Byte.byte) :
  forallb (fun b => negb (endsUri b)) n = true ->
  takeUri (n ++ post) = n ++ takeUri post.
Proof.
  induction n as [| x n IH]; simpl; [reflexivity |].
  intros H. apply andb_true_iff in H as [Hx Hn].
  apply negb_true_iff in Hx. rewrite Hx, IH by exact Hn. reflexivity.
Qed.

Lemma takeUri_spec (u : list Byte.byte) :
  Forall (fun b => endsUri b = false) (takeUri u) /\
  exists post, u = takeUri u ++ post.
Proof.
  induction u as [| b u [IHall [post IHpost]]]; simpl.
  - split; [constructor | exists []; reflexivity].
  - destruct (endsUri b) eqn:Hb.
    + split; [constructor | exists (b :: u); reflexivity].
    + split; [constructor; assumption |].
      exists post. simpl. rewrite <- IHpost. reflexivity.
Qed.

Lemma needles_are_uri_bytes (n : list Byte.byte) :
  In n needles -> forallb (fun b => negb (endsUri b)) n = true.
Proof.
  intros [<- | [<- | [<- | []]]]; vm_compute; reflexivity.
Qed.

(** X15: no URI is found in the bytes exactly when none of https://,
    http:// and ipfs:// occurs in them.  A URI that is found is a stretch
    of the bytes that starts with one of the three and holds only printable
    bytes, none of them a space or a quote; and when https:// occurs
    anywhere it is the one the URI starts with, wherever the others
    stand. *)
Theorem extracted_uri_shape :
  forall (u8 : list Byte.byte),
    (extractUriFromBytes u8 = None <->
     forall n, In n needles -> ~ occursIn n u8) /\
    (forall s,
        extractUriFromBytes u8 = Some s ->
        exists n rest,
          In n needles /\
          list_byte_of_string s = n ++ rest /\
          Forall (fun b => endsUri b = false) (n ++ rest) /\
          occursIn (n ++ rest) u8) /\
    (occursIn (list_byte_of_string "https://") u8 ->
     exists s rest,
       extractUriFromBytes u8 = Some s /\
       list_byte_of_string s = list_byte_of_string "https://" ++ rest).
Proof.
  intros u8. unfold extractUriFromBytes, extractUriBytes.
  split; [| split].
  - destruct (findStart needles u8) as [i |] eqn:Hstart.
    + split; [discriminate |]. intros Hall.
      apply findStart_None in Hall. congruence.
    + split; [| reflexivity]. intros _. apply findStart_None, Hstart.
  - intros s Hs.
    destruct (findStart needles u8) as [i |] eqn:Hstart; [| discriminate].
    inversion Hs; subst s. clear Hs.
    destruct (findStart_Some _ _ _ Hstart) as (n & pre & post & Hin & -> & Hlen).
    subst i. rewrite skipn_app, skipn_all, Nat.sub_diag.
    change ([] ++ drop 0 (n ++ post)) with (n ++ post).
    rewrite (takeUri_app _ _ (needles_are_uri_bytes _ Hin)).
    destruct (takeUri_spec post) as [Hall [post' Hpost]].
    exists n, (takeUri post). split; [exact Hin |].
    split; [apply list_byte_of_string_of_list_byte |]. split.
    + apply Forall_app. split; [| exact Hall].
      pose proof (needles_are_uri_bytes _ Hin) as Hn.
      rewrite forallb_forall in Hn. apply List.Forall_forall.
      intros b Hb. apply negb_true_iff, Hn, Hb.
    + exists pre, post'. rewrite <- app_assoc, <- Hpost. reflexivity.
  - intros Hocc.
    destruct (indexOfBytes (list_byte_of_string "https://") u8) as [i |] eqn:Hidx.
    + destruct (indexOfBytes_Some _ _ _ Hidx) as (pre & post & -> & Hlen).
      unfold needles. cbn [map findStart]. rewrite Hidx. subst i.
      rewrite skipn_app, skipn_all, Nat.sub_diag.
      change ([] ++ drop 0 (list_byte_of_string "https://" ++ post))
        with (list_byte_of_string "https://" ++ post).
      rewrite takeUri_app by (vm_compute; reflexivity).
      eexists _, (takeUri post). split; [reflexivity |].
      apply list_byte_of_string_of_list_byte.
    + apply indexOfBytes_None in Hidx. contradiction.
Qed.

(** *** Resolving the metadata of an asset *)

Ltac meta_calls :=
  repeat first [exact I | apply ipfsToHttpS_not_ipfs | constructor].

Ltac meta_leaf :=
  split; [reflexivity |];
  split; [reflexivity |];
  split; [simpl; lia |];
  split; [meta_calls |];
  intros ? ?; discriminate.

Section ResolveFacts.
Context {World : Type}.
Variable env : MetaEnv World.
Implicit Types st : MetaSt (World := World).

Lemma bindM_eq {A B} (m : MM A) (k : A -> MM B) st :
  bindM m k st
  = match m st with
    | (Returns a, st') => k a st'
    | (Throws e, st') => (Throws e, st')
    end.
Proof. reflexivity. Qed.

Lemma noIpfs_ipfsToHttp (u : option string) : noIpfs (ipfsToHttp u).
Proof.
  intros s Hs. destruct u as [x |]; [| discriminate].
  inversion Hs. apply ipfsToHttpS_not_ipfs.
Qed.

Lemma noIpfs_nullish_or (a b : option string) :
  noIpfs a -> noIpfs b -> noIpfs (nullish_or a b).
Proof. intros Ha Hb. destruct a; [exact Ha | exact Hb]. Qed.

Lemma noIpfs_pickImage (asset : Asset) : noIpfs (pickImageFromHeliusAsset asset).
Proof. unfold pickImageFromHeliusAsset. cbv zeta. apply noIpfs_ipfsToHttp. Qed.

Lemma fetchJson_calls url st :
  exists o w,
    fetchJson env url st = (o, mkMetaSt w (m_calls st ++ [CallFetch (ipfsToHttpS url)])).
Proof.
  unfold fetchJson, bindM, callM.
  destruct (httpGet env (ipfsToHttpS url) (m_world st)) as [[r | e] w]; simpl.
  - destruct (resp_ok r); simpl; [| eauto].
    destruct (resp_json r); simpl; eauto.
  - eauto.
Qed.

Lemma viaJsonUri_spec imageFast nameFast symbolFast uri st :
  noIpfs imageFast ->
  exists r w,
    viaJsonUri env imageFast nameFast symbolFast uri st
    = (Returns r, mkMetaSt w (m_calls st ++ [CallFetch (ipfsToHttpS uri)])) /\
    forall m, r = Some m -> noIpfs (image m).
Proof.
  intros Hfast. unfold viaJsonUri, tryM, bindM.
  destruct (fetchJson_calls uri st) as ([j | e] & w & ->); simpl.
  - cbv zeta. destruct (_ || _); simpl; eexists _, _; (split; [reflexivity |]).
    + intros m Hm. inversion Hm; subst; simpl.
      apply noIpfs_nullish_or; [apply noIpfs_ipfsToHttp | exact Hfast].
    + intros m Hm. discriminate.
  - eexists _, _. split; [reflexivity | intros m Hm; discriminate].
Qed.

Lemma viaMetadataPointer_spec imageFast nameFast symbolFast addr st :
  noIpfs imageFast ->
  exists r st' more,
    viaMetadataPointer env imageFast nameFast symbolFast addr st = (Returns r, st') /\
    m_calls st' = m_calls st ++ more /\
    (length more <= 2)%nat /\ Forall httpOnly more /\
    forall m, r = Some m -> noIpfs (image m).
Proof.
  intros Hfast. unfold viaMetadataPointer, tryM, bindM, callM.
  destruct (readAccountData env addr (m_world st)) as [[info | e] w]; simpl.
  - destruct info as [[| b data] |]; simpl;
      try (exists None, (mkMetaSt w (m_calls st ++ [CallReadAccount addr])),
             [CallReadAccount addr]; meta_leaf).
    destruct (extractUriFromBytes (b :: data)) as [uri |]; simpl;
      try (exists None, (mkMetaSt w (m_calls st ++ [CallReadAccount addr])),
             [CallReadAccount addr]; meta_leaf).
    destruct (negb (String.eqb uri "")); simpl;
      try (exists None, (mkMetaSt w (m_calls st ++ [CallReadAccount addr])),
             [CallReadAccount addr]; meta_leaf).
    destruct (fetchJson_calls uri
                (mkMetaSt w (m_calls st ++ [CallReadAccount addr])))
      as ([j | e] & w2 & ->); simpl.
    + eexists _, _, [CallReadAccount addr; CallFetch (ipfsToHttpS uri)].
      split; [reflexivity |]. simpl. split; [rewrite <- app_assoc; reflexivity |].
      split; [lia |]. split; [meta_calls |].
      intros m Hm. inversion Hm; subst; simpl.
      apply noIpfs_nullish_or; [apply noIpfs_ipfsToHttp | exact Hfast].
    + eexists None, _, [CallReadAccount addr; CallFetch (ipfsToHttpS uri)].
      split; [reflexivity |]. simpl. split; [rewrite <- app_assoc; reflexivity |].
      split; [lia |]. split; [meta_calls |].
      intros m Hm. discriminate.
  - exists None, (mkMetaSt w (m_calls st ++ [CallReadAccount addr])),
      [CallReadAccount addr]. meta_leaf.
Qed.

Lemma resolveNftMeta_spec asset st :
  exists r st' more,
    resolveNftMeta env asset st = (Returns r, st') /\
    m_calls st' = m_calls st ++ more /\
    (length more <= 3)%nat /\ Forall httpOnly more /\
    noIpfs (image r).
Proof.
  pose proof (noIpfs_pickImage asset) as Hfast.
  unfold resolveNftMeta. cbv zeta.
  set (fallback := mkMeta (pickImageFromHeliusAsset asset) (contentName asset)
                          (contentSymbol asset) None (contentJsonUri asset)).
  assert (Hfb : forall st0 more0,
             m_calls st0 = m_calls st ++ more0 -> (length more0 <= 3)%nat ->
             Forall httpOnly more0 ->
             exists r st' more,
               (Returns fallback, st0) = (Returns r, st') /\
               m_calls st' = m_calls st ++ more /\
               (length more <= 3)%nat /\ Forall httpOnly more /\
               noIpfs (image r)).
  { intros st0 more0 H1 H2 H3. exists fallback, st0, more0. auto. }
  destruct (_ && _).
  - apply (Hfb st []); [symmetry; apply app_nil_r | simpl; lia | constructor].
  - assert (Hsecond : forall st0 more0,
               m_calls st0 = m_calls st ++ more0 -> (length more0 <= 1)%nat ->
               Forall httpOnly more0 ->
               exists r st' more,
                 bindM (match b_metadata_address (content asset) with
                        | Some metaAddr =>
                            if truthy (b_metadata_address (content asset))
                            then viaMetadataPointer env
                                   (pickImageFromHeliusAsset asset)
                                   (contentName asset) (contentSymbol asset) metaAddr
                            else retM None
                        | None => retM None
                        end)
                   (fun second =>
                      match second with
                      | Some r0 => retM r0
                      | None => retM fallback
                      end) st0 = (Returns r, st') /\
                 m_calls st' = m_calls st ++ more /\
                 (length more <= 3)%nat /\ Forall httpOnly more /\
                 noIpfs (image r)).
    { intros st0 more0 H1 H2 H3. rewrite bindM_eq.
      destruct (b_metadata_address (content asset)) as [addr |];
        [destruct (truthy (Some addr)) |];
        try (apply (Hfb st0 more0); [exact H1 | lia | exact H3]).
      destruct (viaMetadataPointer_spec (pickImageFromHeliusAsset asset)
                  (contentName asset) (contentSymbol asset) addr st0 Hfast)
        as (r & st1 & more1 & -> & Hc & Hlen & Hall & Himg).
      assert (Hcalls : m_calls st1 = m_calls st ++ (more0 ++ more1))
        by (rewrite Hc, H1; symmetry; apply app_assoc).
      destruct r as [m |].
      - exists m, st1, (more0 ++ more1). split; [reflexivity |].
        split; [exact Hcalls |]. split; [rewrite length_app; lia |].
        split; [apply Forall_app; split; assumption | apply Himg; reflexivity].
      - apply (Hfb st1 (more0 ++ more1));
          [exact Hcalls | rewrite length_app; lia
          | apply Forall_app; split; assumption]. }
    rewrite bindM_eq.
    destruct (contentJsonUri asset) as [uri |] eqn:Hjson;
      [destruct (truthy (Some uri)) |];
      try (apply (Hsecond st []);
           [symmetry; apply app_nil_r | simpl; lia | constructor]).
    destruct (viaJsonUri_spec (pickImageFromHeliusAsset asset) (contentName asset)
                (contentSymbol asset) uri st Hfast) as (r & w & -> & Himg).
    destruct r as [m |].
    + eexists m, _, [CallFetch (ipfsToHttpS uri)]. split; [reflexivity |].
      split; [reflexivity |]. split; [simpl; lia |]. split; [meta_calls |].
      apply Himg. reflexivity.
    + apply (Hsecond (mkMetaSt w (m_calls st ++ [CallFetch (ipfsToHttpS uri)]))
               [CallFetch (ipfsToHttpS uri)]);
        [reflexivity | simpl; lia | meta_calls].
Qed.
End ResolveFacts.

(** X16: resolving the metadata of an asset never throws, whatever the
    network answers; it makes at most three outside calls; no URL it
    fetches and no image it returns begins with ipfs://; and an asset that
    already has an image, a name and a symbol is answered from its own
    content, without any call. *)
Theorem resolve_meta_is_safe :
  forall (World : Type) (env : MetaEnv World) (asset : Asset)
         (st : MetaSt (World := World)),
    (exists r st' more,
        resolveNftMeta env asset st = (Returns r, st') /\
        m_calls st' = m_calls st ++ more /\
        (length more <= 3)%nat /\ Forall httpOnly more /\
        noIpfs (image r)) /\
    (truthy (pickImageFromHeliusAsset asset) = true ->
     truthy (contentName asset) = true ->
     truthy (contentSymbol asset) = true ->
     resolveNftMeta env asset st
     = (Returns (mkMeta (pickImageFromHeliusAsset asset) (contentName asset)
                        (contentSymbol asset) None (contentJsonUri asset)),
        st)).
Proof.
  intros World env asset st. split; [apply resolveNftMeta_spec |].
  intros Hi Hn Hs. unfold resolveNftMeta. cbv zeta. rewrite Hi, Hn, Hs. reflexivity.
Qed.
(** *** Enriching one asset *)

Lemma nullish_or_pick (a b : option string) :
  nullish_or a b = a \/ (a = None /\ nullish_or a b = b).
Proof. destruct a; [left | right]; auto. Qed.

(** X17: enriching one asset always returns an asset, whatever the network
    answers, after at most three outside calls. The asset it returns has the
    same id, interface, compression flag, metadata pointer, files and symbol;
    its link image is the one it had or a non-empty one that does not begin
    with ipfs://; its name is the one it had or a non-empty one. *)
Theorem enrichment_keeps_what_the_asset_had :
  forall (World : Type) (env : MetaEnv World) (a : Asset)
         (st : MetaSt (World := World)),
    exists a' st' more,
      enrichOne env a st = (Returns a', st') /\
      m_calls st' = m_calls st ++ more /\ (length more <= 3)%nat /\
      id a' = id a /\
      b_interface (content a') = b_interface (content a) /\
      b_compressed (content a') = b_compressed (content a) /\
      b_metadata_address (content a') = b_metadata_address (content a) /\
      andThen (b_content (content a')) c_files
      = andThen (b_content (content a)) c_files /\
      contentSymbol a' = contentSymbol a /\
      (linkImage a' = linkImage a \/
       (truthy (linkImage a') = true /\ noIpfs (linkImage a'))) /\
      (contentName a' = contentName a \/ truthy (contentName a') = true).
Proof.
  intros World env a st. unfold enrichOne, tryM. rewrite bindM_eq.
  destruct (resolveNftMeta_spec env a st)
    as (meta & st' & more & -> & Hcalls & Hlen & _ & Himg).
  cbv zeta.
  destruct (negb (truthy (nullish_or (image meta) (linkImage a)))
            && negb (truthy (nullish_or (name meta) (contentName a)))
            && negb (truthy (nullish_or (jsonUri meta) (contentJsonUri a)))).
  - exists a, st', more. simpl. repeat split; auto.
  - eexists _, st', more. simpl. split; [reflexivity |].
    split; [exact Hcalls |]. split; [exact Hlen |].
    repeat (split; [reflexivity |]).
    split; [| split; [| split]].
    + unfold andThen. simpl. destruct (b_content (content a)); reflexivity.
    + unfold contentSymbol, andThen. simpl.
      destruct (b_content (content a)) as [c |]; simpl; [| reflexivity].
      destruct (c_metadata c); reflexivity.
    + unfold linkImage at 1 3 4. unfold andThen at 1 2 3 4 5 6. simpl.
      destruct (truthy (nullish_or (image meta) (linkImage a))) eqn:Ht.
      * destruct (nullish_or_pick (image meta) (linkImage a)) as [Hm | [_ Hm]].
        -- right. split; [exact Ht |]. rewrite Hm. exact Himg.
        -- left. exact Hm.
      * left. unfold linkImage, andThen.
        destruct (b_content (content a)) as [c |]; simpl; [| reflexivity].
        destruct (c_links c); reflexivity.
    + unfold contentName at 1 3. unfold andThen at 1 2 3 4. simpl.
      destruct (truthy (nullish_or (name meta) (contentName a))) eqn:Ht.
      * right. exact Ht.
      * left. unfold contentName, andThen.
        destruct (b_content (content a)) as [c |]; simpl; [| reflexivity].
        destruct (c_metadata c); reflexivity.
Qed.

(** *** The merge, position by position *)

Section MergeFacts.
Context {Content : Type}.
Implicit Types enriched curr : list (HeliusAsset Content).

Lemma find_append {A} (p : A -> bool) (l1 l2 : list A) :
  List.find p (l1 ++ l2)
  = match List.find p l1 with
    | Some x => Some x
    | None => List.find p l2
    end.
Proof.
  induction l1 as [| x rest IH]; simpl; [reflexivity |].
  destruct (p x); [reflexivity | exact IH].
Qed.

(** The entry the map holds for a key: the last one of the batch with it. *)
Lemma foldl_insert_last enriched :
  forall (m : gmap string (HeliusAsset Content)) k,
    foldl (fun m e => <[id e := e]> m) m enriched !! k
    = match List.find (fun e => String.eqb (id e) k) (rev enriched) with
      | Some e => Some e
      | None => m !! k
      end.
Proof.
  induction enriched as [| x rest IH]; intros m k; simpl; [reflexivity |].
  rewrite IH, find_append.
  destruct (List.find _ (rev rest)) as [e |]; [reflexivity |]. simpl.
  destruct (String.eqb (id x) k) eqn:Hk.
  - apply String.eqb_eq in Hk. subst k. rewrite lookup_insert.
    case_decide; [reflexivity | contradiction].
  - apply String.eqb_neq in Hk. apply lookup_insert_ne. exact Hk.
Qed.

Lemma byId_last enriched k :
  byId enriched !! k = List.find (fun e => String.eqb (id e) k) (rev enriched).
Proof.
  unfold byId. rewrite foldl_insert_last, lookup_empty.
  destruct (List.find _ _); reflexivity.
Qed.

Lemma find_unique (l : list (HeliusAsset Content)) e :
  NoDup (map id l) -> In e l ->
  List.find (fun x => String.eqb (id x) (id e)) l = Some e.
Proof.
  induction l as [| x rest IH]; intros Hnd Hin; [destruct Hin |].
  simpl in *. apply NoDup_cons in Hnd as [Hx Hnd].
  destruct Hin as [-> | Hin].
  - rewrite String.eqb_refl. reflexivity.
  - destruct (String.eqb (id x) (id e)) eqn:Hk; [| apply IH; assumption].
    apply String.eqb_eq in Hk. exfalso. apply Hx. rewrite Hk.
    apply list_elem_of_In, in_map, Hin.
Qed.
End MergeFacts.

(** X18: in the updated list, a position whose id is in the enriched batch
    holds the last asset of the batch with that id; so when the ids of the
    batch are distinct, each asset of the batch lands at every position of
    the current list that has its id. *)
Theorem merge_puts_the_last_enriched_entry :
  forall (Content : Type) (enriched curr : list (HeliusAsset Content)),
    mergeEnriched enriched curr
    = map (fun c =>
             match List.find (fun e => String.eqb (id e) (id c)) (rev enriched) with
             | Some e => e
             | None => c
             end) curr /\
    (NoDup (map id enriched) ->
     forall e i c,
       In e enriched -> curr !! i = Some c -> id c = id e ->
       mergeEnriched enriched curr !! i = Some e).
Proof.
  intros Content enriched curr. split.
  - unfold mergeEnriched. apply map_ext. intros c. rewrite byId_last. reflexivity.
  - intros Hnd e i c Hin Hc Hid.
    rewrite mergeEnriched_lookup, Hc, byId_last, Hid.
    rewrite (find_unique (rev enriched) e); [reflexivity | |].
    + rewrite map_rev. apply NoDup_ListNoDup, List.NoDup_rev, NoDup_ListNoDup, Hnd.
    + apply in_rev. rewrite rev_involutive. exact Hin.
Qed.
(** *** Tokens and NFTs *)

Lemma filter_sublist {A} (p : A -> bool) (l : list A) :
  List.filter p l `sublist_of` l.
Proof.
  induction l as [| x rest IH]; simpl; [constructor |].
  destruct (p x); [apply sublist_skip | apply sublist_cons]; exact IH.
Qed.

Lemma filter_both_sides {A} (p : A -> bool) (l : list A) :
  List.filter p l ++ List.filter (fun a => negb (p a)) l ≡ₚ l.
Proof.
  induction l as [| x rest IH]; simpl; [reflexivity |].
  destruct (p x); simpl.
  - constructor. exact IH.
  - rewrite <- Permutation_middle. constructor. exact IH.
Qed.

(** X19: the split of the owner's assets loses and doubles nothing: the
    tokens followed by the NFTs are the items up to order, each side keeps
    the order of the items, the tokens are exactly the items whose interface
    is FungibleToken and the NFTs are the others. *)
Theorem split_loses_no_asset :
  forall items : list Asset,
    fst (splitAssets items) ++ snd (splitAssets items) ≡ₚ items /\
    fst (splitAssets items) `sublist_of` items /\
    snd (splitAssets items) `sublist_of` items /\
    (forall a, In a (fst (splitAssets items)) <->
               In a items /\ b_interface (content a) = "FungibleToken") /\
    (forall a, In a (snd (splitAssets items)) <->
               In a items /\ b_interface (content a) <> "FungibleToken").
Proof.
  intros items. unfold splitAssets. simpl.
  split; [apply filter_both_sides |].
  split; [apply filter_sublist |].
  split; [apply filter_sublist |].
  split; intros a; rewrite filter_In; unfold isFungible.
  - rewrite String.eqb_eq. reflexivity.
  - rewrite negb_true_iff, String.eqb_neq. reflexivity.
Qed.

(** *** The selection *)

Lemma includesId_In (ids : list string) (i : string) :
  includesId ids i = true <-> In i ids.
Proof.
  unfold includesId. rewrite existsb_exists. split.
  - intros (x & Hin & Heq). apply String.eqb_eq in Heq. subst x. exact Hin.
  - intros Hin. exists i. split; [exact Hin | apply String.eqb_refl].
Qed.

Lemma includesId_not_In (ids : list string) (i : string) :
  includesId ids i = false <-> ~ In i ids.
Proof.
  rewrite <- includesId_In. destruct (includesId ids i); split; intros H;
    try reflexivity; try discriminate; try (intros H'; discriminate).
  exfalso. apply H. reflexivity.
Qed.

Lemma filter_other_In (prev : list string) (i x : string) :
  In x (List.filter (fun y => negb (String.eqb y i)) prev) <-> In x prev /\ x <> i.
Proof.
  rewrite filter_In, negb_true_iff, String.eqb_neq. reflexivity.
Qed.

Lemma filter_absent (prev : list string) (i : string) :
  ~ In i prev -> List.filter (fun y => negb (String.eqb y i)) prev = prev.
Proof.
  induction prev as [| y rest IH]; intros Hnot; simpl; [reflexivity |].
  destruct (String.eqb y i) eqn:Hy; simpl.
  - apply String.eqb_eq in Hy. exfalso. apply Hnot. left. exact Hy.
  - rewrite IH; [reflexivity |]. intros Hin. apply Hnot. right. exact Hin.
Qed.

Lemma filter_NoDup (p : string -> bool) (prev : list string) :
  NoDup prev -> NoDup (List.filter p prev).
Proof.
  intros Hnd. apply NoDup_ListNoDup, List.NoDup_filter, NoDup_ListNoDup, Hnd.
Qed.

(** X20: tapping an id toggles it and nothing else: a selected id leaves
    the selection (every copy of it), an id that was not selected is added
    at the end, and every other id stays selected or not as it was; a
    selection without repeats stays without repeats; and tapping twice an
    id that was not selected gives back the selection as it was. *)
Theorem toggle_changes_one_id :
  forall (prev : list string) (i : string),
    (In i (toggleSelect prev i) <-> ~ In i prev) /\
    (forall x, x <> i -> (In x (toggleSelect prev i) <-> In x prev)) /\
    (NoDup prev -> NoDup (toggleSelect prev i)) /\
    (~ In i prev ->
     toggleSelect prev i = prev ++ [i] /\
     toggleSelect (toggleSelect prev i) i = prev) /\
    (In i prev ->
     toggleSelect prev i `sublist_of` prev /\
     toggleSelect (toggleSelect prev i) i = toggleSelect prev i ++ [i]).
Proof.
  intros prev i. destruct (includesId prev i) eqn:Hinc.
  - assert (Ht : toggleSelect prev i
                 = List.filter (fun x => negb (String.eqb x i)) prev)
      by (unfold toggleSelect; rewrite Hinc; reflexivity).
    rewrite Ht. apply includesId_In in Hinc.
    split; [| split; [| split; [| split]]].
    + rewrite filter_other_In. split; [intros [_ H]; contradiction | tauto].
    + intros x Hx. rewrite filter_other_In. tauto.
    + apply filter_NoDup.
    + intros Hnot. contradiction.
    + intros _. split; [apply filter_sublist |].
      unfold toggleSelect.
      assert (Hout : includesId
                       (List.filter (fun x => negb (String.eqb x i)) prev) i
                     = false).
      { apply includesId_not_In. rewrite filter_other_In. tauto. }
      rewrite Hout. reflexivity.
  - assert (Ht : toggleSelect prev i = prev ++ [i])
      by (unfold toggleSelect; rewrite Hinc; reflexivity).
    rewrite Ht. apply includesId_not_In in Hinc.
    split; [| split; [| split; [| split]]].
    + rewrite in_app_iff. simpl. tauto.
    + intros x Hx. rewrite in_app_iff. simpl. split; [| tauto].
      intros [H | [H | []]]; [exact H | congruence].
    + intros Hnd. apply NoDup_app. split; [exact Hnd |]. split.
      * intros x Hx Hi. apply list_elem_of_In in Hx, Hi. simpl in Hi.
        destruct Hi as [<- | []]. contradiction.
      * apply NoDup_singleton.
    + intros _. split; [reflexivity |]. unfold toggleSelect.
      assert (Hin2 : includesId (prev ++ [i]) i = true).
      { apply includesId_In, in_app_iff. right. left. reflexivity. }
      rewrite Hin2. rewrite List.filter_app. simpl.
      rewrite String.eqb_refl. simpl. rewrite app_nil_r.
      apply filter_absent, Hinc.
    + intros Hin. contradiction.
Qed.

(** *** What the screen sends to the burn *)

Lemma toBurnItem_hint (n : ParsedNft) :
  programIdHint (toBurnItem n) = Some TOKEN_PROGRAM_ID \/
  programIdHint (toBurnItem n) = Some TOKEN_2022_PROGRAM_ID.
Proof. unfold toBurnItem. simpl. destruct (isString _ _); auto. Qed.

(** X21: the screen sends nothing from the compressed tab. From the other
    tab it sends one item for each listed NFT that is not compressed and
    whose id is selected, in the order of the list, not of the selection;
    no item is flagged compressed, a selected id that is not listed sends
    nothing, and every item names the classic or the 2022 token program, so
    the program resolution of the burn takes the program from the item
    without reading the chain.  The item names the 2022 program exactly
    when the token program address of the NFT is the text the screen
    compares it with; that text is not the address of the 2022 program, so
    an NFT whose token program address is the 2022 program's own address is
    sent with the classic program. *)
Theorem screen_sends_selected_uncompressed :
  forall (World : Type) (env : Env World) (all : list ParsedNft)
         (selectedIds : list string),
    selectedToBurn true all selectedIds = [] /\
    map mint (selectedToBurn false all selectedIds)
    = List.filter (includesId selectedIds)
        (map n_id (List.filter (fun n => negb (flag (n_isCompressed n))) all)) /\
    (forall it,
        In it (selectedToBurn false all selectedIds) ->
        In (mint it) selectedIds /\
        In (mint it) (map n_id all) /\
        flag (isCompressed it) = false /\
        exists p,
          programIdHint it = Some p /\
          (p = TOKEN_PROGRAM_ID \/ p = TOKEN_2022_PROGRAM_ID) /\
          forall st : St World,
            resolveProgramId env it st = Some (Returns p, st)) /\
    (forall n,
        programIdHint (toBurnItem n) = Some TOKEN_2022_PROGRAM_ID <->
        n_tokenProgramAddress n = Some "TokenzQdYGrDSDXi6MNLxwZenoJBNb8wDgib6A5nSJ8") /\
    (forall n,
        n_tokenProgramAddress n = Some TOKEN_2022_PROGRAM_ID ->
        programIdHint (toBurnItem n) = Some TOKEN_PROGRAM_ID).
Proof.
  intros World env all selectedIds. unfold selectedToBurn. simpl.
  split; [reflexivity |]. split; [| split; [| split]].
  - induction all as [| n rest IH]; simpl; [reflexivity |].
    destruct (negb (flag (n_isCompressed n))); simpl; [| exact IH].
    destruct (includesId selectedIds (n_id n)); simpl; [| exact IH].
    rewrite IH. reflexivity.
  - intros it Hin. apply in_map_iff in Hin as (n & <- & Hin).
    apply filter_In in Hin as [Hin Hsel].
    apply filter_In in Hin as [Hin Hflag].
    apply includesId_In in Hsel. apply negb_true_iff in Hflag.
    split; [exact Hsel |].
    split; [apply (in_map n_id), Hin |].
    split; [exact Hflag |].
    unfold resolveProgramId.
    destruct (toBurnItem_hint n) as [Hp | Hp]; rewrite Hp; eexists;
      (split; [reflexivity |]); (split; [auto |]); intros st; reflexivity.
  - intros n. unfold toBurnItem. cbn [programIdHint]. unfold isString.
    destruct (n_tokenProgramAddress n) as [x |].
    + destruct (String.eqb x "TokenzQdYGrDSDXi6MNLxwZenoJBNb8wDgib6A5nSJ8") eqn:Hx.
      * apply String.eqb_eq in Hx. subst x. split; reflexivity.
      * apply String.eqb_neq in Hx. split; [discriminate | congruence].
    + split; discriminate.
  - intros n Haddr. unfold toBurnItem. cbn [programIdHint]. rewrite Haddr.
    reflexivity.
Qed.

(** * The metadata properties at work *)

Section WorkedMeta.
Import Scenes.

(** X13 on one address. *)
Lemma ipfs_gateway_witness :
  ipfsToHttp (Some "ipfs://abc") = Some "https://ipfs.io/ipfs/abc".
Proof.
  destruct (ipfs_urls_go_to_the_gateway (Some "ipfs://abc")) as (Hipfs & _).
  exact (Hipfs "abc" eq_refl).
Defined.

(** X14 on an asset whose second file has a CDN address. *)
Lemma picked_image_witness :
  pickImageFromHeliusAsset fullAsset = Some "https://ipfs.io/ipfs/cdn".
Proof.
  destruct (picked_image_priority fullAsset) as (Hcdn & _).
  exact (Hcdn (mkFile None (Some "ipfs://cdn") None) eq_refl).
Defined.

(** X15 on account data with an address in the middle. *)
Lemma extracted_uri_witness :
  exists s rest,
    extractUriFromBytes sampleData = Some s /\
    list_byte_of_string s = list_byte_of_string "https://" ++ rest.
Proof.
  destruct (extracted_uri_shape sampleData) as (_ & _ & Hhttps).
  apply Hhttps.
  exists (list_byte_of_string "junk "), (list_byte_of_string "host/a.json tail").
  reflexivity.
Defined.

(** X16 on an asset that has an image, a name and a symbol. *)
Lemma resolve_meta_witness :
  resolveNftMeta offlineEnv fullAsset metaSt0
  = (Returns (mkMeta (Some "https://ipfs.io/ipfs/cdn") (Some "Ape") (Some "APE")
                     None (Some "https://host/meta.json")),
     metaSt0).
Proof.
  destruct (resolve_meta_is_safe unit offlineEnv fullAsset metaSt0) as (_ & Hfast).
  exact (Hfast eq_refl eq_refl eq_refl).
Defined.

(** X18 on a batch that enriches the second of three assets. *)
Lemma merge_last_entry_witness :
  mergeEnriched Script.richBatch Script.rawAssets !! 1%nat
  = Some (mkAsset "b" "rich b").
Proof.
  destruct (merge_puts_the_last_enriched_entry string Script.richBatch
              Script.rawAssets) as (_ & Hput).
  apply (Hput ltac:(repeat constructor; intros H; inversion H)
              (mkAsset "b" "rich b") 1%nat (mkAsset "b" "raw b"));
    [left; reflexivity | reflexivity | reflexivity].
Defined.

(** X19 on a token and an NFT. *)
Lemma split_witness :
  In coin (fst (splitAssets [fullAsset; coin])) /\
  In fullAsset (snd (splitAssets [fullAsset; coin])).
Proof.
  destruct (split_loses_no_asset [fullAsset; coin]) as (_ & _ & _ & Htok & Hnft).
  split.
  - apply Htok. split; [right; left; reflexivity | reflexivity].
  - apply Hnft. split; [left; reflexivity | discriminate].
Defined.

(** X20 on an id that is not selected. *)
Lemma toggle_witness :
  toggleSelect ["a"; "b"] "c" = ["a"; "b"; "c"] /\
  toggleSelect (toggleSelect ["a"; "b"] "c") "c" = ["a"; "b"].
Proof.
  destruct (toggle_changes_one_id ["a"; "b"] "c") as (_ & _ & _ & Hadd & _).
  apply Hadd. intros [H | [H | []]]; discriminate H.
Defined.

(** X21 on a list of one plain and one compressed NFT, both selected. *)
Lemma screen_sends_witness :
  map mint (selectedToBurn false [parsedPlain; parsedCompressed] ["n2"; "n1"])
  = ["n1"] /\
  resolveProgramId Script.quietEnv (toBurnItem parsedPlain) Script.st0
  = Some (Returns TOKEN_2022_PROGRAM_ID, Script.st0).
Proof.
  destruct (screen_sends_selected_uncompressed unit Script.quietEnv
              [parsedPlain; parsedCompressed] ["n2"; "n1"])
    as (_ & Hmints & Hitem & _).
  destruct (Hitem (toBurnItem parsedPlain) ltac:(left; reflexivity))
    as (_ & _ & _ & p & Hp & _ & Hres).
  split; [rewrite Hmints; reflexivity |].
  inversion Hp as [Heq]. rewrite Heq. apply Hres.
Defined.
End WorkedMeta.
